(** * Portfolio generator: the data acquisition and normalisation pipeline

    A shallow embedding of [generate_projects.js] (the offline generator)
    and of the fallback fetch of [script.js] (the client path):

    - JavaScript values, truthiness, property access and string conversion;
    - the regular-expression replacements of [excerptMarkdown];
    - the network layer ([fetchJson], [fetchRaw]) as a state-and-exception
      monad over a request log, against an upstream given as a function
      from URLs to responses;
    - the Collector ([listRepos]), the Enricher ([getRepoReadme],
      [getContributors]), the Normalizer (the [repoObj] literal and the
      client-side mapping), the Ranker ([sort] then [slice(0,3)]) and the
      offline main routine.

    Strings are sequences of UTF-16 code units, numbers are integers
    (star counts, sizes and HTTP statuses are all far below 2^53, where
    JavaScript's doubles are exact). *)

From Stdlib Require Import String Ascii List ZArith NArith Lia Bool.
From Stdlib Require Import Permutation Sorted.
Import ListNotations.
Open Scope string_scope.
Open Scope list_scope.

Set Warnings "-register-all".

(* ================================================================== *)
(** * JavaScript strings *)
(* ================================================================== *)

Module JsString.

(** A code unit, and a string as the sequence of its code units. *)
Definition jschar := N.
Definition jsstring := list jschar.

(** A source-code literal (ASCII) as a JavaScript string. *)
Definition lit (s : string) : jsstring :=
  map N_of_ascii (list_ascii_of_string s).

Definition LF : jschar := 10%N.
Definition CR : jschar := 13%N.

(** LineTerminator of ECMAScript: LF, CR, LS, PS. *)
Definition is_line_terminator (c : jschar) : bool :=
  (N.eqb c 10 || N.eqb c 13 || N.eqb c 8232 || N.eqb c 8233)%N.

(** WhiteSpace of ECMAScript: TAB, VT, FF, SP, NBSP, ZWNBSP and the
    space separators of Unicode. *)
Definition is_white_space (c : jschar) : bool :=
  (N.eqb c 9 || N.eqb c 11 || N.eqb c 12 || N.eqb c 32 || N.eqb c 160
   || N.eqb c 5760 || (N.leb 8192 c && N.leb c 8202)
   || N.eqb c 8239 || N.eqb c 8287 || N.eqb c 12288 || N.eqb c 65279)%N.

(** What [String.prototype.trim] strips and what [\s] matches. *)
Definition is_space (c : jschar) : bool :=
  is_white_space c || is_line_terminator c.

Fixpoint trimStart (s : jsstring) : jsstring :=
  match s with
  | c :: s' => if is_space c then trimStart s' else s
  | [] => []
  end.

Definition trimEnd (s : jsstring) : jsstring :=
  rev (trimStart (rev s)).

(** [s.trim()] *)
Definition trim (s : jsstring) : jsstring := trimEnd (trimStart s).

(** [s.slice(0, e)]: a negative end counts from the end of the string. *)
Definition slice0 (s : jsstring) (e : Z) : jsstring :=
  if (e <? 0)%Z
  then firstn (Z.to_nat (Z.max (Z.of_nat (length s) + e) 0)) s
  else firstn (Z.to_nat e) s.

Fixpoint eqb (a b : jsstring) : bool :=
  match a, b with
  | [], [] => true
  | x :: a', y :: b' => N.eqb x y && eqb a' b'
  | _, _ => false
  end.

Fixpoint digits (d : Decimal.uint) : jsstring :=
  match d with
  | Decimal.Nil => []
  | Decimal.D0 d => 48%N :: digits d
  | Decimal.D1 d => 49%N :: digits d
  | Decimal.D2 d => 50%N :: digits d
  | Decimal.D3 d => 51%N :: digits d
  | Decimal.D4 d => 52%N :: digits d
  | Decimal.D5 d => 53%N :: digits d
  | Decimal.D6 d => 54%N :: digits d
  | Decimal.D7 d => 55%N :: digits d
  | Decimal.D8 d => 56%N :: digits d
  | Decimal.D9 d => 57%N :: digits d
  end.

(** Number-to-string conversion of an integer: decimal digits, with a
    minus sign when negative. *)
Definition of_Z (z : Z) : jsstring :=
  match z with
  | Z0 => [48%N]
  | Zpos p => digits (Pos.to_uint p)
  | Zneg p => 45%N :: digits (Pos.to_uint p)
  end.

Definition of_nat (n : nat) : jsstring := of_Z (Z.of_nat n).

End JsString.
Import JsString.

(* ================================================================== *)
(** * JavaScript values *)
(* ================================================================== *)

(** The values that JSON can carry, plus [undefined].  An object is the
    list of its own properties in insertion order. *)
Inductive jsval : Type :=
| JUndefined
| JNull
| JBool (b : bool)
| JNum (z : Z)
| JStr (s : jsstring)
| JArr (l : list jsval)
| JObj (props : list (string * jsval)).

(** ToBoolean. *)
Definition truthy (v : jsval) : bool :=
  match v with
  | JUndefined | JNull => false
  | JBool b => b
  | JNum z => negb (Z.eqb z 0)
  | JStr s => match s with [] => false | _ => true end
  | JArr _ | JObj _ => true
  end.

(** [a || b] *)
Definition js_or (a b : jsval) : jsval := if truthy a then a else b.

Fixpoint lookup (k : string) (props : list (string * jsval)) : option jsval :=
  match props with
  | [] => None
  | (k', v) :: rest => if String.eqb k k' then Some v else lookup k rest
  end.

(** [o.k] on a value that is known not to be null or undefined: an
    absent property reads as [undefined].  Objects made by [JSON.parse]
    and by object literals have no accessors, and the properties read by
    the program are none of the built-in ones of strings and arrays
    ([length] is read through [js_length]). *)
Definition get (o : jsval) (k : string) : jsval :=
  match o with
  | JObj props => match lookup k props with Some v => v | None => JUndefined end
  | _ => JUndefined
  end.

(** Whether the object has [k] as an own property. *)
Definition has_own (o : jsval) (k : string) : bool :=
  match o with
  | JObj props => match lookup k props with Some _ => true | None => false end
  | _ => false
  end.

Fixpoint update (k : string) (v : jsval) (props : list (string * jsval))
  : list (string * jsval) :=
  match props with
  | [] => [(k, v)]
  | (k', v') :: rest =>
      if String.eqb k k' then (k', v) :: rest else (k', v') :: update k v rest
  end.

(** [o.k = v] on an object: an existing property keeps its place, a new
    one is added last. *)
Definition set_prop (o : jsval) (k : string) (v : jsval) : jsval :=
  match o with
  | JObj props => JObj (update k v props)
  | _ => o
  end.

(** [v.length] of a string or an array, [undefined] elsewhere. *)
Definition js_length (v : jsval) : jsval :=
  match v with
  | JStr s => JNum (Z.of_nat (length s))
  | JArr l => JNum (Z.of_nat (length l))
  | _ => get v "length"
  end.

(** ToString, as a template literal applies it.  An array is its
    elements joined by commas, with null and undefined elements empty. *)
Fixpoint to_string (v : jsval) : jsstring :=
  match v with
  | JUndefined => lit "undefined"
  | JNull => lit "null"
  | JBool true => lit "true"
  | JBool false => lit "false"
  | JNum z => of_Z z
  | JStr s => s
  | JArr l =>
      (fix join (l : list jsval) : jsstring :=
         match l with
         | [] => []
         | [x] => match x with
                  | JUndefined | JNull => []
                  | _ => to_string x
                  end
         | x :: rest =>
             match x with
             | JUndefined | JNull => []
             | _ => to_string x
             end ++ 44%N :: join rest
         end) l
  | JObj _ => lit "[object Object]"
  end.

Definition is_string (v : jsval) : bool :=
  match v with JStr _ => true | _ => false end.
Definition is_number (v : jsval) : bool :=
  match v with JNum _ => true | _ => false end.
Definition is_count (v : jsval) : bool :=
  match v with JNum z => Z.leb 0 z | _ => false end.
Definition is_boolean (v : jsval) : bool :=
  match v with JBool _ => true | _ => false end.
Definition is_object (v : jsval) : bool :=
  match v with JObj _ => true | _ => false end.
Definition is_array_of (p : jsval -> bool) (v : jsval) : bool :=
  match v with JArr l => forallb p l | _ => false end.
Definition is_nullish (v : jsval) : bool :=
  match v with JUndefined | JNull => true | _ => false end.

(* ================================================================== *)
(** * Regular expressions of [excerptMarkdown] *)
(* ================================================================== *)

(** The five patterns of [excerptMarkdown] are sequences of literal code
    units, lazy stars and one greedy plus over a character class, with at
    most one capture group (a lazy star).  [match_here] is the
    backtracking matcher of ECMAScript on that fragment and [replace_all]
    is [String.prototype.replace] with the [g] flag. *)
Module Regex.

Inductive atom : Type :=
| Chr (c : jschar)                               (* a literal code unit *)
| LazyStar (group : bool) (cls : jschar -> bool) (* cls*?  or  (cls*?)  *)
| GreedyPlus (cls : jschar -> bool).             (* cls+                *)

Definition regex := list atom.

(** A match: how many code units it spans, and the text of group 1. *)
Definition found := (nat * jsstring)%type.

Definition longer (c : jschar) (group : bool) (m : found) : found :=
  (S (fst m), if group then c :: snd m else snd m).

(** [cls*?] followed by the rest of the pattern [k]: shortest first, the
    rest is tried here, and one more code unit of the class is taken only
    when that fails. *)
Fixpoint lazy_star (k : jsstring -> option found) (group : bool)
         (cls : jschar -> bool) (s : jsstring) : option found :=
  match k s with
  | Some m => Some (fst m, if group then [] else snd m)
  | None =>
      match s with
      | x :: s' =>
          if cls x then option_map (longer x group) (lazy_star k group cls s')
          else None
      | [] => None
      end
  end.

(** [cls*] followed by the rest of the pattern [k]: longest first, code
    units of the class are taken while there are some, and given back one
    by one while the rest fails. *)
Fixpoint greedy_star (k : jsstring -> option found)
         (cls : jschar -> bool) (s : jsstring) : option found :=
  match s with
  | x :: s' =>
      if cls x then
        match greedy_star k cls s' with
        | Some m => Some (longer x false m)
        | None => k s
        end
      else k s
  | [] => k s
  end.

Fixpoint match_here (r : regex) (s : jsstring) {struct r} : option found :=
  match r with
  | [] => Some (0%nat, [])
  | Chr c :: r' =>
      match s with
      | x :: s' =>
          if N.eqb x c then option_map (longer x false) (match_here r' s')
          else None
      | [] => None
      end
  | LazyStar group cls :: r' => lazy_star (match_here r') group cls s
  | GreedyPlus cls :: r' =>
      match s with
      | x :: s' =>
          if cls x then
            option_map (longer x false) (greedy_star (match_here r') cls s')
          else None
      | [] => None
      end
  end.

(** The scan of a global replace: [skip] code units of the match found
    last are still to be dropped; otherwise the pattern is tried at the
    current position, and an unmatched code unit is copied. *)
Fixpoint replace_from (r : regex) (rep : jsstring -> jsstring)
         (s : jsstring) (skip : nat) {struct s} : jsstring :=
  match s with
  | [] =>
      match match_here r [] with
      | Some m => rep (snd m)
      | None => []
      end
  | c :: s' =>
      match skip with
      | S k => replace_from r rep s' k
      | O =>
          match match_here r s with
          | Some (S n, g) => rep g ++ replace_from r rep s' n
          | Some (O, g) => rep g ++ c :: replace_from r rep s' 0
          | None => c :: replace_from r rep s' 0
          end
      end
  end.

(** [s.replace(/r/g, rep)], where [rep] receives the text of group 1. *)
Definition replace_all (r : regex) (rep : jsstring -> jsstring)
           (s : jsstring) : jsstring :=
  replace_from r rep s 0.

(** Whether the pattern matches somewhere in [s]. *)
Fixpoint test (r : regex) (s : jsstring) : bool :=
  match match_here r s with
  | Some _ => true
  | None => match s with [] => false | _ :: s' => test r s' end
  end.

(** [.] matches anything but a line terminator, [[\s\S]] anything. *)
Definition dot (c : jschar) : bool := negb (is_line_terminator c).
Definition any (c : jschar) : bool := is_space c || negb (is_space c).

End Regex.
Import Regex.

Definition ch (c : ascii) : jschar := N_of_ascii c.

(** [/!\[.*?\]\(.*?\)/g] *)
Definition re_image : regex :=
  [Chr (ch "!"%char); Chr (ch "["%char); LazyStar false dot; Chr (ch "]"%char);
   Chr (ch "("%char); LazyStar false dot; Chr (ch ")"%char)].

(** [/```[\s\S]*?```/g] *)
Definition re_fence : regex :=
  [Chr (ch "`"%char); Chr (ch "`"%char); Chr (ch "`"%char); LazyStar false any;
   Chr (ch "`"%char); Chr (ch "`"%char); Chr (ch "`"%char)].

(** [/#.+/g] *)
Definition re_heading : regex := [Chr (ch "#"%char); GreedyPlus dot].

(** [/\[(.*?)\]\(.*?\)/g] *)
Definition re_link : regex :=
  [Chr (ch "["%char); LazyStar true dot; Chr (ch "]"%char);
   Chr (ch "("%char); LazyStar false dot; Chr (ch ")"%char)].

(** [/\r\n/g] *)
Definition re_crlf : regex := [Chr CR; Chr LF].

Definition removed (_ : jsstring) : jsstring := [].
Definition group1 (g : jsstring) : jsstring := g.
Definition newline (_ : jsstring) : jsstring := [LF].

(* ================================================================== *)
(** * Excerpt derivation *)
(* ================================================================== *)

Definition stripImages (t : jsstring) := replace_all re_image removed t.
Definition stripFences (t : jsstring) := replace_all re_fence removed t.
Definition stripHeadings (t : jsstring) := replace_all re_heading removed t.
Definition collapseLinks (t : jsstring) := replace_all re_link group1 t.
Definition normalizeNewlines (t : jsstring) := replace_all re_crlf newline t.

(** The text [t] of [excerptMarkdown] after its six cleaning statements. *)
Definition cleaned (md : jsstring) : jsstring :=
  let t := stripImages md in
  let t := stripFences t in
  let t := stripHeadings t in
  let t := collapseLinks t in
  let t := normalizeNewlines t in
  trim t.

Definition ellipsis : jsstring := lit "...".

(** [excerptMarkdown(md, maxLen)] on a string (its two callers pass the
    text of a README). *)
Definition excerptMarkdown (md : jsstring) (maxLen : Z) : jsstring :=
  match md with
  | [] => []
  | _ =>
      let t := cleaned md in
      if (Z.of_nat (length t) <=? maxLen)%Z then t
      else slice0 t (maxLen - 3) ++ ellipsis
  end.

Definition excerptMarkdown_default (md : jsstring) : jsstring :=
  excerptMarkdown md 1200.

Definition nl : string := String "010"%char EmptyString.
Definition cr : string := String "013"%char EmptyString.

(* ================================================================== *)
(** * Network layer *)
(* ================================================================== *)

(** What [fetch] resolves to: a status, the body as text ([res.text()])
    and the body as JSON ([res.json()], absent when the body is not
    JSON).  [NetworkFailure] is a [fetch] that rejects. *)
Inductive response : Type :=
| NetworkFailure
| Response (status : Z) (text : jsstring) (json : option jsval).

(** [res.ok] *)
Definition status_ok (status : Z) : bool :=
  (Z.leb 200 status && Z.leb status 299)%Z.

(** What a [throw] carries. *)
Inductive exn : Type :=
| Error (message : jsstring)   (* new Error(message) *)
| FetchFailed                  (* fetch rejected *)
| SyntaxError                  (* res.json() on a body that is not JSON *)
| TypeError                    (* property of null, not a function, not iterable *)
| URIError                     (* encodeURIComponent on a lone surrogate *)
| WriteFailed.                 (* fs.writeFileSync threw *)

(** How an [async] function ends; [OutOfFuel] stands for a loop that has
    not finished within the fuel given to it. *)
Inductive outcome (A : Type) : Type :=
| Return (a : A)
| Throw (e : exn)
| OutOfFuel.
Arguments Return {A} a.
Arguments Throw {A} e.
Arguments OutOfFuel {A}.

(** A computation over the log of the URLs requested so far. *)
Definition M (A : Type) : Type := list jsstring -> outcome A * list jsstring.

Definition ret {A} (a : A) : M A := fun log => (Return a, log).
Definition throw {A} (e : exn) : M A := fun log => (Throw e, log).
Definition out_of_fuel {A} : M A := fun log => (OutOfFuel, log).

Definition bind {A B} (m : M A) (k : A -> M B) : M B :=
  fun log =>
    match m log with
    | (Return a, log') => k a log'
    | (Throw e, log') => (Throw e, log')
    | (OutOfFuel, log') => (OutOfFuel, log')
    end.

(** [try { m } catch (e) { h }] *)
Definition try_catch {A} (m : M A) (h : exn -> M A) : M A :=
  fun log =>
    match m log with
    | (Throw e, log') => h e log'
    | r => r
    end.

Notation "x <- m ;; k" := (bind m (fun x => k))
  (at level 61, m at next level, right associativity).

Fixpoint mapM {A B} (f : A -> M B) (l : list A) : M (list B) :=
  match l with
  | [] => ret []
  | x :: l' => y <- f x ;; ys <- mapM f l' ;; ret (y :: ys)
  end.

(** [o.k] where [o] may be null or undefined. *)
Definition prop (o : jsval) (k : string) : M jsval :=
  if is_nullish o then throw TypeError else ret (get o k).

Definition is_high_surrogate (c : jschar) : bool :=
  (N.leb 55296 c && N.leb c 56319)%N.
Definition is_low_surrogate (c : jschar) : bool :=
  (N.leb 56320 c && N.leb c 57343)%N.

(** The elements that iterating a string yields: its code points. *)
Fixpoint code_points (s : jsstring) : list jsval :=
  match s with
  | [] => []
  | c :: s' =>
      match s' with
      | d :: s'' =>
          if is_high_surrogate c && is_low_surrogate d
          then JStr [c; d] :: code_points s''
          else JStr [c] :: code_points s'
      | [] => [JStr [c]]
      end
  end.

(** [...data]: arrays and strings are iterable, nothing else that JSON
    carries is. *)
Definition spread (data : jsval) : M (list jsval) :=
  match data with
  | JArr l => ret l
  | JStr s => ret (code_points s)
  | _ => throw TypeError
  end.

(** [a < n] for a number [n], on what [data.length] can be: a number,
    or [undefined], which makes the comparison false. *)
Definition js_lt (a : jsval) (n : Z) : bool :=
  match a with
  | JNum z => Z.ltb z n
  | JNull | JBool false => Z.ltb 0 n
  | JBool true => Z.ltb 1 n
  | _ => false
  end.

Section Upstream.

(** The hosting API: what each URL answers.  The headers of a request
    (User-Agent, Accept, Authorization) select no branch of the program
    and are left out of the log. *)
Variable upstream : jsstring -> response.

Definition fetch (url : jsstring) : M response :=
  fun log =>
    match upstream url with
    | NetworkFailure => (Throw FetchFailed, log ++ [url])
    | res => (Return res, log ++ [url])
    end.

Definition http_error (status : Z) (url : jsstring) : exn :=
  Error (lit "HTTP " ++ of_Z status ++ lit " " ++ url).

Definition fetchJson (url : jsstring) : M jsval :=
  res <- fetch url ;;
  match res with
  | Response status _ json =>
      if negb (status_ok status) then throw (http_error status url)
      else match json with
           | Some v => ret v
           | None => throw SyntaxError
           end
  | NetworkFailure => throw FetchFailed
  end.

Definition fetchRaw (url : jsstring) : M jsval :=
  res <- fetch url ;;
  match res with
  | Response status text _ =>
      if negb (status_ok status) then ret JNull else ret (JStr text)
  | NetworkFailure => throw FetchFailed
  end.

(* ---------------------------------------------------------------- *)
(** ** Collector *)

Definition perPage : Z := 100.

Definition repos_url (user : jsstring) (page : nat) : jsstring :=
  lit "https://api.github.com/users/" ++ user
  ++ lit "/repos?per_page=" ++ of_Z perPage
  ++ lit "&page=" ++ of_nat page ++ lit "&sort=updated".

(** The [while (true)] of [listRepos], one turn per unit of fuel. *)
Fixpoint listRepos_loop (fuel : nat) (user : jsstring) (page : nat)
         (all : list jsval) : M (list jsval) :=
  match fuel with
  | O => out_of_fuel
  | S fuel' =>
      data <- fetchJson (repos_url user page) ;;
      items <- spread data ;;
      let all := all ++ items in
      if js_lt (js_length data) perPage then ret all
      else listRepos_loop fuel' user (S page) all
  end.

Definition listRepos (fuel : nat) (user : jsstring) : M (list jsval) :=
  listRepos_loop fuel user 1 [].

(* ---------------------------------------------------------------- *)
(** ** Enricher *)

Definition readme_url (fullName : jsval) : jsstring :=
  lit "https://api.github.com/repos/" ++ to_string fullName ++ lit "/readme".

Definition contributors_url (fullName : jsval) : jsstring :=
  lit "https://api.github.com/repos/" ++ to_string fullName
  ++ lit "/contributors?per_page=10".

Definition getRepoReadme (fullName : jsval) : M jsval :=
  try_catch (fetchRaw (readme_url fullName)) (fun _ => ret JNull).

Definition contributor (c : jsval) : M jsval :=
  login <- prop c "login" ;;
  avatar <- prop c "avatar_url" ;;
  url <- prop c "html_url" ;;
  contributions <- prop c "contributions" ;;
  ret (JObj [("login", login); ("avatar", avatar); ("url", url);
             ("contributions", contributions)]).

(** [data.map(f)]: only an array has a [map] to call. *)
Definition array_map (f : jsval -> M jsval) (data : jsval) : M jsval :=
  match data with
  | JArr l => ys <- mapM f l ;; ret (JArr ys)
  | _ => throw TypeError
  end.

Definition getContributors (fullName : jsval) : M jsval :=
  try_catch
    (data <- fetchJson (contributors_url fullName) ;;
     array_map contributor data)
    (fun _ => ret (JArr [])).

End Upstream.

(* ================================================================== *)
(** * Normalizer *)
(* ================================================================== *)

(** [a && b] *)
Definition js_and (a b : jsval) : jsval := if truthy a then b else a.

Definition safeThumbnail (fullName : jsval) : jsstring :=
  lit "https://opengraph.githubassets.com/1/" ++ to_string fullName.

(** The object literal [repoObj] of the offline generator, for the
    upstream summary [r] and [full = r.full_name]. *)
Definition repoObj (r full : jsval) : jsval :=
  JObj
    [ ("name", get r "name");
      ("repo", get r "html_url");
      ("desc", js_or (get r "description") (JStr []));
      ("tags", if truthy (js_and (get r "topics") (js_length (get r "topics")))
               then get r "topics" else JArr []);
      ("stars", js_or (get r "stargazers_count") (JNum 0));
      ("forks", js_or (get r "forks_count") (JNum 0));
      ("featured", JBool false);
      ("updated_at", get r "updated_at");
      ("created_at", get r "created_at");
      ("language", js_or (get r "language") (JStr []));
      ("license", if truthy (get r "license")
                  then js_or (get (get r "license") "spdx_id")
                             (get (get r "license") "name")
                  else JStr []);
      ("thumbnail", JStr (safeThumbnail full));
      ("screenshots", JArr []);
      ("size", js_or (get r "size") (JNum 0));
      ("open_issues_count", js_or (get r "open_issues_count") (JNum 0));
      ("default_branch", js_or (get r "default_branch") (JStr (lit "main"))) ].

(** The object literal that [fetchGitHubRepos] maps a summary to. *)
Definition mappedObj (r : jsval) : jsval :=
  JObj
    [ ("name", get r "name");
      ("repo", get r "html_url");
      ("desc", js_or (get r "description") (JStr []));
      ("tags", if truthy (js_and (get r "topics") (js_length (get r "topics")))
               then get r "topics" else JArr []);
      ("stars", js_or (get r "stargazers_count") (JNum 0));
      ("forks", js_or (get r "forks_count") (JNum 0));
      ("featured", JBool false);
      ("updated_at", get r "updated_at");
      ("created_at", get r "created_at");
      ("language", js_or (get r "language") (JStr []));
      ("license", if truthy (get r "license")
                  then js_or (get (get r "license") "spdx_id")
                             (get (get r "license") "name")
                  else JStr []);
      ("thumbnail",
        JStr (lit "https://opengraph.githubassets.com/1/"
              ++ to_string (get r "full_name")));
      ("screenshots", JArr []);
      ("size", js_or (get r "size") (JNum 0));
      ("open_issues_count", js_or (get r "open_issues_count") (JNum 0));
      ("default_branch", js_or (get r "default_branch") (JStr (lit "main")));
      ("readme_excerpt", JStr []) ].

(** The arrow function of [data.map] in [fetchGitHubRepos]: reading
    [r.name] throws on a null element. *)
Definition mapRepo (r : jsval) : M jsval :=
  _ <- prop r "name" ;;
  ret (mappedObj r).

(** [excerptMarkdown(md, maxLen)] on any value: a falsy one gives the
    empty string, and only a string has a [replace] to call. *)
Definition excerptMarkdown_of (md : jsval) (maxLen : Z) : M jsval :=
  if negb (truthy md) then ret (JStr [])
  else match md with
       | JStr s => ret (JStr (excerptMarkdown s maxLen))
       | _ => throw TypeError
       end.

(* ================================================================== *)
(** * Ranker *)
(* ================================================================== *)

(** [Array.prototype.sort(cmp)]: ECMAScript (2019 on) requires the sort
    to be stable, which with a consistent comparator determines the
    result; it is computed here by insertion. *)
Section Sort.
Variable A : Type.
Variable cmp : A -> A -> Z.

Fixpoint insert (x : A) (l : list A) : list A :=
  match l with
  | [] => [x]
  | y :: l' => if (cmp x y <=? 0)%Z then x :: l else y :: insert x l'
  end.

Fixpoint sort_by (l : list A) : list A :=
  match l with
  | [] => []
  | x :: l' => insert x (sort_by l')
  end.
End Sort.
Arguments insert {A} cmp x l.
Arguments sort_by {A} cmp l.

(** ToNumber on what [p.stars || 0] is for a Project Record: a number
    (a boolean converts as JavaScript converts it).  On a string, an
    array or an object JavaScript's ToNumber parses the text of the value
    and may give a fraction or NaN, and with NaN differences the order
    that [sort] leaves is up to the engine: these values are outside the
    model, the 0 below is not JavaScript's answer for them, and every
    statement on the ranking is made for records whose stars are numbers
    ([has_stars] below). *)
Definition to_num (v : jsval) : Z :=
  match v with
  | JNum z => z
  | JBool true => 1
  | _ => 0
  end.

(** [p.stars || 0] as a number. *)
Definition stars_of (p : jsval) : Z :=
  to_num (js_or (get p "stars") (JNum 0)).

(** [(a, b) => (b.stars || 0) - (a.stars || 0)] *)
Definition by_stars_desc (a b : jsval) : Z := (stars_of b - stars_of a)%Z.

Definition feature (p : jsval) : jsval := set_prop p "featured" (JBool true).

(** [projects.slice(0, 3).forEach(p => p.featured = true)]: the slice
    shares its objects with [projects], and every record is an object of
    its own, so the first three records of [projects] are the ones
    changed. *)
Definition mark_featured (projects : list jsval) : list jsval :=
  map feature (firstn 3 projects) ++ skipn 3 projects.

(** The two statements after the comment [mark top 3 by stars as featured]. *)
Definition rank (projects : list jsval) : list jsval :=
  mark_featured (sort_by by_stars_desc projects).

(* ================================================================== *)
(** * The offline generator and the client fallback *)
(* ================================================================== *)

(** How the generator ends: [projects.json] written with this document,
    or [process.exit(1)] after printing the error. *)
Inductive exit : Type :=
| Written (doc : jsval)
| Exit1 (err : exn).

Definition is_unreserved (c : jschar) : bool :=
  ((N.leb 65 c && N.leb c 90) || (N.leb 97 c && N.leb c 122)
   || (N.leb 48 c && N.leb c 57)
   || N.eqb c 45 || N.eqb c 95 || N.eqb c 46 || N.eqb c 33 || N.eqb c 126
   || N.eqb c 42 || N.eqb c 39 || N.eqb c 40 || N.eqb c 41)%N.

Definition hex_digit (n : N) : jschar :=
  (if n <? 10 then 48 + n else 55 + n)%N.

Definition percent (byte : N) : jsstring :=
  [37%N; hex_digit (byte / 16); hex_digit (byte mod 16)].

Definition utf8 (cp : N) : list N :=
  (if cp <? 128 then [cp]
   else if cp <? 2048 then [192 + cp / 64; 128 + cp mod 64]
   else if cp <? 65536 then
     [224 + cp / 4096; 128 + (cp / 64) mod 64; 128 + cp mod 64]
   else [240 + cp / 262144; 128 + (cp / 4096) mod 64;
         128 + (cp / 64) mod 64; 128 + cp mod 64])%N.

(** [encodeURIComponent(s)]; [None] is the URIError of a lone surrogate. *)
Fixpoint encodeURIComponent (s : jsstring) : option jsstring :=
  match s with
  | [] => Some []
  | c :: s' =>
      if is_unreserved c then option_map (cons c) (encodeURIComponent s')
      else if is_low_surrogate c then None
      else if is_high_surrogate c then
        match s' with
        | d :: s'' =>
            if is_low_surrogate d then
              option_map
                (app (flat_map percent
                        (utf8 (65536 + (c - 55296) * 1024 + (d - 56320))%N)))
                (encodeURIComponent s'')
            else None
        | [] => None
        end
      else option_map (app (flat_map percent (utf8 c))) (encodeURIComponent s')
  end.

Section Pipelines.

Variable upstream : jsstring -> response.

(** The body of [for (const r of repos)]. *)
Definition processRepo (r : jsval) : M jsval :=
  full <- prop r "full_name" ;;
  let repoObj := repoObj r full in
  repoObj <-
    try_catch
      (readme <- getRepoReadme upstream full ;;
       if truthy readme then
         excerpt <- excerptMarkdown_of readme 1400 ;;
         ret (set_prop repoObj "readme_excerpt" excerpt)
       else ret (set_prop repoObj "readme_excerpt" (JStr [])))
      (fun _ => ret (set_prop repoObj "readme_excerpt" (JStr []))) ;;
  repoObj <-
    try_catch
      (contributors <- getContributors upstream full ;;
       ret (set_prop repoObj "contributors" contributors))
      (fun _ => ret (set_prop repoObj "contributors" (JArr []))) ;;
  ret repoObj.

(** The generator's main routine.  [now] is [new Date().toISOString()]
    and [disk_ok] tells whether [fs.writeFileSync] succeeds. *)
Definition main (fuel : nat) (username now : jsstring) (disk_ok : bool)
  : M exit :=
  try_catch
    (repos <- listRepos upstream fuel username ;;
     projects <- mapM processRepo repos ;;
     let projects := rank projects in
     let out := JObj [("generated_at", JStr now);
                      ("projects", JArr projects)] in
     if disk_ok then ret (Written out) else throw WriteFailed)
    (fun err => ret (Exit1 err)).

Definition client_url (encoded : jsstring) : jsstring :=
  lit "https://api.github.com/users/" ++ encoded
  ++ lit "/repos?per_page=100&sort=updated".

(** [fetchGitHubRepos(username)] of the client path. *)
Definition fetchGitHubRepos (username : jsstring) : M (list jsval) :=
  try_catch
    (match encodeURIComponent username with
     | None => throw URIError
     | Some encoded =>
         res <- fetch upstream (client_url encoded) ;;
         match res with
         | Response status _ json =>
             if (status =? 403)%Z then
               throw (Error (lit "GitHub API rate limit hit (client-side). Provide token or run generator locally."))
             else if (status =? 404)%Z then
               throw (Error (lit "GitHub user not found: " ++ username))
             else
               match json with
               | None => throw SyntaxError
               | Some (JArr data) =>
                   mapped <- mapM mapRepo data ;;
                   ret (rank mapped)
               | Some _ => throw (Error (lit "Unexpected GitHub response"))
               end
         | NetworkFailure => throw FetchFailed
         end
     end)
    (fun err => throw err).

End Pipelines.

(* ================================================================== *)
(** * Scans used to describe the replacements *)
(* ================================================================== *)

Section TakeWhile.
Variable cls : jschar -> bool.

Fixpoint take_while (s : jsstring) : jsstring :=
match s with
| c :: s' => if cls c then c :: take_while s' else []
| [] => []
end.

Fixpoint drop_while (s : jsstring) : jsstring :=
match s with
| c :: s' => if cls c then drop_while s' else s
| [] => []
end.
End TakeWhile.

Definition hash : jschar := ch "#"%char.

(** The heading replacement as a scan with one bit of state: [dropping]
    is true inside a removed segment. *)
Fixpoint strip_scan (s : jsstring) (dropping : bool) : jsstring :=
  match s with
  | [] => []
  | c :: s' =>
      if dropping then
        if dot c then strip_scan s' true else c :: strip_scan s' false
      else if N.eqb c hash then
        match s' with
        | y :: _ => if dot y then strip_scan s' true else c :: strip_scan s' false
        | [] => [c]
        end
      else c :: strip_scan s' false
  end.

(** What it is for the pattern [r] to match the first [n] code units of
    [s], whatever the order in which a matcher tries the stars. *)
Inductive matches : regex -> jsstring -> nat -> Prop :=
| matches_end s : matches [] s 0
| matches_chr c r s n :
    matches r s n -> matches (Chr c :: r) (c :: s) (S n)
| matches_lazy group cls r taken s n :
    forallb cls taken = true -> matches r s n ->
    matches (LazyStar group cls :: r) (taken ++ s) (length taken + n)
| matches_plus cls r x taken s n :
    cls x = true -> forallb cls taken = true -> matches r s n ->
    matches (GreedyPlus cls :: r) (x :: taken ++ s) (S (length taken + n)).

(** Replacing every CR LF pair by LF is deleting every CR that stands
    directly before an LF. *)
Definition starts_with_lf (s : jsstring) : bool :=
  match s with
  | c :: _ => N.eqb c LF
  | [] => false
  end.

Fixpoint crlf_scan (s : jsstring) : jsstring :=
  match s with
  | [] => []
  | c :: s' =>
      if N.eqb c CR && starts_with_lf s' then crlf_scan s'
      else c :: crlf_scan s'
  end.

(** A carriage return directly before a CR LF pair. *)
Definition re_cr_crlf : regex := [Chr CR; Chr CR; Chr LF].

(** A code unit that is neither CR nor LF, and a pattern that matches
    such code units only. *)
Definition plain (c : jschar) : bool := negb (N.eqb c CR) && negb (N.eqb c LF).

Definition atom_plain (a : atom) : Prop :=
  match a with
  | Chr c => plain c = true
  | LazyStar _ cls => forall x, cls x = true -> plain x = true
  | GreedyPlus cls => forall x, cls x = true -> plain x = true
  end.

(** A text that does not start with white space. *)
Definition starts_clean (s : jsstring) : bool :=
  match s with
  | c :: _ => negb (is_space c)
  | [] => true
  end.

(** A text that is empty or ends with a line terminator: what precedes
    the first code unit of a line. *)
Definition ends_line (s : jsstring) : bool :=
  match rev s with
  | [] => true
  | c :: _ => is_line_terminator c
  end.

(** A text that is empty or starts with a line terminator: what follows
    the last code unit of a line. *)
Definition starts_line_break (s : jsstring) : bool :=
  match s with
  | [] => true
  | c :: _ => is_line_terminator c
  end.

Definition not_hash (c : jschar) : bool := negb (N.eqb c hash).

(** A text with a doubled carriage return before a line feed. *)
Definition cr_cr_lf_text : jsstring := lit ("a" ++ cr ++ cr ++ nl ++ "b").

(* ================================================================== *)
(** * Vocabulary of the ranking statements *)
(* ================================================================== *)

(** A Project Record as the Normalizer hands it to the Ranker: an object
    whose [stars] is a number ([has_stars]) and whose [featured] is
    [false]. *)
Definition has_stars (p : jsval) : bool :=
  is_object p && is_number (get p "stars").

Definition unranked (p : jsval) : bool :=
  has_stars p
  && match get p "featured" with JBool false => true | _ => false end.

(** How many records of [l] have strictly more stars than [p]. *)
Definition stars_above (l : list jsval) (p : jsval) : nat :=
  length (filter (fun q => Z.ltb (stars_of p) (stars_of q)) l).

(** [p] is among the three records of [l] with the most stars. *)
Definition in_top3 (l : list jsval) (p : jsval) : bool :=
  Nat.ltb (stars_above l p) 3.

(** What ranking is to do to the record [p] of the collection [l]. *)
Definition mark (l : list jsval) (p : jsval) : jsval :=
  if in_top3 l p then feature p else p.

Definition same_stars (s : Z) (p : jsval) : bool := Z.eqb (stars_of p) s.

(** [a] may stand before [b] in a descending order / must stand before. *)
Definition stars_ge (a b : jsval) : Prop := (stars_of b <= stars_of a)%Z.
Definition stars_gt (a b : jsval) : Prop := (stars_of b < stars_of a)%Z.

(** A summary as the hosting API lists it, with the fields the examples
    need. *)
Definition summary (name : string) (stars : Z) : jsval :=
  JObj [ ("name", JStr (lit name));
         ("full_name", JStr (lit "octo/" ++ lit name));
         ("html_url", JStr (lit "https://github.com/octo/" ++ lit name));
         ("stargazers_count", JNum stars);
         ("updated_at", JStr (lit "2024-05-01T10:00:00Z"));
         ("created_at", JStr (lit "2023-01-01T10:00:00Z")) ].

Definition project (name : string) (stars : Z) : jsval :=
  repoObj (summary name stars) (get (summary name stars) "full_name").

Definition four_projects : list jsval :=
  [project "a" 5; project "b" 9; project "c" 1; project "d" 7].

Definition tied_projects : list jsval :=
  [project "a" 5; project "b" 9; project "c" 5; project "d" 9; project "e" 5].

(* ================================================================== *)
(** * Vocabulary of the network statements *)
(* ================================================================== *)

(** The upstream answers the listing of [user] from page [start] on with
    the arrays [pages], one per page, each with a success status. *)
Fixpoint serves (upstream : jsstring -> response) (user : jsstring)
         (start : nat) (pages : list (list jsval)) : Prop :=
  match pages with
  | [] => True
  | p :: rest =>
      (exists status text,
          status_ok status = true
          /\ upstream (repos_url user start)
             = Response status text (Some (JArr p)))
      /\ serves upstream user (S start) rest
  end.

(** The URLs that a computation requests, in order, when run from an
    empty log. *)
Definition requests {A} (m : M A) : list jsstring := snd (m []).

(** A page with a full count of items. *)
Definition full_page (p : list jsval) : bool :=
  Nat.leb 100 (length p).

(** What a request that did not succeed makes [fetchJson] throw. *)
Definition upstream_error (res : response) (url : jsstring) : option exn :=
  match res with
  | NetworkFailure => Some FetchFailed
  | Response status _ _ =>
      if status_ok status then None else Some (http_error status url)
  end.

Definition numbered (first count : nat) : list jsval :=
  map (fun i => JNum (Z.of_nat i)) (seq first count).

Definition octo : jsstring := lit "octo".

(** An upstream with three pages of 100, 100 and 37 items. *)
Definition three_pages (url : jsstring) : response :=
  if eqb url (repos_url octo 1) then Response 200 [] (Some (JArr (numbered 1 100)))
  else if eqb url (repos_url octo 2) then Response 200 [] (Some (JArr (numbered 101 100)))
  else if eqb url (repos_url octo 3) then Response 200 [] (Some (JArr (numbered 201 37)))
  else Response 404 [] None.

(** An upstream whose second page fails. *)
Definition second_page_fails (url : jsstring) : response :=
  if eqb url (repos_url octo 1) then Response 200 [] (Some (JArr (numbered 1 100)))
  else Response 500 (lit "Server Error") None.

(* ================================================================== *)
(** * Vocabulary of the enrichment statements *)
(* ================================================================== *)

Definition not_nullish (v : jsval) : bool := negb (is_nullish v).

(** The object that the arrow function of [getContributors] builds. *)
Definition contributor_obj (c : jsval) : jsval :=
  JObj [ ("login", get c "login"); ("avatar", get c "avatar_url");
         ("url", get c "html_url"); ("contributions", get c "contributions") ].

(** What the answer to the README request leaves in [readme_excerpt]. *)
Definition readme_excerpt_of (res : response) : jsval :=
  match res with
  | Response status text _ =>
      if status_ok status then JStr (excerptMarkdown text 1400) else JStr []
  | NetworkFailure => JStr []
  end.

(** What the answer to the contributors request leaves in
    [contributors]. *)
Definition contributors_of (res : response) : jsval :=
  match res with
  | Response status _ (Some (JArr l)) =>
      if status_ok status && forallb not_nullish l
      then JArr (map contributor_obj l) else JArr []
  | _ => JArr []
  end.

(** The record of the repository [r] once both enrichments are in. *)
Definition enriched (upstream : jsstring -> response) (r : jsval) : jsval :=
  let full := get r "full_name" in
  set_prop
    (set_prop (repoObj r full) "readme_excerpt"
       (readme_excerpt_of (upstream (readme_url full))))
    "contributors" (contributors_of (upstream (contributors_url full))).

(** The two enrichment requests of a repository. *)
Definition enrichment_urls (r : jsval) : list jsstring :=
  [readme_url (get r "full_name"); contributors_url (get r "full_name")].


(** An upstream with two repositories: the README of [octo/a] is
    missing, and the contributors request of [octo/a] gets no answer. *)
Definition flaky_enrichment (url : jsstring) : response :=
  if eqb url (repos_url octo 1) then
    Response 200 [] (Some (JArr [summary "a" 5; summary "b" 9]))
  else if eqb url (readme_url (JStr (lit "octo/a"))) then
    Response 404 (lit "Not Found") None
  else if eqb url (readme_url (JStr (lit "octo/b"))) then
    Response 200 (lit ("# B" ++ nl ++ "hello [docs](http://d)")) None
  else if eqb url (contributors_url (JStr (lit "octo/b"))) then
    Response 200 []
      (Some (JArr [JObj [("login", JStr (lit "ann"));
                         ("avatar_url", JStr (lit "https://a/ann.png"));
                         ("html_url", JStr (lit "https://github.com/ann"));
                         ("contributions", JNum 12)]]))
  else NetworkFailure.

(* ================================================================== *)
(** * Vocabulary of the client statements *)
(* ================================================================== *)


(** The code units other than [c]. *)
Definition other_than (c : ascii) (x : jschar) : bool := negb (N.eqb x (ch c)).

(** What follows the first code unit of a text. *)
Definition rest_of (s : jsstring) : jsstring :=
  match s with
  | [] => []
  | _ :: s' => s'
  end.

(** The query of an address as URL parsing finds it: the fragment opens
    at the first [#], and the query is what stands before it from the
    first [?] on, the [?] left out. *)
Definition url_query (url : jsstring) : jsstring :=
  rest_of (drop_while (other_than "?") (take_while (other_than "#") url)).


(** An account with 150 repositories, and a hosting API that serves it
    in pages of at most 100: the page asked for, or the first one when
    the request names no page. *)
Definition big_account : list jsval :=
  map (fun i => summary "r" (Z.of_nat i)) (seq 1 150).

Definition paged_api (url : jsstring) : response :=
  if eqb url (client_url octo) then
    Response 200 [] (Some (JArr (firstn 100 big_account)))
  else if eqb url (repos_url octo 1) then
    Response 200 [] (Some (JArr (firstn 100 big_account)))
  else if eqb url (repos_url octo 2) then
    Response 200 [] (Some (JArr (firstn 100 (skipn 100 big_account))))
  else Response 404 [] None.

(* ================================================================== *)
(** * Vocabulary of the Normalizer statements *)
(* ================================================================== *)

(** A field that upstream may omit (absent or [null]) and otherwise
    types as [ty]. *)
Definition opt (ty : jsval -> bool) (v : jsval) : bool :=
  is_nullish v || ty v.

Definition wf_license (v : jsval) : bool :=
  is_object v && opt is_string (get v "spdx_id") && is_string (get v "name").

(** A repository summary as the hosting API documents it: the name, the
    URL and the two timestamps are strings; the description, the topics,
    the counts, the language, the license and the default branch may be
    omitted. *)
Definition wf_summary (r : jsval) : bool :=
  is_object r
  && is_string (get r "name")
  && is_string (get r "html_url")
  && is_string (get r "updated_at")
  && is_string (get r "created_at")
  && opt is_string (get r "description")
  && opt (is_array_of is_string) (get r "topics")
  && opt is_count (get r "stargazers_count")
  && opt is_count (get r "forks_count")
  && opt is_count (get r "size")
  && opt is_count (get r "open_issues_count")
  && opt is_string (get r "language")
  && opt wf_license (get r "license")
  && opt is_string (get r "default_branch").

(** The record has the field [k], and its value types as [ty]. *)
Definition field (p : jsval) (k : string) (ty : jsval -> bool) : bool :=
  has_own p k && ty (get p k).

Definition is_empty_array (v : jsval) : bool :=
  match v with JArr [] => true | _ => false end.

Definition wf_contributor (c : jsval) : bool :=
  is_object c && has_own c "login" && has_own c "avatar"
  && has_own c "url" && has_own c "contributions".

(** The sixteen fields of the object literal. *)
Definition literal_fields (p : jsval) : bool :=
  field p "name" is_string
  && field p "repo" is_string
  && field p "desc" is_string
  && field p "tags" (is_array_of is_string)
  && field p "stars" is_count
  && field p "forks" is_count
  && field p "featured" is_boolean
  && field p "updated_at" is_string
  && field p "created_at" is_string
  && field p "language" is_string
  && field p "license" is_string
  && field p "thumbnail" is_string
  && field p "screenshots" is_empty_array
  && field p "size" is_count
  && field p "open_issues_count" is_count
  && field p "default_branch" is_string.

(** Every field of the data model, present and of its type. *)
Definition complete_record (p : jsval) : bool :=
  literal_fields p
  && field p "readme_excerpt" is_string
  && field p "contributors" (is_array_of wf_contributor).

(** Every field of the data model but [contributors]. *)
Definition complete_but_contributors (p : jsval) : bool :=
  literal_fields p && field p "readme_excerpt" is_string.

(* ================================================================== *)
(** * Vocabulary of the further statements on the excerpt *)
(* ================================================================== *)

(** The text has no occurrence of the code unit [c]. *)
Definition lacks (c : jschar) (s : jsstring) : bool :=
  forallb (fun x => negb (N.eqb x c)) s.

(* ================================================================== *)
(** * Command line of the generator *)
(* ================================================================== *)

(** [args.indexOf(key)]: the first position of [key], or -1. *)
Fixpoint indexOf (args : list jsstring) (key : jsstring) : Z :=
  match args with
  | [] => (-1)%Z
  | a :: rest =>
      if eqb a key then 0%Z
      else let i := indexOf rest key in
           if (i =? -1)%Z then (-1)%Z else (i + 1)%Z
  end.

(** [args[i]]: [undefined] outside the array. *)
Definition at_index (args : list jsstring) (i : Z) : jsval :=
  if (i <? 0)%Z then JUndefined
  else match nth_error args (Z.to_nat i) with
       | Some v => JStr v
       | None => JUndefined
       end.

(** [argVal(key)] over [args = process.argv.slice(2)]. *)
Definition argVal (args : list jsstring) (key : jsstring) : jsval :=
  let idx := indexOf args key in
  if (idx =? -1)%Z then JNull
  else js_or (at_index args (idx + 1)) JNull.

(** [argVal('--username') || argVal('-u') || 'maryamali27'] *)
Definition username (args : list jsstring) : jsval :=
  js_or (js_or (argVal args (lit "--username")) (argVal args (lit "-u")))
        (JStr (lit "maryamali27")).

(** [argVal('--token') || argVal('-t') || null] *)
Definition token (args : list jsstring) : jsval :=
  js_or (js_or (argVal args (lit "--token")) (argVal args (lit "-t"))) JNull.

(** The [headers] object, with [Authorization] added when there is a
    token. *)
Definition headers (args : list jsstring) : jsval :=
  let headers :=
    JObj [ ("User-Agent", JStr (lit "portfolio-generator"));
           ("Accept", JStr (lit "application/vnd.github.v3+json")) ] in
  if truthy (token args)
  then set_prop headers "Authorization"
         (JStr (lit "token " ++ to_string (token args)))
  else headers.

(* ================================================================== *)
(** * Presentation: the orders of [applyFilters] *)
(* ================================================================== *)

(** [p.featured ? 1 : 0] *)
Definition featured_num (p : jsval) : Z :=
  if truthy (get p "featured") then 1%Z else 0%Z.

(** [(a, b) => (b.featured ? 1 : 0) - (a.featured ? 1 : 0)], the order
    of the default display; the order by stars of the display is
    [by_stars_desc], the comparator of the Ranker. *)
Definition by_featured_first (a b : jsval) : Z :=
  (featured_num b - featured_num a)%Z.

(** How many records stand before [p] in the ranking of a collection cut
    as [before ++ p :: after]: those with more stars, and those with as
    many stars that come earlier. *)
Definition rank_position (before : list jsval) (p : jsval)
           (after : list jsval) : nat :=
  stars_above (before ++ p :: after) p
  + length (filter (same_stars (stars_of p)) before).

(* ================================================================== *)
(** * Client: loading the projects *)
(* ================================================================== *)

Definition PROJECTS_JSON : jsstring := lit "projects.json".
Definition FALLBACK_USERNAME : jsstring := lit "maryamali27".

(** [Array.isArray(v)] *)
Definition is_array (v : jsval) : bool :=
  match v with JArr _ => true | _ => false end.

(** The notice that [init] ends on. *)
Inductive notice : Type :=
| LoadedLocally      (* 'Loaded projects.json locally.' *)
| LoadedFromGitHub   (* 'Loaded public GitHub repos for maryamali27.' *)
| NothingFound.      (* 'No projects found. To populate the site: ...' *)

Section Client.

Variable upstream : jsstring -> response.

(** [tryLoadLocalJson()] *)
Definition tryLoadLocalJson : M jsval :=
  try_catch
    (res <- fetch upstream PROJECTS_JSON ;;
     match res with
     | Response status _ json =>
         if negb (status_ok status) then ret JNull
         else match json with
              | None => throw SyntaxError
              | Some json =>
                  if is_array json then ret json
                  else projects <- prop json "projects" ;;
                       if is_array projects then ret projects else ret JNull
              end
     | NetworkFailure => throw FetchFailed
     end)
    (fun _ => ret JNull).

(** The elements of an array. *)
Definition elements (v : jsval) : list jsval :=
  match v with JArr l => l | _ => [] end.

(** The calls of [init] that draw the records read the page and write
    to it, and the page is outside the model.  What [init] depends on is
    how they end where it makes them: [draw cache] is [None] when
    [updateStats], [renderFilters(collectTags(..))], [renderProjects],
    [updateTimeline] and [renderLanguageChart] all return on the cache,
    and otherwise the error of the first of them that throws (on a
    [null] record, on tags that are no array, on an element missing from
    the page); [draw_empty] is the same for the [renderProjects] and the
    [renderLanguageChart] of the empty state.  A run of [init] draws
    records at most once and the empty state at most once, so that the
    two parameters describe any page.  These calls make no request.  The
    statements that touch the page without reading a record (the wiring
    of the handlers, [showNotice], [setupReveal], [setupTilt]) are taken
    to return. *)
Variable draw : list jsval -> option exn.
Variable draw_empty : option exn.

Definition drawing (r : option exn) : M unit :=
  match r with
  | None => ret tt
  | Some e => throw e
  end.

(** How [init] fills [projectsCache] and draws it: the local document
    when it holds projects, else the repositories fetched from the
    hosting API, else nothing.  The result is the last notice shown and
    the cache; the local records are drawn outside any [try], the
    fetched ones inside the [try] of the fetch, and the empty state in
    its [catch]. *)
Definition init_projects : M (notice * jsval) :=
  local <- tryLoadLocalJson ;;
  if truthy (js_and local (js_length local)) then
    _ <- drawing (draw (elements local)) ;;
    ret (LoadedLocally, local)
  else
    try_catch
      (gh <- fetchGitHubRepos upstream FALLBACK_USERNAME ;;
       match gh with
       | [] =>
           throw (Error (lit "No public repos returned for user: "
                         ++ FALLBACK_USERNAME))
       | _ =>
           _ <- drawing (draw gh) ;;
           ret (LoadedFromGitHub, JArr gh)
       end)
      (fun _ =>
         _ <- drawing draw_empty ;;
         ret (NothingFound, JArr [])).

End Client.

(** How [fetchGitHubRepos(username)] ends on the answer [res] to its one
    request. *)
Definition client_outcome (username : jsstring) (res : response)
  : outcome (list jsval) :=
  match res with
  | NetworkFailure => Throw FetchFailed
  | Response status _ json =>
      if (status =? 403)%Z then
        Throw (Error (lit "GitHub API rate limit hit (client-side). Provide token or run generator locally."))
      else if (status =? 404)%Z then
        Throw (Error (lit "GitHub user not found: " ++ username))
      else
        match json with
        | None => Throw SyntaxError
        | Some (JArr data) =>
            if forallb not_nullish data
            then Return (rank (map mappedObj data)) else Throw TypeError
        | Some _ => Throw (Error (lit "Unexpected GitHub response"))
        end
  end.

(** A hosting API that lists one repository, [octo/a]. *)
Definition single_repository (url : jsstring) : response :=
  Response 200 [] (Some (JArr [summary "a" 5])).

(** A hosting API that answers the listing with a server error whose
    body is nevertheless an array. *)
Definition error_with_array (url : jsstring) : response :=
  Response 500 [] (Some (JArr [summary "a" 5])).

(** A site with no local document, before an account that does not
    exist. *)
Definition nothing_anywhere (url : jsstring) : response :=
  Response 404 (lit "Not Found") None.

(** A code unit proper, below 2^16, and a code unit that stands for
    itself in a URL or opens an escape. *)
Definition valid_unit (c : jschar) : bool := N.ltb c 65536.
Definition url_safe (c : jschar) : bool := is_unreserved c || N.eqb c 37.

(* ================================================================== *)
(** * Presentation: tags and statistics *)
(* ================================================================== *)

(** SameValueZero, the equality of a [Set]: by value on primitive
    values; two arrays or objects are never the same member, each being
    an object of its own in the records read from JSON. *)
Definition same_value_zero (a b : jsval) : bool :=
  match a, b with
  | JUndefined, JUndefined => true
  | JNull, JNull => true
  | JBool x, JBool y => Bool.eqb x y
  | JNum x, JNum y => Z.eqb x y
  | JStr x, JStr y => eqb x y
  | _, _ => false
  end.

(** [s.add(x)] on a set kept in insertion order. *)
Definition set_add (s : list jsval) (x : jsval) : list jsval :=
  if existsb (same_value_zero x) s then s else s ++ [x].

(** [(p.tags || []).forEach(t => s.add(t))]: only an array has a
    [forEach] to call. *)
Definition add_tags (s : list jsval) (p : jsval) : M (list jsval) :=
  tags <- prop p "tags" ;;
  match js_or tags (JArr []) with
  | JArr l => ret (fold_left set_add l s)
  | _ => throw TypeError
  end.

(** [if (p.language) s.add(p.language)] *)
Definition add_language (s : list jsval) (p : jsval) : list jsval :=
  if truthy (get p "language") then set_add s (get p "language") else s.

(** [list.forEach] with a body that may throw, over a running state. *)
Fixpoint forEachM {A S} (f : S -> A -> M S) (l : list A) (s : S) : M S :=
  match l with
  | [] => ret s
  | x :: l' => s' <- f s x ;; forEachM f l' s'
  end.

(** The order of strings, code unit by code unit. *)
Fixpoint lex_compare (a b : jsstring) : comparison :=
  match a, b with
  | [], [] => Eq
  | [], _ :: _ => Lt
  | _ :: _, [] => Gt
  | x :: a', y :: b' =>
      match N.compare x y with
      | Eq => lex_compare a' b'
      | c => c
      end
  end.

Definition is_undefined (v : jsval) : bool :=
  match v with JUndefined => true | _ => false end.

(** The comparison of [sort()] without a comparator: [undefined] last,
    the rest by their strings. *)
Definition default_compare (x y : jsval) : Z :=
  if is_undefined x then (if is_undefined y then 0 else 1)%Z
  else if is_undefined y then (-1)%Z
  else match lex_compare (to_string x) (to_string y) with
       | Lt => (-1)%Z
       | Eq => 0%Z
       | Gt => 1%Z
       end.

(** [collectTags(list)], the list being [projects]. *)
Definition collectTags (projects : list jsval) : M (list jsval) :=
  s <- forEachM add_tags projects [] ;;
  let s := fold_left add_language projects s in
  ret (sort_by default_compare s).

(** The four figures of [updateStats(list)], the list being [projects]. *)
Definition forks_of (p : jsval) : Z :=
  to_num (js_or (get p "forks") (JNum 0)).

Definition totalRepos (projects : list jsval) : Z :=
  Z.of_nat (length projects).

(** The integers on which the addition of doubles is the addition of
    integers: a double holds every integer up to 2^53 in absolute
    value. *)
Definition exact (z : Z) : bool := (Z.abs z <=? 9007199254740992)%Z.

(** [s + v] in a reducer of [updateStats], [s] being the running total.
    Two numbers give their sum, which the addition of doubles returns as
    it is when the operands and the sum are [exact].  [None] stands for a
    result that the model does not hold: a sum that the addition rounds,
    or what [+] makes of a boolean, a string, an array or an object (a
    string operand concatenates). *)
Definition plus (s : option Z) (v : jsval) : option Z :=
  match s, v with
  | Some a, JNum b =>
      if exact a && exact b && exact (a + b) then Some (a + b)%Z else None
  | _, _ => None
  end.

(** [list.reduce((s, p) => s + (p.stars || 0), 0)], and the same for
    the forks; [None] also on a [null] record, on which the reducer
    throws. *)
Definition total (k : string) (projects : list jsval) : option Z :=
  fold_left
    (fun s p =>
       if is_nullish p then None else plus s (js_or (get p k) (JNum 0)))
    projects (Some 0%Z).

Definition totalStars (projects : list jsval) : option Z :=
  total "stars" projects.
Definition totalForks (projects : list jsval) : option Z :=
  total "forks" projects.
(** [Array.from(new Set(list.map(p => p.language).filter(Boolean))).length] *)
Definition languages (projects : list jsval) : Z :=
  Z.of_nat (length (fold_left add_language projects [])).

(** A record as the presentation reads it: an object whose tags are
    omitted or an array of strings, whose language is omitted or a
    string, whose stars are a number and whose forks are omitted or a
    number. *)
Definition presentable (p : jsval) : bool :=
  has_stars p
  && opt (is_array_of is_string) (get p "tags")
  && opt is_string (get p "language")
  && opt is_number (get p "forks").

(** The label [t] is a tag of [p] or its language. *)
Definition labelled (p t : jsval) : Prop :=
  (exists l, get p "tags" = JArr l /\ In t l)
  \/ (get p "language" = t /\ truthy t = true).

(** A set of strings: no member twice. *)
Definition string_set (s : list jsval) : Prop :=
  NoDup s /\ Forall (fun v => is_string v = true) s.

(** [a] sorts strictly before [b]. *)
Definition label_lt (a b : jsval) : Prop :=
  lex_compare (to_string a) (to_string b) = Lt.

Definition tagged_projects : list jsval :=
  [ JObj [("name", JStr (lit "a")); ("stars", JNum 5); ("featured", JBool false);
          ("tags", JArr [JStr (lit "web"); JStr (lit "cli")]);
          ("language", JStr (lit "Rust")); ("forks", JNum 1)];
    JObj [("name", JStr (lit "b")); ("stars", JNum 9); ("featured", JBool false);
          ("tags", JArr [JStr (lit "cli")]);
          ("language", JStr (lit "Go")); ("forks", JNum 2)];
    JObj [("name", JStr (lit "c")); ("stars", JNum 1); ("featured", JBool false);
          ("tags", JArr []); ("language", JStr []); ("forks", JNum 0)];
    JObj [("name", JStr (lit "d")); ("stars", JNum 7); ("featured", JBool false);
          ("language", JStr (lit "Rust"))] ].

(** The sum of a list of numbers. *)
Definition sumZ (l : list Z) : Z := fold_right Z.add 0%Z l.

(* ================================================================== *)
(** * Presentation: the tag filter of [applyFilters] *)
(* ================================================================== *)

Definition ALL : jsstring := lit "__all__".

Fixpoint str_starts_with (p s : jsstring) : bool :=
  match p, s with
  | [], _ => true
  | x :: p', y :: s' => N.eqb x y && str_starts_with p' s'
  | _ :: _, [] => false
  end.

(** [s.includes(p)] on strings. *)
Fixpoint str_includes (s p : jsstring) : bool :=
  str_starts_with p s ||
  match s with
  | [] => false
  | _ :: s' => str_includes s' p
  end.

(** [a === b] *)
Definition strict_eq (a b : jsval) : bool := same_value_zero a b.

(** [(p.tags || []).includes(active) || p.language === active]: arrays
    and strings have an [includes] to call, nothing else has. *)
Definition has_label (active : jsstring) (p : jsval) : M bool :=
  tags <- prop p "tags" ;;
  included <-
    match js_or tags (JArr []) with
    | JArr l => ret (existsb (same_value_zero (JStr active)) l)
    | JStr s => ret (str_includes s active)
    | _ => throw TypeError
    end ;;
  if included then ret true
  else ret (strict_eq (get p "language") (JStr active)).

(** [list.filter(f)] with a callback that may throw. *)
Fixpoint filterM (f : jsval -> M bool) (l : list jsval) : M (list jsval) :=
  match l with
  | [] => ret []
  | x :: l' =>
      keep <- f x ;;
      rest <- filterM f l' ;;
      ret (if keep then x :: rest else rest)
  end.

(** The tag step of [applyFilters]: [tag] is the [data-tag] of the
    active filter button, [None] when there is none. *)
Definition select_by_tag (tag : option jsstring) (cache : list jsval)
  : M (list jsval) :=
  let active :=
    match tag with
    | Some (c :: t) => c :: t
    | _ => ALL
    end in
  if negb (eqb active ALL) then filterM (has_label active) cache
  else ret cache.

(** Whether [p] carries the label [active], as a tag or as its
    language. *)
Definition labelled_b (active : jsstring) (p : jsval) : bool :=
  match get p "tags" with
  | JArr l => existsb (same_value_zero (JStr active)) l
  | _ => false
  end
  || strict_eq (get p "language") (JStr active).

(* ================================================================== *)
(** * Summaries on which the model is exact *)
(* ================================================================== *)





(** The stars and the forks of the record are counts: not negative. *)
Definition counted (p : jsval) : bool :=
  (0 <=? stars_of p)%Z && (0 <=? forks_of p)%Z.

(** The end of [init] on the empty state. *)
Definition empty_state (draw_empty : option exn)
  : outcome (notice * jsval) * list jsstring :=
  (match draw_empty with
   | None => Return (NothingFound, JArr [])
   | Some e => Throw e
   end,
   [PROJECTS_JSON; client_url FALLBACK_USERNAME]).

(* ================================================================== *)
(** * Pages and sites of the examples *)
(* ================================================================== *)

(** A page that has every element the script looks up: drawing it fails
    only where [collectTags] throws, on a [null] record or on tags that
    are no array. *)
Definition tags_drawing (cache : list jsval) : option exn :=
  match fst (collectTags cache []) with
  | Throw e => Some e
  | _ => None
  end.

(** A site whose local document is the array [[null]]. *)
Definition local_null_record (url : jsstring) : response :=
  if eqb url PROJECTS_JSON then Response 200 [] (Some (JArr [JNull]))
  else Response 404 (lit "Not Found") None.

(** A site with no local document, before a hosting API that lists one
    repository whose topics are a string. *)
Definition string_topics (url : jsstring) : response :=
  if eqb url PROJECTS_JSON then Response 404 (lit "Not Found") None
  else
    Response 200 []
      (Some (JArr [set_prop (summary "a" 5) "topics" (JStr (lit "web"))])).

(* ================================================================== *)
(** * Facts about strings and replacements *)

Example excerpt_image :
  excerptMarkdown (lit "see ![alt](u.png) here") 1400 = lit "see  here".
Proof. vm_compute. reflexivity. Qed.

Example excerpt_link :
  excerptMarkdown (lit "a [text](http://x) b") 1400 = lit "a text b".
Proof. vm_compute. reflexivity. Qed.

Example excerpt_fence :
  excerptMarkdown (lit ("x ```js" ++ nl ++ "code" ++ nl ++ "``` y")) 1400
  = lit "x  y".
Proof. vm_compute. reflexivity. Qed.

Example excerpt_heading :
  excerptMarkdown (lit ("# Title" ++ nl ++ "body #tag more" ++ nl ++ "end")) 1400
  = lit ("body " ++ nl ++ "end").
Proof. vm_compute. reflexivity. Qed.

Example excerpt_truncates :
  excerptMarkdown (lit "abcdefghij") 8 = lit "abcde...".
Proof. vm_compute. reflexivity. Qed.
(* ================================================================== *)

Lemma take_drop_while cls s : take_while cls s ++ drop_while cls s = s.
Proof.
  induction s as [|c s IH]; simpl; [reflexivity|].
  destruct (cls c); simpl; [now rewrite IH | reflexivity].
Qed.

Lemma replace_from_skip r rep a b :
  replace_from r rep (a ++ b) (length a) = replace_from r rep b 0.
Proof.
  induction a as [|x a IH]; simpl; [reflexivity | exact IH].
Qed.

(** A pattern that matches nowhere leaves the string as it is. *)
Lemma replace_all_no_match r rep s :
  test r s = false -> replace_all r rep s = s.
Proof.
  unfold replace_all.
  induction s as [|c s IH]; simpl.
  - destruct (match_here r []); [discriminate | reflexivity].
  - destruct (match_here r (c :: s)); [discriminate|].
    intros H. now rewrite IH.
Qed.

Lemma trimStart_fixed_head c s :
  trimStart (c :: s) = c :: s -> is_space c = false.
Proof.
  simpl. destruct (is_space c) eqn:E; [|reflexivity].
  intros H. exfalso.
  assert (L : (length (trimStart s) <= length s)%nat).
  { clear. induction s as [|x s IH]; simpl; [lia|].
    destruct (is_space x); simpl; lia. }
  rewrite H in L. simpl in L. lia.
Qed.

Lemma excerpt_of_clean s maxLen :
  cleaned s = s -> (Z.of_nat (length s) <= maxLen)%Z ->
  excerptMarkdown s maxLen = s.
Proof.
  intros Hc Hl. unfold excerptMarkdown. destruct s as [|c s]; [reflexivity|].
  rewrite Hc. apply Z.leb_le in Hl. now rewrite Hl.
Qed.

(** ** The matcher finds a match exactly when there is one *)

Lemma lazy_star_sound k group cls s m :
  lazy_star k group cls s = Some m ->
  exists taken rest m',
    s = taken ++ rest /\ forallb cls taken = true
    /\ k rest = Some m' /\ fst m = (length taken + fst m')%nat.
Proof.
  revert m. induction s as [|x s IH]; intros m H; cbn [lazy_star] in H.
  - destruct (k []) as [m'|] eqn:K; [|discriminate].
    inversion H; subst. exists [], [], m'. now repeat split.
  - destruct (k (x :: s)) as [m'|] eqn:K.
    + inversion H; subst. exists [], (x :: s), m'. now repeat split.
    + destruct (cls x) eqn:C; [|discriminate].
      destruct (lazy_star k group cls s) as [m1|] eqn:L; [|discriminate].
      inversion H; subst.
      destruct (IH _ eq_refl) as (taken & rest & m' & -> & Ht & Hk & Hn).
      exists (x :: taken), rest, m'. cbn [forallb length fst longer app].
      rewrite C, Ht, Hn. now repeat split.
Qed.

Lemma lazy_star_complete k group cls taken rest m' :
  forallb cls taken = true -> k rest = Some m' ->
  exists m, lazy_star k group cls (taken ++ rest) = Some m.
Proof.
  intros Ht Hk. induction taken as [|x taken IH].
  - cbn [app]. destruct rest; cbn [lazy_star]; rewrite Hk; eauto.
  - cbn [forallb] in Ht. apply andb_prop in Ht as [Hx Ht].
    destruct (IH Ht) as [m Hm]. cbn [app lazy_star].
    destruct (k (x :: taken ++ rest)); [eauto|].
    rewrite Hx, Hm. cbn. eauto.
Qed.

Lemma greedy_star_sound k cls s m :
  greedy_star k cls s = Some m ->
  exists taken rest m',
    s = taken ++ rest /\ forallb cls taken = true
    /\ k rest = Some m' /\ fst m = (length taken + fst m')%nat.
Proof.
  revert m. induction s as [|x s IH]; intros m H; cbn [greedy_star] in H.
  - exists [], [], m. now repeat split.
  - destruct (cls x) eqn:C.
    + destruct (greedy_star k cls s) as [m1|] eqn:G.
      * inversion H; subst.
        destruct (IH _ eq_refl) as (taken & rest & m' & -> & Ht & Hk & Hn).
        exists (x :: taken), rest, m'. cbn [forallb length fst longer app].
        rewrite C, Ht, Hn. now repeat split.
      * exists [], (x :: s), m. now repeat split.
    + exists [], (x :: s), m. now repeat split.
Qed.

Lemma greedy_star_complete k cls taken rest m' :
  forallb cls taken = true -> k rest = Some m' ->
  exists m, greedy_star k cls (taken ++ rest) = Some m.
Proof.
  intros Ht Hk. induction taken as [|x taken IH].
  - cbn [app]. destruct rest as [|y rest]; cbn [greedy_star]; [eauto|].
    destruct (cls y); [|eauto].
    destruct (greedy_star k cls rest); eauto.
  - cbn [forallb] in Ht. apply andb_prop in Ht as [Hx Ht].
    destruct (IH Ht) as [m Hm]. cbn [app greedy_star].
    rewrite Hx, Hm. eauto.
Qed.

Lemma match_here_sound r :
  forall s m, match_here r s = Some m -> matches r s (fst m).
Proof.
  induction r as [|a r IH]; intros s m H.
  - inversion H; subst. constructor.
  - destruct a as [c|group cls|cls]; cbn [match_here] in H.
    + destruct s as [|x s]; [discriminate|].
      destruct (N.eqb_spec x c) as [->|]; [|discriminate].
      destruct (match_here r s) as [m1|] eqn:E; [|discriminate].
      inversion H; subst. cbn [longer fst]. constructor. now apply IH.
    + destruct (lazy_star_sound _ _ _ _ _ H)
        as (taken & rest & m' & -> & Ht & Hk & ->).
      constructor; [exact Ht | now apply IH].
    + destruct s as [|x s]; [discriminate|].
      destruct (cls x) eqn:C; [|discriminate].
      destruct (greedy_star (match_here r) cls s) as [m1|] eqn:G; [|discriminate].
      inversion H; subst.
      destruct (greedy_star_sound _ _ _ _ G)
        as (taken & rest & m' & -> & Ht & Hk & Hn).
      cbn [longer fst]. rewrite Hn.
      constructor; [exact C | exact Ht | now apply IH].
Qed.

Lemma match_here_complete r s n :
  matches r s n -> exists m, match_here r s = Some m.
Proof.
  induction 1 as [s|c r s n _ [m Hm]|group cls r taken s n Ht _ [m Hm]
                  |cls r x taken s n Hx Ht _ [m Hm]].
  - cbn. eauto.
  - cbn [match_here]. rewrite N.eqb_refl, Hm. cbn. eauto.
  - cbn [match_here]. eapply lazy_star_complete; eauto.
  - cbn [match_here]. rewrite Hx.
    destruct (greedy_star_complete (match_here r) cls taken s m Ht Hm) as [m1 ->].
    cbn. eauto.
Qed.

Lemma test_true r s :
  test r s = true <->
  exists before after n, s = before ++ after /\ matches r after n.
Proof.
  split.
  - induction s as [|c s IH]; cbn [test].
    + destruct (match_here r []) as [m|] eqn:E; [|discriminate].
      intros _. exists [], [], (fst m). split; [reflexivity|].
      now apply match_here_sound.
    + destruct (match_here r (c :: s)) as [m|] eqn:E.
      * intros _. exists [], (c :: s), (fst m). split; [reflexivity|].
        now apply match_here_sound.
      * intros H. destruct (IH H) as (b & a & n & -> & Hm).
        exists (c :: b), a, n. now split.
  - intros (b & a & n & -> & Hm).
    destruct (match_here_complete _ _ _ Hm) as [m E].
    induction b as [|c b IH]; cbn [app].
    + destruct a; cbn [test]; now rewrite E.
    + cbn [test]. destruct (match_here r (c :: b ++ a)); [reflexivity|exact IH].
Qed.

(** ** The greedy plus of the heading pattern *)

Lemma greedy_star_end cls t :
  greedy_star (match_here []) cls t = Some (length (take_while cls t), []).
Proof.
  induction t as [|x t IH]; [reflexivity|].
  cbn [greedy_star take_while]. destruct (cls x); [|reflexivity].
  rewrite IH. reflexivity.
Qed.

Lemma match_greedy_plus_end cls y t :
  match_here [GreedyPlus cls] (y :: t)
  = if cls y then Some (S (length (take_while cls t)), []) else None.
Proof.
  cbn [match_here]. destruct (cls y); [|reflexivity].
  now rewrite greedy_star_end.
Qed.

Lemma match_heading s :
  match_here re_heading s =
  match s with
  | c :: y :: t =>
      if (N.eqb c hash && dot y)%bool
      then Some (S (S (length (take_while dot t))), []) else None
  | _ => None
  end.
Proof.
  destruct s as [|c [|y t]].
  - reflexivity.
  - unfold re_heading. cbn [match_here]. destruct (N.eqb c (ch "#")); reflexivity.
  - unfold re_heading.
    change (match_here (Chr (ch "#") :: [GreedyPlus dot]) (c :: y :: t))
      with (if N.eqb c (ch "#")
            then option_map (longer c false) (match_here [GreedyPlus dot] (y :: t))
            else None).
    rewrite match_greedy_plus_end. unfold hash.
    destruct (N.eqb c (ch "#")); [|reflexivity].
    destruct (dot y); reflexivity.
Qed.

Lemma dot_not_hash c : dot c = false -> N.eqb c hash = false.
Proof.
  unfold dot, is_line_terminator, hash. intros H.
  destruct (N.eqb_spec c (ch "#")) as [->|]; [vm_compute in H; discriminate|reflexivity].
Qed.

Lemma strip_scan_correct s :
  replace_from re_heading removed s (length (take_while dot s)) = strip_scan s true
  /\ replace_from re_heading removed s 0 = strip_scan s false.
Proof.
  induction s as [|c s [IHd IH0]].
  - split; reflexivity.
  - assert (H0 : replace_from re_heading removed (c :: s) 0
                 = strip_scan (c :: s) false).
    { cbn [replace_from]. rewrite match_heading. cbn [strip_scan].
      destruct s as [|y t].
      - destruct (N.eqb c hash); reflexivity.
      - destruct (N.eqb c hash) eqn:Eh; cbn [andb].
        + destruct (dot y) eqn:Ed.
          * cbn [removed app]. rewrite <- IHd. cbn [take_while]. rewrite Ed.
            reflexivity.
          * now rewrite IH0.
        + now rewrite IH0. }
    split; [|exact H0].
    cbn [take_while strip_scan]. destruct (dot c) eqn:Ed.
    + cbn [length replace_from]. exact IHd.
    + cbn [length]. rewrite H0. cbn [strip_scan].
      rewrite (dot_not_hash _ Ed). now rewrite <- IH0.
Qed.

Lemma stripHeadings_scan s : stripHeadings s = strip_scan s false.
Proof. apply strip_scan_correct. Qed.

(** ** Line-ending normalisation *)

Lemma match_crlf s :
  match_here re_crlf s =
  match s with
  | c :: s' => if N.eqb c CR && starts_with_lf s' then Some (2%nat, []) else None
  | [] => None
  end.
Proof.
  destruct s as [|c [|d s]]; cbn [match_here re_crlf starts_with_lf].
  - reflexivity.
  - destruct (N.eqb c CR); reflexivity.
  - destruct (N.eqb c CR); [|reflexivity].
    destruct (N.eqb d LF); reflexivity.
Qed.

Lemma crlf_scan_cons c s :
  crlf_scan (c :: s) =
  if N.eqb c CR && starts_with_lf s then crlf_scan s else c :: crlf_scan s.
Proof. reflexivity. Qed.

Lemma normalizeNewlines_scan s : normalizeNewlines s = crlf_scan s.
Proof.
  unfold normalizeNewlines, replace_all.
  induction s as [|c s IH]; [reflexivity|].
  cbn [replace_from]. rewrite match_crlf, crlf_scan_cons.
  destruct (N.eqb c CR && starts_with_lf s) eqn:E.
  - destruct s as [|d s]; [now rewrite andb_false_r in E|].
    apply andb_prop in E as [_ E]. cbn [starts_with_lf] in E.
    apply N.eqb_eq in E. subst d.
    rewrite <- IH. cbn [newline app replace_from]. rewrite match_crlf.
    reflexivity.
  - now rewrite IH.
Qed.

Lemma crlf_scan_length s : (length (crlf_scan s) <= length s)%nat.
Proof.
  induction s as [|c s IH]; [reflexivity|].
  rewrite crlf_scan_cons. destruct (N.eqb c CR && starts_with_lf s); cbn [length]; lia.
Qed.

Lemma crlf_scan_app t u :
  starts_with_lf u = false -> crlf_scan (t ++ u) = crlf_scan t ++ crlf_scan u.
Proof.
  intros Hu. induction t as [|c t IH]; [reflexivity|].
  cbn [app]. rewrite !crlf_scan_cons, IH.
  assert (E : starts_with_lf (t ++ u) = starts_with_lf t).
  { destruct t; [exact Hu | reflexivity]. }
  rewrite E. destruct (N.eqb c CR && starts_with_lf t); reflexivity.
Qed.

Lemma plain_not_lf c : plain c = true -> N.eqb c LF = false.
Proof. unfold plain. intros H. apply andb_prop in H as [_ H]. now apply negb_true_iff. Qed.

Lemma plain_not_cr c : plain c = true -> N.eqb c CR = false.
Proof. unfold plain. intros H. apply andb_prop in H as [H _]. now apply negb_true_iff. Qed.

Lemma crlf_scan_head_lf s :
  starts_with_lf s = true -> starts_with_lf (crlf_scan s) = true.
Proof.
  destruct s as [|c s]; [discriminate|]. cbn [starts_with_lf]. intros H.
  apply N.eqb_eq in H. subst c. reflexivity.
Qed.

(** A run of plain code units at the start of the normalised text stood
    at the start of the text. *)
Lemma crlf_scan_prefix m :
  forall s b,
    forallb plain m = true -> crlf_scan s = m ++ b ->
    exists b0, s = m ++ b0 /\ crlf_scan b0 = b.
Proof.
  induction m as [|c m IH]; intros s b Hm H.
  - exists s. now split.
  - cbn [forallb] in Hm. apply andb_prop in Hm as [Hc Hm].
    destruct s as [|y s]; [discriminate|].
    rewrite crlf_scan_cons in H.
    destruct (N.eqb y CR && starts_with_lf s) eqn:E.
    + apply andb_prop in E as [_ E].
      pose proof (crlf_scan_head_lf _ E) as L. rewrite H in L.
      cbn [app starts_with_lf] in L. rewrite (plain_not_lf _ Hc) in L.
      discriminate.
    + cbn [app] in H. injection H as Hy H. subst y.
      destruct (IH s b Hm H) as (b0 & -> & Hb). exists b0. now split.
Qed.

(** A run of plain code units of the normalised text stood in the text. *)
Lemma crlf_scan_infix m s :
  forall a b,
    forallb plain m = true -> crlf_scan s = a ++ m ++ b ->
    exists a0 b0, s = a0 ++ m ++ b0 /\ crlf_scan b0 = b.
Proof.
  induction s as [|y s IH]; intros a b Hm H.
  - destruct a; [|discriminate].
    destruct (crlf_scan_prefix m [] b Hm H) as (b0 & E & Hb).
    exists [], b0. now split.
  - destruct a as [|x a].
    + destruct (crlf_scan_prefix m (y :: s) b Hm H) as (b0 & E & Hb).
      exists [], b0. now split.
    + rewrite crlf_scan_cons in H.
      destruct (N.eqb y CR && starts_with_lf s).
      * destruct (IH (x :: a) b Hm H) as (a0 & b0 & -> & Hb).
        exists (y :: a0), b0. now split.
      * cbn [app] in H. injection H as Hy H.
        destruct (IH a b Hm H) as (a0 & b0 & -> & Hb).
        exists (y :: a0), b0. now split.
Qed.

Lemma forallb_impl (f g : jschar -> bool) l :
  (forall x, f x = true -> g x = true) ->
  forallb f l = true -> forallb g l = true.
Proof.
  intros Hfg. induction l as [|x l IH]; [reflexivity|].
  cbn [forallb]. intros H. apply andb_prop in H as [Hx Hl].
  now rewrite (Hfg _ Hx), IH.
Qed.

(** A pattern of plain atoms matches plain code units, and the match
    does not depend on what follows it. *)
Lemma matches_plain r s n :
  matches r s n -> Forall atom_plain r ->
  exists m rest,
    s = m ++ rest /\ length m = n /\ forallb plain m = true
    /\ forall rest', matches r (m ++ rest') n.
Proof.
  induction 1 as [s|c r s n _ IH|group cls r taken s n Ht _ IH
                  |cls r x taken s n Hx Ht _ IH]; intros Hp.
  - exists [], s. repeat split. intros rest'. constructor.
  - inversion Hp as [|? ? Hc Hr]; subst.
    destruct (IH Hr) as (m & rest & -> & Hl & Hm & Hany).
    exists (c :: m), rest. cbn [app length forallb].
    cbn in Hc. rewrite Hc, Hm, Hl. repeat split.
    intros rest'. constructor. apply Hany.
  - inversion Hp as [|? ? Hc Hr]; subst.
    destruct (IH Hr) as (m & rest & -> & Hl & Hm & Hany).
    exists (taken ++ m), rest.
    rewrite app_assoc, length_app, forallb_app, Hm, Hl.
    rewrite (forallb_impl cls plain taken Hc Ht). repeat split.
    intros rest'. rewrite <- app_assoc. constructor; [exact Ht | apply Hany].
  - inversion Hp as [|? ? Hc Hr]; subst.
    destruct (IH Hr) as (m & rest & -> & Hl & Hm & Hany).
    exists (x :: taken ++ m), rest.
    cbn [app length forallb].
    rewrite app_assoc, length_app, forallb_app, Hm, Hl.
    cbn in Hc. rewrite (Hc _ Hx), (forallb_impl cls plain taken Hc Ht).
    repeat split.
    intros rest'. rewrite <- app_assoc. constructor; [exact Hx | exact Ht | apply Hany].
Qed.

Lemma test_crlf_plain r s :
  Forall atom_plain r -> test r (crlf_scan s) = true -> test r s = true.
Proof.
  intros Hp H. apply test_true in H as (before & after & n & E & Hm).
  destruct (matches_plain _ _ _ Hm Hp) as (m & rest & -> & _ & Hpl & Hany).
  destruct (crlf_scan_infix m s before rest Hpl E) as (a0 & b0 & -> & _).
  apply test_true. exists a0, (m ++ b0), n. split; [reflexivity | apply Hany].
Qed.

Lemma dot_plain x : dot x = true -> plain x = true.
Proof.
  unfold dot, is_line_terminator, plain, CR, LF. intros H.
  apply negb_true_iff in H.
  destruct (N.eqb x 10), (N.eqb x 13); cbn in *; congruence.
Qed.

Lemma re_image_plain : Forall atom_plain re_image.
Proof. repeat constructor; exact dot_plain. Qed.

Lemma re_link_plain : Forall atom_plain re_link.
Proof. repeat constructor; exact dot_plain. Qed.

Lemma re_heading_plain : Forall atom_plain re_heading.
Proof. repeat constructor; exact dot_plain. Qed.

Lemma any_true x : any x = true.
Proof. unfold any. apply orb_negb_r. Qed.

Lemma test_crlf_fence s :
  test re_fence (crlf_scan s) = true -> test re_fence s = true.
Proof.
  intros H. apply test_true in H as (before & after & n & E & Hm).
  unfold re_fence in Hm.
  inversion Hm as [|? ? ? ? Hm1| |]; subst; clear Hm.
  inversion Hm1 as [|? ? ? ? Hm2| |]; subst; clear Hm1.
  inversion Hm2 as [|? ? ? ? Hm3| |]; subst; clear Hm2.
  inversion Hm3 as [| |? ? ? taken ? ? _ Hm4|]; subst; clear Hm3.
  inversion Hm4 as [|? ? ? ? Hm5| |]; subst; clear Hm4.
  inversion Hm5 as [|? ? ? ? Hm6| |]; subst; clear Hm5.
  inversion Hm6 as [|? ? rest ? Hm7| |]; subst; clear Hm6.
  set (t := ch "`"%char) in *.
  change (crlf_scan s = before ++ [t; t; t] ++ (taken ++ [t; t; t] ++ rest)) in E.
  destruct (crlf_scan_infix [t; t; t] s before _ eq_refl E) as (a0 & b0 & -> & E').
  destruct (crlf_scan_infix [t; t; t] b0 taken rest eq_refl E')
    as (z0 & b1 & -> & _).
  apply test_true.
  exists a0, ([t; t; t] ++ z0 ++ [t; t; t] ++ b1), (3 + (length z0 + 3))%nat.
  split; [reflexivity|].
  cbn [app Nat.add]. do 3 constructor.
  constructor.
  - clear. induction z0 as [|x z IH]; [reflexivity|].
    cbn [forallb]. now rewrite any_true.
  - do 3 constructor. constructor.
Qed.

Lemma crlf_scan_has_crlf s :
  forall before rest,
    crlf_scan s = before ++ CR :: LF :: rest ->
    exists a b, s = a ++ CR :: CR :: LF :: b.
Proof.
  induction s as [|y s IH]; intros before rest H.
  - destruct before; discriminate.
  - rewrite crlf_scan_cons in H.
    destruct (N.eqb y CR && starts_with_lf s) eqn:E.
    + destruct (IH _ _ H) as (a & b & ->). now exists (y :: a), b.
    + destruct before as [|x before]; cbn [app] in H; injection H as Hy H.
      * subst y. rewrite N.eqb_refl in E. cbn [andb] in E.
        destruct s as [|z s]; [discriminate|].
        rewrite crlf_scan_cons in H.
        destruct (N.eqb z CR && starts_with_lf s) eqn:E2.
        -- apply andb_prop in E2 as [Ez Es]. apply N.eqb_eq in Ez. subst z.
           destruct s as [|w s]; [discriminate|].
           cbn [starts_with_lf] in Es. apply N.eqb_eq in Es. subst w.
           now exists [], s.
        -- injection H as Hz _. subst z. discriminate.
      * destruct (IH _ _ H) as (a & b & ->). now exists (y :: a), b.
Qed.

Lemma crlf_scan_no_crlf s :
  test re_cr_crlf s = false -> test re_crlf (crlf_scan s) = false.
Proof.
  intros Hn. destruct (test re_crlf (crlf_scan s)) eqn:T; [|reflexivity].
  apply test_true in T as (before & after & n & E & Hm).
  unfold re_crlf in Hm.
  inversion Hm as [|? ? ? ? Hm1| |]; subst; clear Hm.
  inversion Hm1 as [|? ? rest ? Hm2| |]; subst; clear Hm1.
  destruct (crlf_scan_has_crlf s _ _ E) as (a & b & ->).
  assert (T : test re_cr_crlf (a ++ CR :: CR :: LF :: b) = true).
  { apply test_true. exists a, (CR :: CR :: LF :: b), 3%nat.
    split; [reflexivity|]. unfold re_cr_crlf. do 3 constructor. constructor. }
  congruence.
Qed.

(** ** Trimmed texts *)

Lemma trimStart_length s : (length (trimStart s) <= length s)%nat.
Proof.
  induction s as [|x s IH]; cbn [trimStart]; [lia|].
  destruct (is_space x); cbn [length]; lia.
Qed.

Lemma trimStart_clean s : starts_clean s = true -> trimStart s = s.
Proof.
  destruct s as [|c s]; [reflexivity|]. cbn [starts_clean trimStart].
  intros H. apply negb_true_iff in H. now rewrite H.
Qed.

Lemma trimStart_same_length s :
  length (trimStart s) = length s -> starts_clean s = true.
Proof.
  destruct s as [|c s]; [reflexivity|]. cbn [starts_clean trimStart].
  destruct (is_space c); [|reflexivity].
  pose proof (trimStart_length s). cbn [length]. lia.
Qed.

Lemma trim_fixed s :
  trim s = s <-> starts_clean s = true /\ starts_clean (rev s) = true.
Proof.
  unfold trim, trimEnd. split.
  - intros H.
    assert (L : length (trimStart (rev (trimStart s))) = length s).
    { rewrite <- H at 2. now rewrite length_rev. }
    pose proof (trimStart_length (rev (trimStart s))) as L1.
    rewrite length_rev in L1.
    pose proof (trimStart_length s) as L2.
    assert (C : starts_clean s = true) by (apply trimStart_same_length; lia).
    split; [exact C|].
    rewrite (trimStart_clean s C) in L.
    apply trimStart_same_length. now rewrite length_rev.
  - intros [C1 C2]. rewrite (trimStart_clean s C1), (trimStart_clean _ C2).
    apply rev_involutive.
Qed.

Lemma not_space_not_cr c : is_space c = false -> N.eqb c CR = false.
Proof.
  intros H. destruct (N.eqb_spec c CR) as [->|]; [discriminate | reflexivity].
Qed.

Lemma not_space_not_lf c : is_space c = false -> N.eqb c LF = false.
Proof.
  intros H. destruct (N.eqb_spec c LF) as [->|]; [discriminate | reflexivity].
Qed.

Lemma crlf_scan_trimmed s : trim s = s -> trim (crlf_scan s) = crlf_scan s.
Proof.
  intros H. apply trim_fixed in H as [C1 C2]. apply trim_fixed. split.
  - destruct s as [|c s]; [reflexivity|]. cbn [starts_clean] in C1.
    apply negb_true_iff in C1. rewrite crlf_scan_cons.
    rewrite (not_space_not_cr _ C1). cbn [andb starts_clean]. now rewrite C1.
  - destruct (rev s) as [|z l] eqn:R.
    + apply (f_equal (@rev jschar)) in R. rewrite rev_involutive in R.
      now subst s.
    + apply (f_equal (@rev jschar)) in R. rewrite rev_involutive in R.
      cbn [rev] in R. subst s. cbn [starts_clean] in C2.
      apply negb_true_iff in C2.
      rewrite crlf_scan_app by (cbn; now apply not_space_not_lf).
      rewrite rev_app_distr. cbn [crlf_scan starts_with_lf].
      rewrite andb_false_r. cbn [rev app starts_clean]. now rewrite C2.
Qed.

(** ** The heading scan, line by line *)

Lemma ends_line_cons c y t : ends_line (c :: y :: t) = ends_line (y :: t).
Proof.
  unfold ends_line. cbn [rev].
  destruct (rev t) as [|z u]; reflexivity.
Qed.

Lemma ends_line_single c : ends_line [c] = is_line_terminator c.
Proof. reflexivity. Qed.

Lemma line_terminator_not_dot c : is_line_terminator c = true -> dot c = false.
Proof. unfold dot. now intros ->. Qed.

Lemma strip_scan_cons c s d :
  strip_scan (c :: s) d =
  if d then if dot c then strip_scan s true else c :: strip_scan s false
  else if N.eqb c hash then
         match s with
         | y :: _ => if dot y then strip_scan s true else c :: strip_scan s false
         | [] => [c]
         end
       else c :: strip_scan s false.
Proof. reflexivity. Qed.

Lemma strip_scan_app before rest d :
  ends_line before = true ->
  before <> [] \/ d = false ->
  strip_scan (before ++ rest) d = strip_scan before d ++ strip_scan rest false.
Proof.
  revert d. induction before as [|c b IH]; intros d He Hd.
  - destruct Hd as [Hd | ->]; [congruence | reflexivity].
  - destruct b as [|y t].
    + rewrite ends_line_single in He.
      pose proof (line_terminator_not_dot _ He) as Hdot.
      pose proof (dot_not_hash _ Hdot) as Hh.
      cbn [app]. rewrite !strip_scan_cons. rewrite Hdot, Hh.
      destruct d; reflexivity.
    + rewrite ends_line_cons in He.
      assert (IHt : forall d', strip_scan (y :: t ++ rest) d'
                    = strip_scan (y :: t) d' ++ strip_scan rest false).
      { intros d'. apply (IH d'); [exact He | left; discriminate]. }
      cbn [app].
      rewrite (strip_scan_cons c (y :: t ++ rest)), (strip_scan_cons c (y :: t)).
      destruct d.
      * destruct (dot c); rewrite IHt; reflexivity.
      * destruct (N.eqb c hash).
        -- destruct (dot y); rewrite IHt; reflexivity.
        -- rewrite IHt. reflexivity.
Qed.

Lemma strip_scan_keep keep rest :
  forallb not_hash keep = true ->
  strip_scan (keep ++ rest) false = keep ++ strip_scan rest false.
Proof.
  induction keep as [|c k IH]; intros H; [reflexivity|].
  cbn [forallb] in H. apply andb_prop in H as [Hc Hk].
  unfold not_hash in Hc. apply negb_true_iff in Hc.
  cbn [app strip_scan]. rewrite Hc, (IH Hk). reflexivity.
Qed.

Lemma strip_scan_drop seg rest :
  forallb dot seg = true ->
  strip_scan (seg ++ rest) true = strip_scan rest true.
Proof.
  induction seg as [|c k IH]; intros H; [reflexivity|].
  cbn [forallb] in H. apply andb_prop in H as [Hc Hk].
  cbn [app strip_scan]. rewrite Hc. exact (IH Hk).
Qed.

Lemma strip_scan_line_break rest :
  starts_line_break rest = true ->
  strip_scan rest true = strip_scan rest false.
Proof.
  destruct rest as [|t r]; [reflexivity|]. cbn [starts_line_break]. intros H.
  pose proof (line_terminator_not_dot _ H) as Hdot.
  cbn [strip_scan]. now rewrite Hdot, (dot_not_hash _ Hdot).
Qed.

Lemma strip_scan_hash seg rest :
  forallb dot seg = true -> starts_line_break rest = true ->
  strip_scan (hash :: seg ++ rest) false
  = match seg with [] => [hash] | _ => [] end ++ strip_scan rest false.
Proof.
  intros Hs Hr. cbn [strip_scan]. rewrite N.eqb_refl.
  destruct seg as [|y k].
  - destruct rest as [|t r]; [reflexivity|].
    cbn [starts_line_break] in Hr. cbn [app].
    now rewrite (line_terminator_not_dot _ Hr).
  - pose proof Hs as Hs'. cbn [forallb] in Hs'. apply andb_prop in Hs' as [Hy _].
    cbn [app]. rewrite Hy.
    change (y :: k ++ rest) with ((y :: k) ++ rest).
    rewrite (strip_scan_drop (y :: k) rest Hs). now apply strip_scan_line_break.
Qed.

Lemma strip_scan_line_breaks s d :
  filter is_line_terminator (strip_scan s d) = filter is_line_terminator s.
Proof.
  revert d. induction s as [|c s IH]; intros d; [reflexivity|].
  rewrite strip_scan_cons. cbn [filter].
  destruct d.
  - destruct (dot c) eqn:E.
    + unfold dot in E. apply negb_true_iff in E. rewrite E. apply IH.
    + cbn [filter]. now rewrite IH.
  - destruct (N.eqb c hash) eqn:E.
    + apply N.eqb_eq in E. subst c.
      change (is_line_terminator hash) with false. cbv iota.
      destruct s as [|y t]; [reflexivity|].
      destruct (dot y).
      * apply IH.
      * cbn [filter]. change (is_line_terminator hash) with false. cbv iota.
        apply IH.
    + cbn [filter]. now rewrite IH.
Qed.

Lemma cleaned_fixed s :
  test re_image s = false -> test re_fence s = false ->
  test re_heading s = false -> test re_link s = false ->
  test re_crlf s = false -> trim s = s ->
  cleaned s = s.
Proof.
  intros H1 H2 H3 H4 H5 H6.
  unfold cleaned, stripImages, stripFences, stripHeadings, collapseLinks,
    normalizeNewlines.
  cbv zeta.
  rewrite (replace_all_no_match _ _ _ H1), (replace_all_no_match _ _ _ H2),
    (replace_all_no_match _ _ _ H3), (replace_all_no_match _ _ _ H4),
    (replace_all_no_match _ _ _ H5).
  exact H6.
Qed.

(* ================================================================== *)
(** * Excerpt derivation: length, idempotence, headings *)
(* ================================================================== *)

(** C7. With the offline limit of 1400, the excerpt is never longer than
    1400 code units, ellipsis included: it is the cleaned text when that
    has at most 1400 code units, and otherwise the first 1397 code units
    of the cleaned text followed by the three dots. *)
Theorem excerpt_offline_length (md : jsstring) :
  (Z.of_nat (length (excerptMarkdown md 1400)) <= 1400)%Z
  /\ excerptMarkdown md 1400 =
     (if (Z.of_nat (length (cleaned md)) <=? 1400)%Z then cleaned md
      else firstn 1397 (cleaned md) ++ lit "...").
Proof.
  assert (E : excerptMarkdown md 1400 =
     (if (Z.of_nat (length (cleaned md)) <=? 1400)%Z then cleaned md
      else firstn 1397 (cleaned md) ++ lit "...")).
  { unfold excerptMarkdown. destruct md as [|c md]; [reflexivity|].
    cbv zeta. destruct (Z.of_nat (length (cleaned (c :: md))) <=? 1400)%Z;
      reflexivity. }
  split; [|exact E].
  rewrite E.
  destruct (Z.of_nat (length (cleaned md)) <=? 1400)%Z eqn:L.
  - now apply Z.leb_le.
  - apply Z.leb_gt in L.
    rewrite length_app, length_firstn.
    change (length (lit "...")) with 3%nat.
    assert (Z.of_nat 1397 = 1397%Z) by reflexivity. lia.
Qed.

(** C8, amended.  On a text in which none of the four patterns (image,
    fence, heading, link) matches, which has no CR directly before a
    CR LF pair, is trimmed and is within the limit, the excerpt is the
    text with its line endings normalised, and deriving the excerpt of
    that again changes nothing. *)
Theorem excerpt_idempotent_on_clean (s : jsstring) (maxLen : Z) :
  test re_image s = false -> test re_fence s = false ->
  test re_heading s = false -> test re_link s = false ->
  test re_cr_crlf s = false ->
  trim s = s -> (Z.of_nat (length s) <= maxLen)%Z ->
  excerptMarkdown (excerptMarkdown s maxLen) maxLen = excerptMarkdown s maxLen
  /\ excerptMarkdown s maxLen = normalizeNewlines s.
Proof.
  intros H1 H2 H3 H4 H5 H6 H7.
  set (t := crlf_scan s).
  assert (Lt : (Z.of_nat (length t) <= maxLen)%Z).
  { pose proof (crlf_scan_length s). subst t. lia. }
  assert (Tt : trim t = t) by now apply crlf_scan_trimmed.
  assert (E : excerptMarkdown s maxLen = t).
  { unfold excerptMarkdown. destruct s as [|c s]; [reflexivity|].
    assert (C : cleaned (c :: s) = t).
    { unfold cleaned, stripImages, stripFences, stripHeadings, collapseLinks.
      cbv zeta.
      rewrite (replace_all_no_match _ _ _ H1), (replace_all_no_match _ _ _ H2),
        (replace_all_no_match _ _ _ H3), (replace_all_no_match _ _ _ H4).
      rewrite normalizeNewlines_scan. exact Tt. }
    rewrite C. apply Z.leb_le in Lt. now rewrite Lt. }
  assert (F : forall r, test r s = false ->
                (test r t = true -> test r s = true) -> test r t = false).
  { intros r Hs Himp. destruct (test r t); [|reflexivity].
    rewrite (Himp eq_refl) in Hs. discriminate. }
  split; [|now rewrite normalizeNewlines_scan].
  rewrite E. apply excerpt_of_clean; [|exact Lt].
  apply cleaned_fixed; try exact Tt.
  - apply (F _ H1), test_crlf_plain, re_image_plain.
  - apply (F _ H2), test_crlf_fence.
  - apply (F _ H3), test_crlf_plain, re_heading_plain.
  - apply (F _ H4), test_crlf_plain, re_link_plain.
  - now apply crlf_scan_no_crlf.
Qed.

Lemma excerpt_idempotent_on_clean_witness :
  excerptMarkdown (excerptMarkdown (lit ("two" ++ cr ++ nl ++ "lines")) 1400) 1400
  = excerptMarkdown (lit ("two" ++ cr ++ nl ++ "lines")) 1400
  /\ excerptMarkdown (lit ("two" ++ cr ++ nl ++ "lines")) 1400
     = normalizeNewlines (lit ("two" ++ cr ++ nl ++ "lines")).
Proof.
  apply (excerpt_idempotent_on_clean (lit ("two" ++ cr ++ nl ++ "lines")) 1400);
    solve [reflexivity | vm_compute; discriminate].
Defined.

(** C8 as stated fails: ["a\r\r\nb"] has no image, fence, heading or
    link, is trimmed and short, and its excerpt is ["a\r\nb"], whose
    excerpt is ["a\nb"]. *)
Lemma excerpt_not_idempotent_cr_cr_lf :
  test re_image cr_cr_lf_text = false
  /\ test re_fence cr_cr_lf_text = false
  /\ test re_heading cr_cr_lf_text = false
  /\ test re_link cr_cr_lf_text = false
  /\ test re_cr_crlf cr_cr_lf_text = true
  /\ trim cr_cr_lf_text = cr_cr_lf_text
  /\ (Z.of_nat (length cr_cr_lf_text) <= 1400)%Z
  /\ excerptMarkdown cr_cr_lf_text 1400 = lit ("a" ++ cr ++ nl ++ "b")
  /\ excerptMarkdown (excerptMarkdown cr_cr_lf_text 1400) 1400
     = lit ("a" ++ nl ++ "b")
  /\ excerptMarkdown (excerptMarkdown cr_cr_lf_text 1400) 1400
     <> excerptMarkdown cr_cr_lf_text 1400.
Proof.
  repeat split; try reflexivity; vm_compute; discriminate.
Qed.

(** C9, amended.  In a text cut as [before ++ keep ++ # seg ++ rest],
    where [before] ends a line, [keep] has no [#], [seg] runs to the end
    of the line and [rest] starts with the line break: the heading step
    works on the line alone; it keeps [keep], removes the [#] and [seg]
    when [seg] is not empty, and keeps a [#] that ends its line.  No line
    terminator is ever removed. *)
Theorem heading_strip_by_line (before keep seg rest : jsstring) :
  ends_line before = true ->
  forallb not_hash keep = true ->
  forallb dot seg = true ->
  starts_line_break rest = true ->
  stripHeadings (before ++ keep ++ hash :: seg ++ rest)
  = stripHeadings before ++ keep
    ++ match seg with [] => [hash] | _ => [] end ++ stripHeadings rest
  /\ filter is_line_terminator
       (stripHeadings (before ++ keep ++ hash :: seg ++ rest))
     = filter is_line_terminator (before ++ keep ++ hash :: seg ++ rest).
Proof.
  intros Hb Hk Hs Hr. rewrite !stripHeadings_scan. split.
  - rewrite (strip_scan_app before _ false Hb (or_intror eq_refl)).
    rewrite (strip_scan_keep keep _ Hk).
    rewrite (strip_scan_hash seg rest Hs Hr). reflexivity.
  - apply strip_scan_line_breaks.
Qed.

Lemma heading_strip_by_line_witness :
  stripHeadings (lit ("intro" ++ nl) ++ lit "see " ++ hash :: lit "tag here"
                 ++ lit (nl ++ "end"))
  = stripHeadings (lit ("intro" ++ nl)) ++ lit "see "
    ++ [] ++ stripHeadings (lit (nl ++ "end"))
  /\ filter is_line_terminator
       (stripHeadings (lit ("intro" ++ nl) ++ lit "see " ++ hash :: lit "tag here"
                       ++ lit (nl ++ "end")))
     = filter is_line_terminator
         (lit ("intro" ++ nl) ++ lit "see " ++ hash :: lit "tag here"
          ++ lit (nl ++ "end")).
Proof.
  apply (heading_strip_by_line (lit ("intro" ++ nl)) (lit "see ")
           (lit "tag here") (lit (nl ++ "end"))); reflexivity.
Defined.

(** C9 as stated fails on a [#] that ends its line: nothing follows the
    marker, the pattern [#.+] does not match, and the marker stays. *)
Lemma heading_strip_keeps_final_hash :
  stripHeadings (lit ("a#" ++ nl ++ "b")) = lit ("a#" ++ nl ++ "b")
  /\ excerptMarkdown (lit ("a#" ++ nl ++ "b")) 1400 = lit ("a#" ++ nl ++ "b")
  /\ ~ (forall keep seg rest : jsstring,
          forallb not_hash keep = true -> forallb dot seg = true ->
          starts_line_break rest = true ->
          stripHeadings (keep ++ hash :: seg ++ rest)
          = keep ++ stripHeadings rest).
Proof.
  split; [reflexivity|]. split; [reflexivity|].
  intros H.
  specialize (H (lit "a") [] (lit (nl ++ "b")) eq_refl eq_refl eq_refl).
  vm_compute in H. discriminate.
Qed.

(* ================================================================== *)
(** * Ranker *)
(* ================================================================== *)

Lemma lookup_update_same k v props : lookup k (update k v props) = Some v.
Proof.
  induction props as [|[k' v'] rest IH]; simpl.
  - now rewrite String.eqb_refl.
  - destruct (String.eqb k k') eqn:E; simpl; rewrite E; [reflexivity | exact IH].
Qed.

Lemma lookup_update_other k k' v props :
  String.eqb k' k = false -> lookup k' (update k v props) = lookup k' props.
Proof.
  intros Hk. induction props as [|[k0 v0] rest IH]; simpl.
  - now rewrite Hk.
  - destruct (String.eqb k k0) eqn:E; simpl.
    + apply String.eqb_eq in E. subst k0. now rewrite Hk.
    + destruct (String.eqb k' k0); [reflexivity | exact IH].
Qed.

Lemma get_set_same o k v : is_object o = true -> get (set_prop o k v) k = v.
Proof.
  destruct o; try discriminate. intros _. simpl. now rewrite lookup_update_same.
Qed.

Lemma get_set_other o k k' v :
  String.eqb k' k = false -> get (set_prop o k v) k' = get o k'.
Proof.
  intros Hk. destruct o; try reflexivity. simpl.
  now rewrite (lookup_update_other _ _ _ _ Hk).
Qed.

Lemma stars_of_feature p : stars_of (feature p) = stars_of p.
Proof.
  unfold stars_of, feature. now rewrite get_set_other.
Qed.

Lemma featured_feature p :
  is_object p = true -> get (feature p) "featured" = JBool true.
Proof. intros H. now apply get_set_same. Qed.

Lemma insert_perm x l : Permutation (insert by_stars_desc x l) (x :: l).
Proof.
  induction l as [|y l IH]; simpl; [apply Permutation_refl|].
  destruct (by_stars_desc x y <=? 0)%Z; [apply Permutation_refl|].
  eapply perm_trans; [apply perm_skip, IH | apply perm_swap].
Qed.

Lemma sort_perm l : Permutation (sort_by by_stars_desc l) l.
Proof.
  induction l as [|x l IH]; simpl; [constructor|].
  eapply perm_trans; [apply insert_perm | now apply perm_skip].
Qed.

Lemma insert_sorted x l :
  StronglySorted stars_ge l -> StronglySorted stars_ge (insert by_stars_desc x l).
Proof.
  induction 1 as [|y l Hs IH Hy]; simpl.
  - repeat constructor.
  - unfold by_stars_desc at 1.
    destruct (stars_of y - stars_of x <=? 0)%Z eqn:E.
    + apply Z.leb_le in E. constructor; [now constructor|].
      constructor; [unfold stars_ge; lia|].
      eapply Forall_impl; [|exact Hy]. unfold stars_ge. intros; lia.
    + apply Z.leb_gt in E. constructor; [exact IH|].
      eapply Permutation_Forall; [apply Permutation_sym, insert_perm|].
      constructor; [unfold stars_ge; lia | exact Hy].
Qed.

Lemma sort_sorted l : StronglySorted stars_ge (sort_by by_stars_desc l).
Proof.
  induction l as [|x l IH]; simpl; [constructor | now apply insert_sorted].
Qed.

Lemma insert_stable s x l :
  filter (same_stars s) (insert by_stars_desc x l) = filter (same_stars s) (x :: l).
Proof.
  induction l as [|y l IH]; [reflexivity|].
  cbn [insert]. unfold by_stars_desc at 1.
  destruct (stars_of y - stars_of x <=? 0)%Z eqn:E; [reflexivity|].
  apply Z.leb_gt in E.
  cbn [filter] in *. rewrite IH. unfold same_stars.
  destruct (Z.eqb_spec (stars_of x) s), (Z.eqb_spec (stars_of y) s);
    try reflexivity; lia.
Qed.

Lemma sort_stable s l :
  filter (same_stars s) (sort_by by_stars_desc l) = filter (same_stars s) l.
Proof.
  induction l as [|x l IH]; [reflexivity|].
  cbn [sort_by]. rewrite insert_stable. cbn [filter]. now rewrite IH.
Qed.

Lemma filter_step (f : jsval -> bool) x l :
  filter f (x :: l) = if f x then x :: filter f l else filter f l.
Proof. reflexivity. Qed.

Lemma same_stars_refl x : same_stars (stars_of x) x = true.
Proof. unfold same_stars. apply Z.eqb_refl. Qed.

Lemma filter_head_in s x t l :
  filter (same_stars s) l = x :: t -> In x l.
Proof.
  intros H. assert (I : In x (filter (same_stars s) l)) by (rewrite H; now left).
  now apply filter_In in I.
Qed.

Lemma sorted_head_max x l y :
  StronglySorted stars_ge (x :: l) -> In y (x :: l) ->
  (stars_of y <= stars_of x)%Z.
Proof.
  intros H [<-|Hy]; [lia|]. inversion H as [|? ? _ Hx]; subst.
  rewrite Forall_forall in Hx. exact (Hx y Hy).
Qed.

(** A descending order that keeps, for every star count, the records
    with that count in their input order is determined by the input:
    whichever stable sorting method the engine uses, its result is the
    one computed by [sort_by]. *)
Lemma sorted_filters_unique l1 :
  forall l2,
    StronglySorted stars_ge l1 -> StronglySorted stars_ge l2 ->
    (forall s, filter (same_stars s) l1 = filter (same_stars s) l2) ->
    l1 = l2.
Proof.
  induction l1 as [|x l1 IH]; intros l2 S1 S2 F.
  - destruct l2 as [|y l2]; [reflexivity|].
    specialize (F (stars_of y)). cbn [filter] in F.
    rewrite same_stars_refl in F. discriminate.
  - destruct l2 as [|y l2].
    + specialize (F (stars_of x)). cbn [filter] in F.
      rewrite same_stars_refl in F. discriminate.
    + assert (Hxy : (stars_of x <= stars_of y)%Z).
      { apply (sorted_head_max y l2 x S2).
        pose proof (F (stars_of x)) as Fx.
        rewrite (filter_step _ x l1), same_stars_refl in Fx.
        symmetry in Fx. exact (filter_head_in _ _ _ _ Fx). }
      assert (Hyx : (stars_of y <= stars_of x)%Z).
      { apply (sorted_head_max x l1 y S1).
        pose proof (F (stars_of y)) as Fy.
        rewrite (filter_step _ y l2), same_stars_refl in Fy.
        exact (filter_head_in _ _ _ _ Fy). }
      assert (E : stars_of x = stars_of y) by lia.
      pose proof (F (stars_of x)) as Fx. cbn [filter] in Fx.
      rewrite same_stars_refl in Fx. rewrite E in Fx at 2.
      rewrite same_stars_refl in Fx. injection Fx as -> _.
      f_equal. apply IH.
      * now inversion S1.
      * now inversion S2.
      * intros s. specialize (F s). cbn [filter] in F.
        destruct (same_stars s y); [now injection F | exact F].
Qed.

Lemma stable_sort_unique l l' :
  StronglySorted stars_ge l' ->
  (forall s, filter (same_stars s) l' = filter (same_stars s) l) ->
  l' = sort_by by_stars_desc l.
Proof.
  intros S F. apply sorted_filters_unique; [exact S | apply sort_sorted|].
  intros s. now rewrite F, sort_stable.
Qed.

(** C3. The sort of the Ranker is stable: for every collection of
    records (objects with a numeric [stars], on which [by_stars_desc] is
    the comparator of the program) and every star count, the records
    with that count come out of the sort in the order in which they went
    in; the output is the input rearranged, by stars descending. *)
Theorem ranker_sort_stable (l : list jsval) (s : Z) :
  forallb has_stars l = true ->
  filter (same_stars s) (sort_by by_stars_desc l) = filter (same_stars s) l
  /\ Permutation (sort_by by_stars_desc l) l
  /\ StronglySorted stars_ge (sort_by by_stars_desc l).
Proof.
  intros _.
  split; [apply sort_stable|]. split; [apply sort_perm | apply sort_sorted].
Qed.

Lemma ranker_sort_stable_witness :
  filter (same_stars 5) (sort_by by_stars_desc tied_projects)
  = filter (same_stars 5) tied_projects
  /\ Permutation (sort_by by_stars_desc tied_projects) tied_projects
  /\ StronglySorted stars_ge (sort_by by_stars_desc tied_projects).
Proof.
  apply (ranker_sort_stable tied_projects 5). reflexivity.
Defined.

Example sort_tied_projects :
  map (fun p => (get p "name", get p "stars"))
      (sort_by by_stars_desc tied_projects)
  = [ (JStr (lit "b"), JNum 9); (JStr (lit "d"), JNum 9);
      (JStr (lit "a"), JNum 5); (JStr (lit "c"), JNum 5);
      (JStr (lit "e"), JNum 5) ].
Proof. reflexivity. Qed.

(** ** The three records with the most stars *)

Lemma stars_above_perm l l' p :
  Permutation l l' -> stars_above l p = stars_above l' p.
Proof.
  unfold stars_above. induction 1 as [|x l l' _ IH|x y l|l l' l'' _ IH1 _ IH2].
  - reflexivity.
  - cbn [filter]. destruct (stars_of p <? stars_of x)%Z; cbn [length]; now rewrite IH.
  - cbn [filter].
    destruct (stars_of p <? stars_of x)%Z, (stars_of p <? stars_of y)%Z; reflexivity.
  - now rewrite IH1.
Qed.

Lemma stars_above_le l p : (stars_above l p <= length l)%nat.
Proof. unfold stars_above. apply filter_length_le. Qed.

Lemma sorted_strict l :
  StronglySorted stars_ge l -> NoDup (map stars_of l) -> StronglySorted stars_gt l.
Proof.
  induction 1 as [|x l Hs IH Hx]; intros Hn; [constructor|].
  cbn [map] in Hn. inversion Hn as [|? ? Hnot Hn']; subst.
  constructor; [now apply IH|].
  rewrite Forall_forall in *. intros y Hy.
  specialize (Hx y Hy). unfold stars_ge in Hx. unfold stars_gt.
  assert (stars_of y <> stars_of x).
  { intros E. apply Hnot. rewrite <- E. now apply in_map. }
  lia.
Qed.

Lemma sorted_split a p b :
  StronglySorted stars_gt (a ++ p :: b) ->
  Forall (fun q => stars_gt q p) a /\ Forall (stars_gt p) b.
Proof.
  induction a as [|x a IH]; cbn [app]; intros H; inversion H as [|? ? Hs Hx]; subst.
  - split; [constructor | exact Hx].
  - destruct (IH Hs) as [Ha Hb]. split; [|exact Hb].
    constructor; [|exact Ha].
    rewrite Forall_forall in Hx. apply Hx, in_elt.
Qed.

Lemma stars_above_sorted a p b :
  StronglySorted stars_gt (a ++ p :: b) ->
  stars_above (a ++ p :: b) p = length a.
Proof.
  intros H. destruct (sorted_split _ _ _ H) as [Ha Hb].
  unfold stars_above. rewrite filter_app. cbn [filter].
  rewrite Z.ltb_irrefl, length_app.
  assert (Ea : filter (fun q => (stars_of p <? stars_of q)%Z) a = a).
  { clear -Ha. induction Ha as [|x a Hx _ IH]; [reflexivity|].
    cbn [filter]. unfold stars_gt in Hx. apply Z.ltb_lt in Hx.
    now rewrite Hx, IH. }
  assert (Eb : filter (fun q => (stars_of p <? stars_of q)%Z) b = []).
  { clear -Hb. induction Hb as [|x b Hx _ IH]; [reflexivity|].
    cbn [filter]. unfold stars_gt in Hx.
    assert (E : (stars_of p <? stars_of x)%Z = false) by (apply Z.ltb_ge; lia).
    now rewrite E. }
  rewrite Ea, Eb. cbn [length]. lia.
Qed.

(** In a strictly descending list, the records with fewer than [n]
    records above them are the first [n]. *)
Lemma mark_sorted_suffix n a t :
  StronglySorted stars_gt (a ++ t) ->
  map (fun p => if (stars_above (a ++ t) p <? n)%nat then feature p else p) t
  = map feature (firstn (n - length a) t) ++ skipn (n - length a) t.
Proof.
  revert a. induction t as [|p t IH]; intros a H.
  - now rewrite firstn_nil, skipn_nil.
  - cbn [map]. rewrite (stars_above_sorted _ _ _ H).
    assert (E : a ++ p :: t = (a ++ [p]) ++ t) by now rewrite <- app_assoc.
    rewrite E in H |- *. specialize (IH _ H).
    rewrite IH, length_app. cbn [length].
    destruct (length a <? n)%nat eqn:L.
    + apply Nat.ltb_lt in L.
      replace (n - length a)%nat with (S (n - (length a + 1)))%nat by lia.
      reflexivity.
    + apply Nat.ltb_ge in L.
      replace (n - length a)%nat with 0%nat by lia.
      replace (n - (length a + 1))%nat with 0%nat by lia.
      reflexivity.
Qed.

Lemma top_sorted_suffix n a t :
  StronglySorted stars_gt (a ++ t) ->
  filter (fun p => (stars_above (a ++ t) p <? n)%nat) t = firstn (n - length a) t.
Proof.
  revert a. induction t as [|p t IH]; intros a H.
  - now rewrite firstn_nil.
  - cbn [filter]. rewrite (stars_above_sorted _ _ _ H).
    assert (E : a ++ p :: t = (a ++ [p]) ++ t) by now rewrite <- app_assoc.
    rewrite E in H |- *. specialize (IH _ H).
    rewrite IH, length_app. cbn [length].
    destruct (length a <? n)%nat eqn:L.
    + apply Nat.ltb_lt in L.
      replace (n - length a)%nat with (S (n - (length a + 1)))%nat by lia.
      reflexivity.
    + apply Nat.ltb_ge in L.
      replace (n - length a)%nat with 0%nat by lia.
      replace (n - (length a + 1))%nat with 0%nat by lia.
      reflexivity.
Qed.

Lemma filter_perm_length (f : jsval -> bool) l l' :
  Permutation l l' -> length (filter f l) = length (filter f l').
Proof.
  induction 1 as [|x l l' _ IH|x y l|l l' l'' _ IH1 _ IH2]; cbn [filter].
  - reflexivity.
  - destruct (f x); cbn [length]; now rewrite IH.
  - destruct (f x), (f y); reflexivity.
  - now rewrite IH1.
Qed.

Lemma mark_ext l l' t :
  Permutation l l' -> map (mark l) t = map (mark l') t.
Proof.
  intros H. apply map_ext. intros p. unfold mark, in_top3.
  now rewrite (stars_above_perm _ _ p H).
Qed.

Lemma in_top3_mark l p : in_top3 l (mark l p) = in_top3 l p.
Proof.
  unfold in_top3, stars_above, mark at 1.
  destruct (in_top3 l p); [|reflexivity].
  now rewrite stars_of_feature.
Qed.

Lemma featured_mark l p :
  unranked p = true -> get (mark l p) "featured" = JBool (in_top3 l p).
Proof.
  unfold unranked, has_stars, mark. intros H.
  apply andb_prop in H as [H Hf]. apply andb_prop in H as [Ho _].
  destruct (in_top3 l p).
  - now apply featured_feature.
  - destruct (get p "featured") as [| |[|]| | | |]; try discriminate. reflexivity.
Qed.

(** Ranking a collection whose sort is strictly descending marks each
    record by its place among the stars. *)
Lemma rank_is_mark l :
  StronglySorted stars_gt (sort_by by_stars_desc l) ->
  rank l = map (mark l) (sort_by by_stars_desc l).
Proof.
  intros Hs. unfold rank, mark_featured.
  rewrite (mark_ext _ _ _ (Permutation_sym (sort_perm l))).
  pose proof (mark_sorted_suffix 3 [] (sort_by by_stars_desc l) Hs) as E.
  cbn [app length] in E. rewrite Nat.sub_0_r in E.
  unfold mark, in_top3. now rewrite E.
Qed.

Lemma rank_short l :
  (length l < 3)%nat -> rank l = map (mark l) (sort_by by_stars_desc l).
Proof.
  intros Hl. unfold rank, mark_featured.
  assert (Hlen : length (sort_by by_stars_desc l) = length l)
    by apply Permutation_length, sort_perm.
  rewrite firstn_all2, skipn_all2, app_nil_r by lia.
  apply map_ext. intros p. unfold mark, in_top3.
  pose proof (stars_above_le l p).
  assert (E : (stars_above l p <? 3)%nat = true) by (apply Nat.ltb_lt; lia).
  now rewrite E.
Qed.

Lemma sort_strict l :
  NoDup (map stars_of l) -> StronglySorted stars_gt (sort_by by_stars_desc l).
Proof.
  intros Hn. apply sorted_strict; [apply sort_sorted|].
  eapply Permutation_NoDup; [|exact Hn].
  apply Permutation_map, Permutation_sym, sort_perm.
Qed.

Lemma top3_count l :
  (length l < 3)%nat \/ NoDup (map stars_of l) ->
  length (filter (in_top3 l) l) = Nat.min 3 (length l).
Proof.
  intros [Hl | Hn].
  - assert (E : filter (in_top3 l) l = l).
    { assert (G : forall t, filter (in_top3 l) t = t).
      { induction t as [|p t IH]; [reflexivity|]. cbn [filter].
        unfold in_top3 at 1. pose proof (stars_above_le l p).
        assert (E : (stars_above l p <? 3)%nat = true) by (apply Nat.ltb_lt; lia).
        now rewrite E, IH. }
      apply G. }
    rewrite E. lia.
  - pose proof (sort_strict l Hn) as Hs.
    rewrite (filter_perm_length _ _ _ (Permutation_sym (sort_perm l))).
    assert (E : filter (in_top3 l) (sort_by by_stars_desc l)
                = firstn 3 (sort_by by_stars_desc l)).
    { pose proof (top_sorted_suffix 3 [] (sort_by by_stars_desc l) Hs) as E.
      cbn [app length] in E. rewrite Nat.sub_0_r in E. rewrite <- E.
      apply filter_ext. intros p. unfold in_top3.
      now rewrite (stars_above_perm _ _ p (Permutation_sym (sort_perm l))). }
    rewrite E, length_firstn.
    now rewrite (Permutation_length (sort_perm l)).
Qed.

(** C2. Ranking a collection of records that all start unfeatured, with
    fewer than 3 records or with distinct star counts: the result is the
    collection with [featured] set on exactly the records that have fewer
    than 3 records above them in stars, and untouched otherwise; each
    record of the result carries [featured = true] or [false] accordingly;
    and the records so featured number 3, or all of them when there are
    fewer than 3. *)
Theorem rank_features_top3 (l : list jsval) :
  forallb unranked l = true ->
  (length l < 3)%nat \/ NoDup (map stars_of l) ->
  Permutation (rank l) (map (mark l) l)
  /\ Forall (fun p => get p "featured" = JBool (in_top3 l p)) (rank l)
  /\ length (filter (in_top3 l) l) = Nat.min 3 (length l).
Proof.
  intros Hu Hc.
  assert (E : rank l = map (mark l) (sort_by by_stars_desc l)).
  { destruct Hc as [Hl | Hn]; [now apply rank_short|].
    apply rank_is_mark, sort_strict, Hn. }
  split; [|split].
  - rewrite E. apply Permutation_map, sort_perm.
  - rewrite E. apply Forall_forall. intros q Hq.
    apply in_map_iff in Hq as [p [<- Hp]].
    rewrite in_top3_mark. apply featured_mark.
    rewrite forallb_forall in Hu. apply Hu.
    eapply Permutation_in; [apply sort_perm | exact Hp].
  - now apply top3_count.
Qed.

Lemma rank_features_top3_witness :
  Permutation (rank four_projects) (map (mark four_projects) four_projects)
  /\ Forall (fun p => get p "featured" = JBool (in_top3 four_projects p))
       (rank four_projects)
  /\ length (filter (in_top3 four_projects) four_projects)
     = Nat.min 3 (length four_projects).
Proof.
  apply (rank_features_top3 four_projects); [reflexivity|].
  right. vm_compute.
  repeat (constructor; [simpl; intuition discriminate|]). constructor.
Defined.

Example rank_four_projects :
  map (fun p => (get p "name", get p "stars", get p "featured"))
      (rank four_projects)
  = [ (JStr (lit "b"), JNum 9, JBool true);
      (JStr (lit "d"), JNum 7, JBool true);
      (JStr (lit "a"), JNum 5, JBool true);
      (JStr (lit "c"), JNum 1, JBool false) ].
Proof. reflexivity. Qed.

Example rank_two_projects :
  map (fun p => (get p "name", get p "featured"))
      (rank [project "a" 2; project "b" 4])
  = [ (JStr (lit "b"), JBool true); (JStr (lit "a"), JBool true) ].
Proof. reflexivity. Qed.

(* ================================================================== *)
(** * Collector *)
(* ================================================================== *)

Lemma fetchJson_run upstream url log :
  fetchJson upstream url log =
  (match upstream url with
   | NetworkFailure => Throw FetchFailed
   | Response status _ json =>
       if status_ok status then
         match json with Some v => Return v | None => Throw SyntaxError end
       else Throw (http_error status url)
   end, log ++ [url]).
Proof.
  unfold fetchJson, bind, fetch.
  destruct (upstream url) as [|status text json]; [reflexivity|].
  destruct (status_ok status); [|reflexivity].
  destruct json; reflexivity.
Qed.

Lemma fetchRaw_run upstream url log :
  fetchRaw upstream url log =
  (match upstream url with
   | NetworkFailure => Throw FetchFailed
   | Response status text _ =>
       if status_ok status then Return (JStr text) else Return JNull
   end, log ++ [url]).
Proof.
  unfold fetchRaw, bind, fetch.
  destruct (upstream url) as [|status text json]; [reflexivity|].
  destruct (status_ok status); reflexivity.
Qed.

Lemma listRepos_loop_step upstream fuel user page all log :
  listRepos_loop upstream (S fuel) user page all log =
  match fetchJson upstream (repos_url user page) log with
  | (Return data, log') =>
      match spread data log' with
      | (Return items, log'') =>
          if js_lt (js_length data) perPage then (Return (all ++ items), log'')
          else listRepos_loop upstream fuel user (S page) (all ++ items) log''
      | (Throw e, log'') => (Throw e, log'')
      | (OutOfFuel, log'') => (OutOfFuel, log'')
      end
  | (Throw e, log') => (Throw e, log')
  | (OutOfFuel, log') => (OutOfFuel, log')
  end.
Proof.
  cbn [listRepos_loop]. unfold bind.
  destruct (fetchJson upstream (repos_url user page) log) as [[data|e|] log'];
    try reflexivity.
  destruct (spread data log') as [[items|e|] log'']; try reflexivity.
  destruct (js_lt (js_length data) perPage); reflexivity.
Qed.

Lemma listRepos_loop_pages upstream user full last :
  forall page all fuel log,
    serves upstream user page (full ++ [last]) ->
    forallb full_page full = true ->
    full_page last = false ->
    (length full < fuel)%nat ->
    listRepos_loop upstream fuel user page all log
    = (Return (all ++ concat (full ++ [last])),
       log ++ map (repos_url user) (seq page (S (length full)))).
Proof.
  induction full as [|p full IH]; intros page all fuel log Hs Hf Hl Hfuel.
  - destruct fuel as [|fuel]; [cbn in Hfuel; lia|].
    cbn [app serves] in Hs. destruct Hs as [(status & text & Hok & Hu) _].
    rewrite listRepos_loop_step, fetchJson_run, Hu, Hok.
    cbn [spread ret js_length js_lt].
    unfold full_page in Hl. apply Nat.leb_gt in Hl.
    assert (E : (Z.of_nat (length last) <? perPage)%Z = true)
      by (apply Z.ltb_lt; unfold perPage; lia).
    rewrite E. cbn [app concat length seq map]. now rewrite app_nil_r.
  - destruct fuel as [|fuel]; [cbn in Hfuel; lia|].
    cbn [app serves] in Hs. destruct Hs as [(status & text & Hok & Hu) Hs].
    cbn [forallb] in Hf. apply andb_prop in Hf as [Hp Hf].
    rewrite listRepos_loop_step, fetchJson_run, Hu, Hok.
    cbn [spread ret js_length js_lt].
    unfold full_page in Hp. apply Nat.leb_le in Hp.
    assert (E : (Z.of_nat (length p) <? perPage)%Z = false)
      by (apply Z.ltb_ge; unfold perPage; lia).
    rewrite E.
    rewrite (IH (S page) (all ++ p) fuel (log ++ [repos_url user page]) Hs Hf Hl)
      by (cbn [length] in Hfuel; lia).
    cbn [app concat length seq map].
    now rewrite <- !app_assoc.
Qed.

Lemma length_concat_sum (pages : list (list jsval)) :
  length (concat pages) = list_sum (map (@length jsval) pages).
Proof.
  induction pages as [|p pages IH]; [reflexivity|].
  cbn [concat map list_sum]. now rewrite length_app, IH.
Qed.

(** C4. When the upstream answers pages 1, 2, ... with full pages (100
    items or more) and then one short page, the Collector requests
    exactly those pages, in order and beginning at page 1, stops after
    the short page, and returns the pages concatenated in order. *)
Theorem listRepos_pages upstream user (full : list (list jsval))
        (last : list jsval) (fuel : nat) :
  serves upstream user 1 (full ++ [last]) ->
  forallb full_page full = true ->
  full_page last = false ->
  (length full < fuel)%nat ->
  exists items log,
    listRepos upstream fuel user [] = (Return items, log)
    /\ items = concat (full ++ [last])
    /\ length items = list_sum (map (@length jsval) (full ++ [last]))
    /\ log = map (repos_url user) (seq 1 (S (length full)))
    /\ length log = S (length full).
Proof.
  intros Hs Hf Hl Hfuel.
  exists (concat (full ++ [last])),
         (map (repos_url user) (seq 1 (S (length full)))).
  split; [|split; [reflexivity|split; [apply length_concat_sum|split;
    [reflexivity|now rewrite length_map, length_seq]]]].
  unfold listRepos.
  now rewrite (listRepos_loop_pages upstream user full last 1 [] fuel [] Hs Hf Hl Hfuel).
Qed.

(** Pages of 100, 100 and 37 items: 237 items, 3 requests. *)
Lemma listRepos_pages_witness :
  exists items log,
    listRepos three_pages 5 octo [] = (Return items, log)
    /\ items = concat ([numbered 1 100; numbered 101 100] ++ [numbered 201 37])
    /\ length items = 237%nat
    /\ log = [repos_url octo 1; repos_url octo 2; repos_url octo 3]
    /\ length log = 3%nat.
Proof.
  apply (listRepos_pages three_pages octo
           [numbered 1 100; numbered 101 100] (numbered 201 37) 5).
  - cbn [app serves]. repeat split; exists 200%Z, []; split; reflexivity.
  - reflexivity.
  - reflexivity.
  - cbn [length]. lia.
Defined.

Example listRepos_three_pages :
  listRepos three_pages 3 octo []
  = (Return (numbered 1 237),
     [repos_url octo 1; repos_url octo 2; repos_url octo 3]).
Proof. vm_compute. reflexivity. Qed.

(** A request of the listing that did not succeed ends the loop with
    the error of that request. *)
Lemma listRepos_loop_failure upstream user :
  forall fuel page all log out log',
    listRepos_loop upstream fuel user page all log = (out, log') ->
    exists added,
      log' = log ++ added
      /\ forall url e,
           In url added -> upstream_error (upstream url) url = Some e ->
           out = Throw e.
Proof.
  induction fuel as [|fuel IH]; intros page all log out log' H.
  - cbn in H. inversion H; subst. exists []. split; [now rewrite app_nil_r|].
    intros url e [].
  - rewrite listRepos_loop_step, fetchJson_run in H.
    set (u := repos_url user page) in *.
    assert (One : forall o,
      (forall e, upstream_error (upstream u) u = Some e -> o = Throw e) ->
      (o, log ++ [u]) = (out, log') ->
      exists added, log' = log ++ added
        /\ forall url e, In url added ->
             upstream_error (upstream url) url = Some e -> out = Throw e).
    { intros o Ho Heq. inversion Heq; subst. exists [u]. split; [reflexivity|].
      intros url e [<-|[]] He. now apply Ho. }
    destruct (upstream u) as [|status text json] eqn:Hu.
    + apply (One (Throw FetchFailed)); [|exact H].
      cbn. intros e He. now inversion He.
    + destruct (status_ok status) eqn:Hok.
      * destruct json as [data|].
        -- unfold spread in H.
           destruct data as [| | | |s|l|props];
             try (apply (One (Throw TypeError)); [|exact H];
                  cbn; rewrite Hok; discriminate).
           ++ cbn [ret] in H.
              destruct (js_lt (js_length (JStr s)) perPage).
              ** apply (One (Return (all ++ code_points s))); [|exact H].
                 cbn; rewrite Hok; discriminate.
              ** destruct (IH _ _ _ _ _ H) as (added & -> & Ha).
                 exists (u :: added). split; [now rewrite <- app_assoc|].
                 intros url e [<-|Hin] He.
                 --- rewrite Hu in He. cbn in He. rewrite Hok in He. discriminate.
                 --- now apply (Ha url).
           ++ cbn [ret] in H.
              destruct (js_lt (js_length (JArr l)) perPage).
              ** apply (One (Return (all ++ l))); [|exact H].
                 cbn; rewrite Hok; discriminate.
              ** destruct (IH _ _ _ _ _ H) as (added & -> & Ha).
                 exists (u :: added). split; [now rewrite <- app_assoc|].
                 intros url e [<-|Hin] He.
                 --- rewrite Hu in He. cbn in He. rewrite Hok in He. discriminate.
                 --- now apply (Ha url).
        -- apply (One (Throw SyntaxError)); [|exact H].
           cbn; rewrite Hok; discriminate.
      * apply (One (Throw (http_error status u))); [|exact H].
        cbn. rewrite Hok. intros e He. now inversion He.
Qed.

Lemma main_listing_throws upstream fuel user now disk_ok e log :
  listRepos upstream fuel user [] = (Throw e, log) ->
  main upstream fuel user now disk_ok [] = (Return (Exit1 e), log).
Proof.
  intros H. unfold main, try_catch, bind. rewrite H. reflexivity.
Qed.

(** C5. If a page request of the listing gets a non-success status (or
    no answer at all), [listRepos] ends by throwing the error of that
    request, whatever pages came before: its caller gets no items.  The
    generator then writes no document and exits with that error. *)
Theorem listRepos_aborts_on_failure upstream (fuel : nat) (user now : jsstring)
        (disk_ok : bool) (url : jsstring) (e : exn) :
  In url (requests (listRepos upstream fuel user)) ->
  upstream_error (upstream url) url = Some e ->
  listRepos upstream fuel user []
  = (Throw e, requests (listRepos upstream fuel user))
  /\ main upstream fuel user now disk_ok []
     = (Return (Exit1 e), requests (listRepos upstream fuel user)).
Proof.
  unfold requests. intros Hin He.
  destruct (listRepos upstream fuel user []) as [out log] eqn:H.
  cbn [snd] in *.
  destruct (listRepos_loop_failure upstream user _ _ _ _ _ _ H)
    as (added & Hlog & Ha).
  cbn [app] in Hlog. subst added.
  assert (E : out = Throw e) by now apply (Ha url).
  subst out. split; [reflexivity|]. now apply main_listing_throws.
Qed.

Lemma listRepos_aborts_on_failure_witness :
  listRepos second_page_fails 5 octo []
  = (Throw (http_error 500 (repos_url octo 2)),
     requests (listRepos second_page_fails 5 octo))
  /\ main second_page_fails 5 octo (lit "2024-05-01T10:00:00.000Z") true []
     = (Return (Exit1 (http_error 500 (repos_url octo 2))),
        requests (listRepos second_page_fails 5 octo)).
Proof.
  apply (listRepos_aborts_on_failure second_page_fails 5 octo
           (lit "2024-05-01T10:00:00.000Z") true
           (repos_url octo 2) (http_error 500 (repos_url octo 2))).
  - vm_compute. right. left. reflexivity.
  - vm_compute. reflexivity.
Defined.

Example listRepos_second_page_fails :
  listRepos second_page_fails 5 octo []
  = (Throw (Error (lit "HTTP 500 https://api.github.com/users/octo/repos?per_page=100&page=2&sort=updated")),
     [repos_url octo 1; repos_url octo 2]).
Proof. vm_compute. reflexivity. Qed.

(* ================================================================== *)
(** * Enricher *)
(* ================================================================== *)

Lemma getRepoReadme_run upstream full log :
  getRepoReadme upstream full log =
  (Return match upstream (readme_url full) with
          | Response status text _ =>
              if status_ok status then JStr text else JNull
          | NetworkFailure => JNull
          end, log ++ [readme_url full]).
Proof.
  unfold getRepoReadme, try_catch. rewrite fetchRaw_run.
  destruct (upstream (readme_url full)) as [|status text json]; [reflexivity|].
  destruct (status_ok status); reflexivity.
Qed.

Lemma contributor_run c log :
  contributor c log =
  if not_nullish c then (Return (contributor_obj c), log) else (Throw TypeError, log).
Proof.
  unfold contributor, prop, bind, not_nullish.
  destruct (is_nullish c); reflexivity.
Qed.

Lemma mapM_contributor l log :
  mapM contributor l log =
  if forallb not_nullish l then (Return (map contributor_obj l), log)
  else (Throw TypeError, log).
Proof.
  induction l as [|c l IH]; [reflexivity|].
  cbn [mapM forallb map]. unfold bind at 1. rewrite contributor_run.
  destruct (not_nullish c); [|reflexivity].
  unfold bind. rewrite IH. cbn [andb].
  destruct (forallb not_nullish l); reflexivity.
Qed.

Lemma getContributors_run upstream full log :
  getContributors upstream full log =
  (Return (contributors_of (upstream (contributors_url full))),
   log ++ [contributors_url full]).
Proof.
  unfold getContributors, try_catch, bind. rewrite fetchJson_run.
  unfold contributors_of.
  destruct (upstream (contributors_url full)) as [|status text json];
    [reflexivity|].
  destruct (status_ok status); [|destruct json as [[]|]; reflexivity].
  destruct json as [data|]; [|reflexivity].
  destruct data; try reflexivity.
  unfold array_map, bind. rewrite mapM_contributor. cbn [andb].
  destruct (forallb not_nullish l); reflexivity.
Qed.

Lemma processRepo_run upstream r log :
  not_nullish r = true ->
  processRepo upstream r log
  = (Return (enriched upstream r), log ++ enrichment_urls r).
Proof.
  unfold not_nullish. intros Hr. apply negb_true_iff in Hr.
  unfold processRepo, prop. rewrite Hr.
  unfold bind at 1. cbn [ret].
  unfold bind at 1. unfold try_catch at 1. unfold bind at 1.
  rewrite getRepoReadme_run.
  unfold enriched, enrichment_urls, readme_excerpt_of.
  set (full := get r "full_name").
  set (base := repoObj r full).
  assert (E : forall v log1,
    (repoObj <- try_catch
         (contributors <- getContributors upstream full ;;
          ret (set_prop v "contributors" contributors))
         (fun _ => ret (set_prop v "contributors" (JArr []))) ;;
     ret repoObj) log1
    = (Return (set_prop v "contributors"
                 (contributors_of (upstream (contributors_url full)))),
       log1 ++ [contributors_url full])).
  { intros v log1. unfold bind, try_catch. rewrite getContributors_run.
    reflexivity. }
  destruct (upstream (readme_url full)) as [|status text json].
  - cbn [truthy ret]. rewrite E. now rewrite <- app_assoc.
  - destruct (status_ok status).
    + destruct text as [|c text].
      * cbn [truthy ret]. rewrite E. now rewrite <- app_assoc.
      * cbn [truthy]. unfold excerptMarkdown_of, bind at 1.
        cbn [truthy negb ret]. rewrite E. now rewrite <- app_assoc.
    + cbn [truthy ret]. rewrite E. now rewrite <- app_assoc.
Qed.










Example flaky_enrichment_records :
  map (fun p => (get p "name", get p "readme_excerpt", get p "contributors"))
      (map (enriched flaky_enrichment) [summary "a" 5; summary "b" 9])
  = [ (JStr (lit "a"), JStr [], JArr []);
      (JStr (lit "b"), JStr (lit "hello docs"),
       JArr [JObj [("login", JStr (lit "ann"));
                   ("avatar", JStr (lit "https://a/ann.png"));
                   ("url", JStr (lit "https://github.com/ann"));
                   ("contributions", JNum 12)]]) ].
Proof. vm_compute. reflexivity. Qed.

(* ================================================================== *)
(** * Client: the address of the request *)
(* ================================================================== *)

Lemma hex_digit_unreserved_nat k :
  (k < 16)%nat -> is_unreserved (hex_digit (N.of_nat k)) = true.
Proof.
  intros H. do 16 (destruct k as [|k]; [reflexivity|]). lia.
Qed.

Lemma hex_digit_unreserved n : (n < 16)%N -> is_unreserved (hex_digit n) = true.
Proof.
  intros H. rewrite <- (N2Nat.id n). apply hex_digit_unreserved_nat. lia.
Qed.

Lemma percent_safe b : (b < 256)%N -> forallb url_safe (percent b) = true.
Proof.
  intros H. unfold percent, url_safe. cbn [forallb].
  rewrite !hex_digit_unreserved;
    [reflexivity | apply N.mod_lt; lia | apply N.Div0.div_lt_upper_bound; lia].
Qed.

Lemma utf8_bytes cp :
  (cp < 1114112)%N -> Forall (fun b => (b < 256)%N) (utf8 cp).
Proof.
  intros H. unfold utf8.
  destruct (N.ltb_spec cp 128); [repeat constructor; lia|].
  assert (M : (cp mod 64 < 64)%N) by (apply N.mod_lt; lia).
  assert (M2 : ((cp / 64) mod 64 < 64)%N) by (apply N.mod_lt; lia).
  assert (M3 : ((cp / 4096) mod 64 < 64)%N) by (apply N.mod_lt; lia).
  destruct (N.ltb_spec cp 2048).
  { assert (cp / 64 < 32)%N by (apply N.Div0.div_lt_upper_bound; lia).
    repeat constructor; lia. }
  destruct (N.ltb_spec cp 65536).
  { assert (cp / 4096 < 16)%N by (apply N.Div0.div_lt_upper_bound; lia).
    repeat constructor; lia. }
  assert (cp / 262144 < 5)%N by (apply N.Div0.div_lt_upper_bound; lia).
  repeat constructor; lia.
Qed.

Lemma escapes_safe cp :
  (cp < 1114112)%N -> forallb url_safe (flat_map percent (utf8 cp)) = true.
Proof.
  intros H. pose proof (utf8_bytes cp H) as B.
  induction B as [|b l Hb _ IH]; [reflexivity|].
  cbn [flat_map]. now rewrite forallb_app, (percent_safe b Hb), IH.
Qed.

Lemma encodeURIComponent_cons c s :
  encodeURIComponent (c :: s) =
  if is_unreserved c then option_map (cons c) (encodeURIComponent s)
  else if is_low_surrogate c then None
  else if is_high_surrogate c then
    match s with
    | d :: s' =>
        if is_low_surrogate d then
          option_map
            (app (flat_map percent
                    (utf8 (65536 + (c - 55296) * 1024 + (d - 56320))%N)))
            (encodeURIComponent s')
        else None
    | [] => None
    end
  else option_map (app (flat_map percent (utf8 c))) (encodeURIComponent s).
Proof. reflexivity. Qed.

Lemma encode_safe n :
  forall s e,
    (length s <= n)%nat ->
    forallb valid_unit s = true -> encodeURIComponent s = Some e ->
    forallb url_safe e = true.
Proof.
  induction n as [|n IH]; intros s e Hn Hv He.
  - destruct s; [|cbn in Hn; lia]. injection He as <-. reflexivity.
  - destruct s as [|c s]; [injection He as <-; reflexivity|].
    cbn [forallb] in Hv. apply andb_prop in Hv as [Hc Hv].
    unfold valid_unit in Hc. apply N.ltb_lt in Hc.
    cbn [length] in Hn. rewrite encodeURIComponent_cons in He.
    destruct (is_unreserved c) eqn:U.
    + destruct (encodeURIComponent s) as [e'|] eqn:E; [|discriminate].
      injection He as <-. cbn [forallb]. unfold url_safe at 1. rewrite U.
      apply (IH s e'); [lia | exact Hv | exact E].
    + destruct (is_low_surrogate c); [discriminate|].
      destruct (is_high_surrogate c) eqn:Hi.
      * destruct s as [|d s]; [discriminate|].
        destruct (is_low_surrogate d) eqn:Lo; [|discriminate].
        destruct (encodeURIComponent s) as [e'|] eqn:E; [|discriminate].
        assert (B : (65536 + (c - 55296) * 1024 + (d - 56320) < 1114112)%N).
        { unfold is_high_surrogate in Hi. unfold is_low_surrogate in Lo.
          apply andb_prop in Hi as [H1 H2]. apply andb_prop in Lo as [L1 L2].
          apply N.leb_le in H1, H2, L1, L2. unfold jschar in *. lia. }
        pose proof (escapes_safe _ B) as S.
        injection He as <-. rewrite forallb_app.
        cbn [forallb] in Hv. apply andb_prop in Hv as [_ Hv].
        rewrite (IH s e'); [|cbn [length] in Hn; lia | exact Hv | exact E].
        rewrite andb_true_r. exact S.
      * destruct (encodeURIComponent s) as [e'|] eqn:E; [|discriminate].
        injection He as <-. rewrite forallb_app.
        rewrite (IH s e'); [|lia | exact Hv | exact E].
        rewrite escapes_safe; [reflexivity | lia].
Qed.

Lemma encode_unreserved s :
  forallb is_unreserved s = true -> encodeURIComponent s = Some s.
Proof.
  induction s as [|c s IH]; [reflexivity|]. cbn [forallb]. intros H.
  apply andb_prop in H as [Hc Hs]. rewrite encodeURIComponent_cons.
  now rewrite Hc, (IH Hs).
Qed.

Lemma safe_lacks d e :
  url_safe d = false -> forallb url_safe e = true -> lacks d e = true.
Proof.
  intros Hd. unfold lacks. induction e as [|c e IH]; [reflexivity|].
  cbn [forallb]. intros H. apply andb_prop in H as [Hc He].
  rewrite (IH He), andb_true_r. apply negb_true_iff.
  destruct (N.eqb_spec c d) as [->|]; [congruence | reflexivity].
Qed.

Lemma take_while_all cls s : forallb cls s = true -> take_while cls s = s.
Proof.
  induction s as [|c s IH]; [reflexivity|].
  cbn [forallb take_while]. intros H. apply andb_prop in H as [Hc Hs].
  now rewrite Hc, IH.
Qed.

Lemma drop_while_app cls a b :
  forallb cls a = true -> drop_while cls (a ++ b) = drop_while cls b.
Proof.
  induction a as [|c a IH]; [reflexivity|].
  cbn [forallb app drop_while]. intros H. apply andb_prop in H as [Hc Ha].
  now rewrite Hc, IH.
Qed.

(** The address of the client request has no fragment, and its query is
    the one of the template, whatever the user name. *)
Lemma client_url_query username encoded :
  forallb valid_unit username = true ->
  encodeURIComponent username = Some encoded ->
  take_while (other_than "#") (client_url encoded) = client_url encoded
  /\ url_query (client_url encoded) = lit "per_page=100&sort=updated".
Proof.
  intros Hv He.
  pose proof (encode_safe (length username) username encoded (le_n _) Hv He) as S.
  assert (Hh : forallb (other_than "#") encoded = true)
    by (apply (safe_lacks (ch "#"%char)); [reflexivity | exact S]).
  assert (Hq : forallb (other_than "?") encoded = true)
    by (apply (safe_lacks (ch "?"%char)); [reflexivity | exact S]).
  assert (F : take_while (other_than "#") (client_url encoded)
              = client_url encoded).
  { apply take_while_all. unfold client_url.
    rewrite !forallb_app, Hh. reflexivity. }
  split; [exact F|].
  unfold url_query. rewrite F. unfold client_url.
  rewrite drop_while_app by reflexivity.
  rewrite drop_while_app by exact Hq.
  reflexivity.
Qed.

(* ================================================================== *)
(** * Client fallback *)
(* ================================================================== *)

Lemma mapM_mapRepo l log :
  mapM mapRepo l log =
  if forallb not_nullish l then (Return (map mappedObj l), log)
  else (Throw TypeError, log).
Proof.
  induction l as [|r l IH]; [reflexivity|].
  cbn [mapM forallb map]. unfold bind at 1. unfold mapRepo at 1, prop, bind.
  unfold not_nullish at 1.
  destruct (is_nullish r); [reflexivity|]. cbn [negb andb ret].
  rewrite IH. destruct (forallb not_nullish l); reflexivity.
Qed.


Lemma rank_length l : length (rank l) = length l.
Proof.
  unfold rank, mark_featured.
  rewrite length_app, length_map, <- length_app, firstn_skipn.
  apply Permutation_length, sort_perm.
Qed.

Lemma in_mark_featured q l :
  In q (mark_featured l) -> exists p, In p l /\ (q = p \/ q = feature p).
Proof.
  unfold mark_featured. rewrite in_app_iff, in_map_iff.
  intros [(p & <- & Hp)|Hq].
  - exists p. split; [|now right].
    rewrite <- (firstn_skipn 3 l). apply in_or_app. now left.
  - exists q. split; [|now left].
    rewrite <- (firstn_skipn 3 l). apply in_or_app. now right.
Qed.

Lemma mark_featured_in p l :
  In p l -> exists q, In q (mark_featured l) /\ (q = p \/ q = feature p).
Proof.
  intros Hp. rewrite <- (firstn_skipn 3 l) in Hp.
  apply in_app_or in Hp as [Hp|Hp]; unfold mark_featured.
  - exists (feature p). split; [|now right].
    apply in_or_app. left. now apply in_map.
  - exists p. split; [|now left]. apply in_or_app. now right.
Qed.







Example client_sees_100_of_150 :
  length big_account = 150%nat
  /\ option_map (@length jsval)
       (match fst (fetchGitHubRepos paged_api octo []) with
        | Return items => Some items
        | _ => None
        end) = Some 100%nat
  /\ requests (fetchGitHubRepos paged_api octo) = [client_url octo]
  /\ listRepos paged_api 5 octo []
     = (Return big_account, [repos_url octo 1; repos_url octo 2]).
Proof. vm_compute. repeat split. Qed.

(* ================================================================== *)
(** * Normalizer *)
(* ================================================================== *)

Lemma or_default_string v s :
  opt is_string v = true -> is_string (js_or v (JStr s)) = true.
Proof. destruct v as [| | | |[|]| |]; try discriminate; reflexivity. Qed.

Lemma or_default_count v :
  opt is_count v = true -> is_count (js_or v (JNum 0)) = true.
Proof.
  destruct v as [| | |z| | |]; try discriminate; try reflexivity.
  unfold opt, js_or. cbn. intros H. now destruct (z =? 0)%Z.
Qed.

Lemma topics_or_empty v :
  opt (is_array_of is_string) v = true ->
  is_array_of is_string
    (if truthy (js_and v (js_length v)) then v else JArr []) = true.
Proof.
  destruct v; try discriminate; try reflexivity.
  unfold opt. cbn [is_nullish orb]. intros H.
  destruct (truthy (js_and (JArr l) (js_length (JArr l)))); [exact H|reflexivity].
Qed.

Lemma license_or_empty v :
  opt wf_license v = true ->
  is_string
    (if truthy v then js_or (get v "spdx_id") (get v "name") else JStr []) = true.
Proof.
  destruct v; try discriminate; try reflexivity.
  unfold opt, wf_license. cbn [is_nullish orb is_object andb truthy].
  intros H. apply andb_prop in H as [Hs Hn].
  unfold js_or. destruct (truthy (get (JObj props) "spdx_id")) eqn:T; [|exact Hn].
  destruct (get (JObj props) "spdx_id"); try discriminate; reflexivity.
Qed.

Lemma readme_excerpt_is_string res : is_string (readme_excerpt_of res) = true.
Proof.
  destruct res as [|status text json]; [reflexivity|].
  cbn. now destruct (status_ok status).
Qed.

Lemma contributors_are_typed res :
  is_array_of wf_contributor (contributors_of res) = true.
Proof.
  destruct res as [|status text [[]|]]; try reflexivity.
  cbn [contributors_of].
  destruct (status_ok status && forallb not_nullish l); [|reflexivity].
  cbn [is_array_of]. induction l as [|c l IH]; [reflexivity|].
  cbn [map forallb]. now rewrite IH.
Qed.

Lemma literal_fields_intro
      name repo desc tags stars forks featured updated created language
      license thumbnail screenshots size issues branch more :
  is_string name = true -> is_string repo = true -> is_string desc = true ->
  is_array_of is_string tags = true ->
  is_count stars = true -> is_count forks = true ->
  is_boolean featured = true ->
  is_string updated = true -> is_string created = true ->
  is_string language = true -> is_string license = true ->
  is_string thumbnail = true -> is_empty_array screenshots = true ->
  is_count size = true -> is_count issues = true ->
  is_string branch = true ->
  literal_fields
    (JObj (("name", name) :: ("repo", repo) :: ("desc", desc) :: ("tags", tags)
           :: ("stars", stars) :: ("forks", forks) :: ("featured", featured)
           :: ("updated_at", updated) :: ("created_at", created)
           :: ("language", language) :: ("license", license)
           :: ("thumbnail", thumbnail) :: ("screenshots", screenshots)
           :: ("size", size) :: ("open_issues_count", issues)
           :: ("default_branch", branch) :: more)) = true.
Proof.
  intros. unfold literal_fields, field. cbn [has_own get lookup].
  cbn -[is_string is_count is_boolean is_array_of is_empty_array].
  repeat (apply andb_true_intro; split); assumption.
Qed.

Ltac split_wf H :=
  repeat match type of H with
         | (_ && _)%bool = true =>
             let H' := fresh "W" in apply andb_prop in H as [H H']
         end.

Lemma enriched_literal upstream r :
  enriched upstream r =
  JObj [ ("name", get r "name");
         ("repo", get r "html_url");
         ("desc", js_or (get r "description") (JStr []));
         ("tags", if truthy (js_and (get r "topics") (js_length (get r "topics")))
                  then get r "topics" else JArr []);
         ("stars", js_or (get r "stargazers_count") (JNum 0));
         ("forks", js_or (get r "forks_count") (JNum 0));
         ("featured", JBool false);
         ("updated_at", get r "updated_at");
         ("created_at", get r "created_at");
         ("language", js_or (get r "language") (JStr []));
         ("license", if truthy (get r "license")
                     then js_or (get (get r "license") "spdx_id")
                                (get (get r "license") "name")
                     else JStr []);
         ("thumbnail", JStr (safeThumbnail (get r "full_name")));
         ("screenshots", JArr []);
         ("size", js_or (get r "size") (JNum 0));
         ("open_issues_count", js_or (get r "open_issues_count") (JNum 0));
         ("default_branch", js_or (get r "default_branch") (JStr (lit "main")));
         ("readme_excerpt",
           readme_excerpt_of (upstream (readme_url (get r "full_name"))));
         ("contributors",
           contributors_of (upstream (contributors_url (get r "full_name")))) ].
Proof. reflexivity. Qed.

Lemma wf_summary_not_nullish r : wf_summary r = true -> not_nullish r = true.
Proof. destruct r; try discriminate; reflexivity. Qed.

Lemma enriched_complete upstream r :
  wf_summary r = true -> complete_record (enriched upstream r) = true.
Proof.
  intros W. unfold wf_summary in W. split_wf W.
  rewrite enriched_literal. unfold complete_record.
  rewrite literal_fields_intro;
    [ unfold field; cbn [has_own get lookup];
      cbn -[is_string is_array_of readme_excerpt_of contributors_of];
      now rewrite readme_excerpt_is_string, contributors_are_typed
    | .. ];
    solve [assumption | reflexivity
          | now apply or_default_string | now apply or_default_count
          | now apply topics_or_empty | now apply license_or_empty].
Qed.

Lemma mapped_complete r :
  wf_summary r = true ->
  complete_but_contributors (mappedObj r) = true
  /\ has_own (mappedObj r) "contributors" = false.
Proof.
  intros W. unfold wf_summary in W. split_wf W.
  split; [|reflexivity].
  unfold complete_but_contributors, mappedObj.
  rewrite literal_fields_intro; [reflexivity | ..];
    solve [assumption | reflexivity
          | now apply or_default_string | now apply or_default_count
          | now apply topics_or_empty | now apply license_or_empty].
Qed.

(** What the two mappings give on a well-formed upstream summary,
    whatever it omits of language, license, topics, description and
    default branch: the offline Normalizer gives a record with every
    field of the data model present and of its type (of an entry of
    [contributors], that it has its four properties); the client-side
    mapping gives every field present and of its type except
    [contributors]. *)
Lemma normalizer_fields upstream (r : jsval) (log : list jsstring) :
  wf_summary r = true ->
  processRepo upstream r log
  = (Return (enriched upstream r), log ++ enrichment_urls r)
  /\ complete_record (enriched upstream r) = true
  /\ mapRepo r log = (Return (mappedObj r), log)
  /\ complete_but_contributors (mappedObj r) = true
  /\ has_own (mappedObj r) "contributors" = false.
Proof.
  intros W. pose proof (wf_summary_not_nullish r W) as N.
  split; [now apply processRepo_run|].
  split; [now apply enriched_complete|].
  split.
  - unfold mapRepo, prop, bind. unfold not_nullish in N.
    apply negb_true_iff in N. now rewrite N.
  - now apply mapped_complete.
Qed.

Lemma normalizer_fields_witness :
  processRepo flaky_enrichment (summary "a" 5) []
  = (Return (enriched flaky_enrichment (summary "a" 5)),
     [] ++ enrichment_urls (summary "a" 5))
  /\ complete_record (enriched flaky_enrichment (summary "a" 5)) = true
  /\ mapRepo (summary "a" 5) [] = (Return (mappedObj (summary "a" 5)), [])
  /\ complete_but_contributors (mappedObj (summary "a" 5)) = true
  /\ has_own (mappedObj (summary "a" 5)) "contributors" = false.
Proof.
  apply (normalizer_fields flaky_enrichment (summary "a" 5) []). reflexivity.
Defined.

(** C1 fails on the client side.  For the well-formed summary of the
    repository [octo/a], the offline Normalizer gives a record with every
    field, in which [contributors] is the empty array when the
    contributors request gets no answer.  The client-side fetch, answered
    with that one summary, returns one record, which has the empty
    string as [readme_excerpt] and no [contributors] at all: the field
    reads [undefined], and the record is not complete. *)
Theorem client_record_lacks_contributors :
  wf_summary (summary "a" 5) = true
  /\ complete_record (enriched flaky_enrichment (summary "a" 5)) = true
  /\ get (enriched flaky_enrichment (summary "a" 5)) "contributors" = JArr []
  /\ fetchGitHubRepos single_repository octo []
     = (Return [feature (mappedObj (summary "a" 5))], [client_url octo])
  /\ get (feature (mappedObj (summary "a" 5))) "readme_excerpt" = JStr []
  /\ has_own (feature (mappedObj (summary "a" 5))) "contributors" = false
  /\ get (feature (mappedObj (summary "a" 5))) "contributors" = JUndefined
  /\ complete_record (feature (mappedObj (summary "a" 5))) = false.
Proof. repeat split. Qed.

Example defaults_for_omitted_fields :
  map (get (enriched flaky_enrichment (summary "a" 5)))
      ["desc"; "tags"; "language"; "license"; "default_branch"; "forks"]
  = [JStr []; JArr []; JStr []; JStr []; JStr (lit "main"); JNum 0].
Proof. reflexivity. Qed.

(* ================================================================== *)
(** * Excerpt derivation: what each replacement removes *)
(* ================================================================== *)

Lemma match_chr_miss c r x s :
  N.eqb x c = false -> match_here (Chr c :: r) (x :: s) = None.
Proof. intros H. cbn [match_here]. now rewrite H. Qed.

(** A lazy star in front of a literal walks over code units of its class
    that are not that literal. *)
Lemma lazy_star_until d r group cls taken rest m :
  forallb cls taken = true -> lacks d taken = true ->
  match_here (Chr d :: r) rest = Some m ->
  lazy_star (match_here (Chr d :: r)) group cls (taken ++ rest)
  = Some ((length taken + fst m)%nat, if group then taken else snd m).
Proof.
  intros Hc Hl Hm. induction taken as [|x taken IH].
  - cbn [app length Nat.add]. destruct rest; cbn [lazy_star]; rewrite Hm;
      reflexivity.
  - cbn [forallb] in Hc. apply andb_prop in Hc as [Hx Hc].
    unfold lacks in Hl. cbn [forallb] in Hl. apply andb_prop in Hl as [Hd Hl].
    apply negb_true_iff in Hd.
    cbn [app lazy_star]. rewrite (match_chr_miss d r x _ Hd), Hx.
    rewrite (IH Hc Hl). cbn [option_map longer fst snd length Nat.add].
    destruct group; reflexivity.
Qed.

(** Before the first code unit at which a pattern can start, a global
    replace copies. *)
Lemma replace_from_copy c r rep before s :
  lacks c before = true ->
  replace_from (Chr c :: r) rep (before ++ s) 0
  = before ++ replace_from (Chr c :: r) rep s 0.
Proof.
  induction before as [|x before IH]; intros H; [reflexivity|].
  unfold lacks in H. cbn [forallb] in H. apply andb_prop in H as [Hx H].
  apply negb_true_iff in Hx.
  cbn [app replace_from]. rewrite (match_chr_miss c r x _ Hx).
  now rewrite (IH H).
Qed.

(** At a match, a global replace puts the replacement and goes on after
    the match. *)
Lemma replace_from_match r rep x m rest g :
  match_here r (x :: m ++ rest) = Some (S (length m), g) ->
  replace_from r rep (x :: m ++ rest) 0 = rep g ++ replace_from r rep rest 0.
Proof.
  intros H. cbn [replace_from]. rewrite H. now rewrite replace_from_skip.
Qed.

Lemma match_here_chr c r x s :
  match_here (Chr c :: r) (x :: s)
  = if N.eqb x c then option_map (longer x false) (match_here r s) else None.
Proof. reflexivity. Qed.

Lemma match_here_lazy group cls r s :
  match_here (LazyStar group cls :: r) s = lazy_star (match_here r) group cls s.
Proof. reflexivity. Qed.

Lemma match_close url rest :
  forallb dot url = true -> lacks (ch ")"%char) url = true ->
  match_here
    (Chr (ch "]"%char) :: Chr (ch "("%char)
     :: LazyStar false dot :: [Chr (ch ")"%char)])
    (ch "]"%char :: ch "("%char :: url ++ ch ")"%char :: rest)
  = Some (S (S (length url + 1)), []).
Proof.
  intros Hu Lu.
  rewrite !match_here_chr, !N.eqb_refl, match_here_lazy.
  assert (U : match_here [Chr (ch ")"%char)] (ch ")"%char :: rest)
              = Some (1%nat, [])) by reflexivity.
  rewrite (lazy_star_until _ _ false dot url _ _ Hu Lu U). reflexivity.
Qed.

Lemma match_image alt url rest :
  forallb dot alt = true -> lacks (ch "]"%char) alt = true ->
  forallb dot url = true -> lacks (ch ")"%char) url = true ->
  match_here re_image
    (ch "!"%char
     :: (ch "["%char :: alt ++ ch "]"%char :: ch "("%char :: url ++ [ch ")"%char])
     ++ rest)
  = Some (S (length (ch "["%char :: alt ++ ch "]"%char :: ch "("%char
                     :: url ++ [ch ")"%char])), []).
Proof.
  intros Ha La Hu Lu. unfold re_image. cbn [app].
  rewrite !match_here_chr, !N.eqb_refl, match_here_lazy.
  replace ((alt ++ ch "]"%char :: ch "("%char :: url ++ [ch ")"%char]) ++ rest)
    with (alt ++ ch "]"%char :: ch "("%char :: url ++ ch ")"%char :: rest)
    by (rewrite <- !app_assoc; cbn [app]; now rewrite <- app_assoc).
  rewrite (lazy_star_until _ _ false dot alt _ _ Ha La (match_close url rest Hu Lu)).
  cbn [option_map longer fst snd length]. rewrite !length_app.
  cbn [length]. rewrite length_app. cbn [length].
  repeat (f_equal; try lia).
Qed.

(** X1. The image step removes an embed [![alt](url)] whole, when the
    alternative text has no [\]], the address no [)], neither holds a
    line terminator, and no [!] comes before the embed; what follows is
    cleaned in its turn. *)
Theorem strip_image_embed (before alt url rest : jsstring) :
  lacks (ch "!"%char) before = true ->
  forallb dot alt = true -> lacks (ch "]"%char) alt = true ->
  forallb dot url = true -> lacks (ch ")"%char) url = true ->
  stripImages (before ++ lit "![" ++ alt ++ lit "](" ++ url ++ lit ")" ++ rest)
  = before ++ stripImages rest.
Proof.
  intros Hb Ha La Hu Lu. unfold stripImages, replace_all, re_image.
  rewrite (replace_from_copy _ _ _ before _ Hb). f_equal.
  replace (lit "![" ++ alt ++ lit "](" ++ url ++ lit ")" ++ rest)
    with (ch "!"%char
          :: (ch "["%char :: alt ++ ch "]"%char :: ch "("%char
              :: url ++ [ch ")"%char]) ++ rest)
    by (cbn [app lit map list_ascii_of_string]; rewrite <- !app_assoc;
        cbn [app]; now rewrite <- app_assoc).
  exact (replace_from_match re_image removed _ _ _ []
           (match_image alt url rest Ha La Hu Lu)).
Qed.

Lemma strip_image_embed_witness :
  stripImages (lit "logo: " ++ lit "![" ++ lit "the logo" ++ lit "]("
               ++ lit "img/logo.png" ++ lit ")" ++ lit " and ![b](c).")
  = lit "logo: " ++ stripImages (lit " and ![b](c).").
Proof.
  apply (strip_image_embed (lit "logo: ") (lit "the logo") (lit "img/logo.png")
           (lit " and ![b](c).")); reflexivity.
Defined.

Lemma match_link text url rest :
  forallb dot text = true -> lacks (ch "]"%char) text = true ->
  forallb dot url = true -> lacks (ch ")"%char) url = true ->
  match_here re_link
    (ch "["%char
     :: (text ++ ch "]"%char :: ch "("%char :: url ++ [ch ")"%char]) ++ rest)
  = Some (S (length (text ++ ch "]"%char :: ch "("%char :: url ++ [ch ")"%char])),
          text).
Proof.
  intros Ht Lt Hu Lu. unfold re_link.
  rewrite !match_here_chr, !N.eqb_refl, match_here_lazy.
  replace ((text ++ ch "]"%char :: ch "("%char :: url ++ [ch ")"%char]) ++ rest)
    with (text ++ ch "]"%char :: ch "("%char :: url ++ ch ")"%char :: rest)
    by (rewrite <- !app_assoc; cbn [app]; now rewrite <- app_assoc).
  rewrite (lazy_star_until _ _ true dot text _ _ Ht Lt (match_close url rest Hu Lu)).
  cbn [option_map longer fst snd length]. rewrite !length_app.
  cbn [length]. rewrite length_app. cbn [length].
  repeat (f_equal; try lia).
Qed.

(** X2. The link step puts the visible text in the place of a link
    [[text](url)], when the text has no [\]], the address no [)],
    neither holds a line terminator, and no [[] comes before the link;
    what follows is cleaned in its turn. *)
Theorem collapse_link (before text url rest : jsstring) :
  lacks (ch "["%char) before = true ->
  forallb dot text = true -> lacks (ch "]"%char) text = true ->
  forallb dot url = true -> lacks (ch ")"%char) url = true ->
  collapseLinks (before ++ lit "[" ++ text ++ lit "](" ++ url ++ lit ")" ++ rest)
  = before ++ text ++ collapseLinks rest.
Proof.
  intros Hb Ht Lt Hu Lu. unfold collapseLinks, replace_all, re_link.
  rewrite (replace_from_copy _ _ _ before _ Hb). f_equal.
  replace (lit "[" ++ text ++ lit "](" ++ url ++ lit ")" ++ rest)
    with (ch "["%char
          :: (text ++ ch "]"%char :: ch "("%char :: url ++ [ch ")"%char]) ++ rest)
    by (cbn [app lit map list_ascii_of_string]; rewrite <- !app_assoc;
        cbn [app]; now rewrite <- app_assoc).
  exact (replace_from_match re_link group1 _ _ _ text
           (match_link text url rest Ht Lt Hu Lu)).
Qed.

Lemma collapse_link_witness :
  collapseLinks (lit "see " ++ lit "[" ++ lit "the docs" ++ lit "]("
                 ++ lit "https://d.example/x" ++ lit ")" ++ lit " now")
  = lit "see " ++ lit "the docs" ++ collapseLinks (lit " now").
Proof.
  apply (collapse_link (lit "see ") (lit "the docs") (lit "https://d.example/x")
           (lit " now")); reflexivity.
Defined.

Lemma forallb_any s : forallb any s = true.
Proof.
  induction s as [|x s IH]; [reflexivity|]. cbn [forallb].
  now rewrite any_true.
Qed.

Lemma match_fence body rest :
  lacks (ch "`"%char) body = true ->
  match_here re_fence
    (ch "`"%char
     :: (ch "`"%char :: ch "`"%char
         :: body ++ [ch "`"%char; ch "`"%char; ch "`"%char]) ++ rest)
  = Some (S (length (ch "`"%char :: ch "`"%char
                     :: body ++ [ch "`"%char; ch "`"%char; ch "`"%char])), []).
Proof.
  intros Lb. unfold re_fence. cbn [app].
  rewrite !match_here_chr, !N.eqb_refl, match_here_lazy.
  replace ((body ++ [ch "`"%char; ch "`"%char; ch "`"%char]) ++ rest)
    with (body ++ ch "`"%char :: ch "`"%char :: ch "`"%char :: rest)
    by (now rewrite <- app_assoc).
  assert (C : match_here
                (Chr (ch "`"%char) :: Chr (ch "`"%char) :: [Chr (ch "`"%char)])
                (ch "`"%char :: ch "`"%char :: ch "`"%char :: rest)
              = Some (3%nat, [])) by reflexivity.
  rewrite (lazy_star_until _ _ false any body _ _ (forallb_any body) Lb C).
  cbn [option_map longer fst snd length]. rewrite length_app. cbn [length].
  repeat (f_equal; try lia).
Qed.

(** X3. The fence step removes a fenced block whole, fences included and
    over any number of lines, when the block has no backquote inside and
    no backquote comes before it; what follows is cleaned in its turn. *)
Theorem strip_fenced_block (before body rest : jsstring) :
  lacks (ch "`"%char) before = true ->
  lacks (ch "`"%char) body = true ->
  stripFences (before ++ lit "```" ++ body ++ lit "```" ++ rest)
  = before ++ stripFences rest.
Proof.
  intros Hb Lb. unfold stripFences, replace_all, re_fence.
  rewrite (replace_from_copy _ _ _ before _ Hb). f_equal.
  replace (lit "```" ++ body ++ lit "```" ++ rest)
    with (ch "`"%char
          :: (ch "`"%char :: ch "`"%char
              :: body ++ [ch "`"%char; ch "`"%char; ch "`"%char]) ++ rest)
    by (cbn [app lit map list_ascii_of_string]; now rewrite <- app_assoc).
  exact (replace_from_match re_fence removed _ _ _ [] (match_fence body rest Lb)).
Qed.

Lemma strip_fenced_block_witness :
  stripFences (lit "run: " ++ lit "```" ++ lit ("sh" ++ nl ++ "make all" ++ nl)
               ++ lit "```" ++ lit (nl ++ "done"))
  = lit "run: " ++ stripFences (lit (nl ++ "done")).
Proof.
  apply (strip_fenced_block (lit "run: ") (lit ("sh" ++ nl ++ "make all" ++ nl))
           (lit (nl ++ "done"))); reflexivity.
Defined.

(** X4. Whatever the text, an excerpt derived with a limit of 3 or more
    (1200 by default, 1400 offline) has at most that many code units,
    the ellipsis included. *)
Theorem excerpt_within_limit (md : jsstring) (maxLen : Z) :
  (3 <= maxLen)%Z ->
  (Z.of_nat (length (excerptMarkdown md maxLen)) <= maxLen)%Z.
Proof.
  intros H. unfold excerptMarkdown. destruct md as [|c md]; [cbn; lia|].
  cbv zeta. destruct (Z.of_nat (length (cleaned (c :: md))) <=? maxLen)%Z eqn:L.
  - now apply Z.leb_le.
  - apply Z.leb_gt in L. unfold slice0.
    assert (E : (maxLen - 3 <? 0)%Z = false) by (apply Z.ltb_ge; lia).
    rewrite E, length_app, length_firstn.
    change (length ellipsis) with 3%nat. lia.
Qed.

Lemma excerpt_within_limit_witness :
  (Z.of_nat (length (excerptMarkdown (lit "abcdefghijklmnop") 10)) <= 10)%Z.
Proof.
  apply (excerpt_within_limit (lit "abcdefghijklmnop") 10). lia.
Defined.

Example excerpt_limit_below_three :
  excerptMarkdown (lit "abcdef") 2 = lit "abcde...".
Proof. reflexivity. Qed.

(** ** After the heading step *)

Lemma test_cons r c s :
  test r (c :: s) =
  match match_here r (c :: s) with Some _ => true | None => test r s end.
Proof. reflexivity. Qed.

Lemma test_heading_cons c s :
  test re_heading (c :: s) =
  (N.eqb c hash && match s with y :: _ => dot y | [] => false end)
  || test re_heading s.
Proof.
  rewrite test_cons, match_heading. destruct s as [|y t].
  - now rewrite andb_false_r.
  - destruct (N.eqb c hash && dot y); reflexivity.
Qed.

Lemma strip_scan_no_heading s :
  forall d, test re_heading (strip_scan s d) = false.
Proof.
  induction s as [|c s IH]; intros d; [reflexivity|].
  rewrite strip_scan_cons. destruct d.
  - destruct (dot c) eqn:Dc; [apply IH|].
    rewrite test_heading_cons, (dot_not_hash _ Dc), IH. reflexivity.
  - destruct (N.eqb c hash) eqn:Hc.
    + destruct s as [|y t]; [now rewrite test_heading_cons, Hc|].
      destruct (dot y) eqn:Dy; [apply IH|].
      rewrite test_heading_cons, IH, Hc, orb_false_r.
      rewrite strip_scan_cons, (dot_not_hash _ Dy). cbn [andb]. exact Dy.
    + rewrite test_heading_cons, Hc, IH. reflexivity.
Qed.

(** X5. After the heading step no [#] is directly followed by a code
    unit of its line: the pattern matches nowhere in the output, and the
    step applied again changes nothing. *)
Theorem strip_headings_complete (s : jsstring) :
  test re_heading (stripHeadings s) = false
  /\ stripHeadings (stripHeadings s) = stripHeadings s.
Proof.
  assert (T : test re_heading (stripHeadings s) = false).
  { rewrite stripHeadings_scan. apply strip_scan_no_heading. }
  split; [exact T|].
  unfold stripHeadings at 1. now apply replace_all_no_match.
Qed.

(** ** White space around the excerpt *)

Lemma trimStart_starts_clean s : starts_clean (trimStart s) = true.
Proof.
  induction s as [|c s IH]; [reflexivity|]. cbn [trimStart].
  destruct (is_space c) eqn:E; [exact IH|]. cbn [starts_clean]. now rewrite E.
Qed.

Lemma trimStart_skipn s : exists k, trimStart s = skipn k s.
Proof.
  induction s as [|c s [k IH]]; [now exists 0%nat|]. cbn [trimStart].
  destruct (is_space c); [now exists (S k) | now exists 0%nat].
Qed.

Lemma starts_clean_firstn n s :
  starts_clean s = true -> starts_clean (firstn n s) = true.
Proof. destruct n, s; intros H; try reflexivity; exact H. Qed.

Lemma trim_clean s :
  starts_clean (trim s) = true /\ starts_clean (rev (trim s)) = true.
Proof.
  unfold trim, trimEnd. split.
  - destruct (trimStart_skipn (rev (trimStart s))) as [k ->].
    rewrite skipn_rev, rev_involutive.
    apply starts_clean_firstn, trimStart_starts_clean.
  - rewrite rev_involutive. apply trimStart_starts_clean.
Qed.

(** X6. The cleaned text is trimmed: it neither starts nor ends with
    white space, so an excerpt within the limit has none around it; and
    for a limit of 3 or more a truncated excerpt does not start with
    white space either. *)
Theorem excerpt_no_surrounding_space (md : jsstring) (maxLen : Z) :
  (3 <= maxLen)%Z ->
  trim (cleaned md) = cleaned md
  /\ starts_clean (cleaned md) = true
  /\ starts_clean (rev (cleaned md)) = true
  /\ starts_clean (excerptMarkdown md maxLen) = true.
Proof.
  intros H. destruct (trim_clean (normalizeNewlines
    (collapseLinks (stripHeadings (stripFences (stripImages md))))))
    as [C1 C2].
  change (trim _) with (cleaned md) in C1, C2.
  split; [apply trim_fixed; now split|]. split; [exact C1|].
  split; [exact C2|].
  unfold excerptMarkdown. destruct md as [|c md]; [reflexivity|].
  cbv zeta. destruct (Z.of_nat (length (cleaned (c :: md))) <=? maxLen)%Z;
    [exact C1|].
  unfold slice0.
  assert (E : (maxLen - 3 <? 0)%Z = false) by (apply Z.ltb_ge; lia).
  rewrite E.
  pose proof (starts_clean_firstn (Z.to_nat (maxLen - 3)) _ C1) as S1.
  destruct (firstn (Z.to_nat (maxLen - 3)) (cleaned (c :: md)));
    [reflexivity | exact S1].
Qed.

Lemma excerpt_no_surrounding_space_witness :
  trim (cleaned (lit "  padded text  ")) = cleaned (lit "  padded text  ")
  /\ starts_clean (cleaned (lit "  padded text  ")) = true
  /\ starts_clean (rev (cleaned (lit "  padded text  "))) = true
  /\ starts_clean (excerptMarkdown (lit "  padded text  ") 1200) = true.
Proof.
  apply (excerpt_no_surrounding_space (lit "  padded text  ") 1200). lia.
Defined.

(* ================================================================== *)
(** * Command line *)
(* ================================================================== *)

Lemma eqb_eq (a b : jsstring) : eqb a b = true <-> a = b.
Proof.
  revert b. induction a as [|x a IH]; intros [|y b]; cbn [eqb];
    try (split; [discriminate | discriminate]); [tauto|].
  rewrite andb_true_iff, N.eqb_eq, IH. split.
  - now intros [-> ->].
  - intros E. injection E as -> ->. now split.
Qed.

Lemma eqb_refl (a : jsstring) : eqb a a = true.
Proof. now apply eqb_eq. Qed.

Lemma eqb_neq (a b : jsstring) : a <> b -> eqb a b = false.
Proof.
  intros H. destruct (eqb a b) eqn:E; [|reflexivity].
  apply eqb_eq in E. contradiction.
Qed.

Lemma indexOf_absent args key : ~ In key args -> indexOf args key = (-1)%Z.
Proof.
  induction args as [|a args IH]; intros H; [reflexivity|].
  cbn [indexOf]. rewrite eqb_neq by (intros ->; apply H; now left).
  rewrite IH by (intros I; apply H; now right). reflexivity.
Qed.

Lemma indexOf_first before key rest :
  ~ In key before ->
  indexOf (before ++ key :: rest) key = Z.of_nat (length before).
Proof.
  induction before as [|a before IH]; intros H.
  - cbn [app indexOf]. now rewrite eqb_refl.
  - cbn [app indexOf]. rewrite eqb_neq by (intros ->; apply H; now left).
    rewrite IH by (intros I; apply H; now right).
    assert (E : (Z.of_nat (length before) =? -1)%Z = false)
      by (apply Z.eqb_neq; lia).
    rewrite E. cbn [length]. lia.
Qed.

Lemma at_index_after before key rest :
  at_index (before ++ key :: rest) (Z.of_nat (length before) + 1)
  = match rest with v :: _ => JStr v | [] => JUndefined end.
Proof.
  unfold at_index.
  assert (E : (Z.of_nat (length before) + 1 <? 0)%Z = false)
    by (apply Z.ltb_ge; lia).
  rewrite E.
  replace (Z.to_nat (Z.of_nat (length before) + 1)) with (length before + 1)%nat
    by lia.
  rewrite nth_error_app2 by lia.
  replace (length before + 1 - length before)%nat with 1%nat by lia.
  destruct rest; reflexivity.
Qed.

(** X7. [argVal(key)] is the argument that follows the first occurrence
    of [key]: the value after a later occurrence is never taken, and the
    result is [null] when the flag is absent, when it is the last
    argument, and when the argument after it is the empty string. *)
Theorem argVal_first_occurrence (before rest : list jsstring)
        (key : jsstring) :
  ~ In key before ->
  argVal before key = JNull
  /\ argVal (before ++ key :: rest) key
     = match rest with
       | [] => JNull
       | [] :: _ => JNull
       | v :: _ => JStr v
       end.
Proof.
  intros H. unfold argVal. split.
  - now rewrite (indexOf_absent _ _ H).
  - rewrite (indexOf_first _ _ rest H).
    assert (E : (Z.of_nat (length before) =? -1)%Z = false)
      by (apply Z.eqb_neq; lia).
    cbv zeta. rewrite E, at_index_after.
    destruct rest as [|[|c v] rest]; reflexivity.
Qed.

Lemma argVal_first_occurrence_witness :
  argVal [lit "-v"] (lit "-u") = JNull
  /\ argVal ([lit "-v"] ++ lit "-u" :: [lit "ann"; lit "-u"; lit "bob"]) (lit "-u")
     = JStr (lit "ann").
Proof.
  apply (argVal_first_occurrence [lit "-v"] [lit "ann"; lit "-u"; lit "bob"]
           (lit "-u")).
  intros [E|[]]. vm_compute in E. discriminate.
Defined.

Lemma argVal_shape args key :
  argVal args key = JNull
  \/ exists v, argVal args key = JStr v /\ v <> [].
Proof.
  unfold argVal. cbv zeta.
  destruct (indexOf args key =? -1)%Z; [now left|].
  unfold at_index.
  destruct (indexOf args key + 1 <? 0)%Z; [now left|].
  destruct (nth_error args (Z.to_nat (indexOf args key + 1))) as [[|c v]|];
    [now left | | now left].
  right. exists (c :: v). split; [reflexivity | discriminate].
Qed.

Lemma or_shape a b :
  (a = JNull \/ exists v, a = JStr v /\ v <> []) ->
  (b = JNull \/ exists v, b = JStr v /\ v <> []) ->
  js_or a b = JNull \/ exists v, js_or a b = JStr v /\ v <> [].
Proof.
  intros [->|(v & -> & Hv)] Hb; [exact Hb|].
  right. exists v. split; [|exact Hv]. destruct v; [contradiction|reflexivity].
Qed.

(** X8. Whatever the arguments, the account name handed to the
    Collector is a non-empty string: the value of [--username], else
    that of [-u], else [maryamali27].  The token is [null] or a
    non-empty string, and the headers carry [Authorization] exactly when
    there is a token. *)
Theorem cli_defaults (args : list jsstring) :
  (exists u, username args = JStr u /\ u <> [])
  /\ username args
     = js_or (argVal args (lit "--username"))
         (js_or (argVal args (lit "-u")) (JStr (lit "maryamali27")))
  /\ (token args = JNull \/ exists t, token args = JStr t /\ t <> [])
  /\ has_own (headers args) "Authorization" = truthy (token args)
  /\ get (headers args) "Authorization"
     = if truthy (token args)
       then JStr (lit "token " ++ to_string (token args)) else JUndefined.
Proof.
  pose proof (or_shape _ _ (argVal_shape args (lit "--username"))
                (argVal_shape args (lit "-u"))) as U.
  pose proof (or_shape _ _ (argVal_shape args (lit "--token"))
                (argVal_shape args (lit "-t"))) as T.
  split; [|split; [|split; [|split]]].
  - unfold username. destruct U as [->|(u & -> & Hu)].
    + exists (lit "maryamali27"). split; [reflexivity | discriminate].
    + exists u. split; [|exact Hu]. destruct u; [contradiction|reflexivity].
  - unfold username, js_or.
    destruct (truthy (argVal args (lit "--username"))) eqn:A;
      [now rewrite A | reflexivity].
  - unfold token. destruct T as [->|(t & -> & Ht)]; [now left|].
    right. exists t. split; [|exact Ht]. destruct t; [contradiction|reflexivity].
  - unfold headers. cbv zeta. destruct (truthy (token args)); reflexivity.
  - unfold headers. cbv zeta. destruct (truthy (token args)); reflexivity.
Qed.

Example cli_flag_value_can_be_a_flag :
  username [lit "--username"; lit "--token"; lit "abc"] = JStr (lit "--token")
  /\ token [lit "--username"; lit "--token"; lit "abc"] = JStr (lit "abc").
Proof. split; reflexivity. Qed.

(* ================================================================== *)
(** * Collector: the order of the requests *)
(* ================================================================== *)

Lemma listRepos_loop_log upstream user :
  forall fuel page all log out log',
    listRepos_loop upstream fuel user page all log = (out, log') ->
    exists k,
      (k <= fuel)%nat /\ (0 < fuel -> 0 < k)%nat
      /\ (out = OutOfFuel -> k = fuel)
      /\ log' = log ++ map (repos_url user) (seq page k).
Proof.
  induction fuel as [|fuel IH]; intros page all log out log' H.
  - cbn in H. injection H as <- <-. exists 0%nat.
    cbn. rewrite app_nil_r. repeat split; lia.
  - rewrite listRepos_loop_step, fetchJson_run in H.
    assert (One : forall o, o <> OutOfFuel ->
      (o, log ++ [repos_url user page]) = (out, log') ->
      exists k, (k <= S fuel)%nat /\ (0 < S fuel -> 0 < k)%nat
        /\ (out = OutOfFuel -> k = S fuel)
        /\ log' = log ++ map (repos_url user) (seq page k)).
    { intros o Ho E. injection E as <- <-. exists 1%nat.
      repeat split; try lia. intros E. contradiction. }
    assert (More : forall items,
      listRepos_loop upstream fuel user (S page) (all ++ items)
        (log ++ [repos_url user page]) = (out, log') ->
      exists k, (k <= S fuel)%nat /\ (0 < S fuel -> 0 < k)%nat
        /\ (out = OutOfFuel -> k = S fuel)
        /\ log' = log ++ map (repos_url user) (seq page k)).
    { intros items E. destruct (IH _ _ _ _ _ E) as (k & Hk & _ & Ho & ->).
      exists (S k). repeat split; try lia.
      - intros O. now rewrite (Ho O).
      - cbn [seq map]. now rewrite <- app_assoc. }
    destruct (upstream (repos_url user page)) as [|status text json].
    + apply (One (Throw FetchFailed)); [discriminate | exact H].
    + destruct (status_ok status);
        [|apply (One (Throw (http_error status (repos_url user page))));
          [discriminate | exact H]].
      destruct json as [data|];
        [|apply (One (Throw SyntaxError)); [discriminate | exact H]].
      unfold spread in H.
      destruct data as [| | | |s|l|props];
        try (apply (One (Throw TypeError)); [discriminate | exact H]);
        cbn [ret] in H.
      * destruct (js_lt (js_length (JStr s)) perPage);
          [apply (One (Return (all ++ code_points s))); [discriminate | exact H]
          | exact (More _ H)].
      * destruct (js_lt (js_length (JArr l)) perPage);
          [apply (One (Return (all ++ l))); [discriminate | exact H]
          | exact (More _ H)].
Qed.

(** X9. Whatever the upstream answers, the Collector asks for pages 1,
    2, ..., k in that order, one request each, never a page twice and
    never one out of turn; k is at least 1 and at most the number of
    turns of the loop. *)
Theorem listRepos_requests_in_order upstream (fuel : nat) (user : jsstring) :
  exists k,
    requests (listRepos upstream (S fuel) user)
    = map (repos_url user) (seq 1 k)
    /\ (1 <= k <= S fuel)%nat
    /\ (fst (listRepos upstream (S fuel) user []) = OutOfFuel -> k = S fuel).
Proof.
  unfold requests.
  destruct (listRepos upstream (S fuel) user []) as [out log] eqn:H.
  destruct (listRepos_loop_log upstream user _ _ _ _ _ _ H)
    as (k & Hk & Hpos & Ho & ->).
  exists k. cbn [snd fst app]. split; [reflexivity|].
  split; [lia | exact Ho].
Qed.

(* ================================================================== *)
(** * Normalizer: the two literals *)
(* ================================================================== *)

Lemma lookup_app_other k k' v props :
  String.eqb k k' = false -> lookup k (props ++ [(k', v)]) = lookup k props.
Proof.
  intros H. induction props as [|[k0 v0] props IH]; cbn [app lookup].
  - now rewrite H.
  - now rewrite IH.
Qed.

(** X10. The client-side mapping and the offline literal give a summary
    the same record but for [readme_excerpt], which the client sets to
    the empty string: every other field reads the same in both, so do
    the stars by which both are ranked. *)
Theorem client_mapping_agrees (r : jsval) (k : string) :
  String.eqb k "readme_excerpt" = false ->
  get (mappedObj r) k = get (repoObj r (get r "full_name")) k
  /\ get (mappedObj r) "readme_excerpt" = JStr []
  /\ stars_of (mappedObj r) = stars_of (repoObj r (get r "full_name")).
Proof.
  intros H. split; [|split; reflexivity].
  unfold mappedObj, repoObj, safeThumbnail, get.
  match goal with
  | |- match lookup k ?l with _ => _ end = match lookup k ?p with _ => _ end =>
      change l with (p ++ [("readme_excerpt", JStr [])])
  end.
  now rewrite lookup_app_other.
Qed.

Lemma client_mapping_agrees_witness :
  get (mappedObj (summary "a" 5)) "license"
  = get (repoObj (summary "a" 5) (get (summary "a" 5) "full_name")) "license"
  /\ get (mappedObj (summary "a" 5)) "readme_excerpt" = JStr []
  /\ stars_of (mappedObj (summary "a" 5))
     = stars_of (repoObj (summary "a" 5) (get (summary "a" 5) "full_name")).
Proof.
  apply (client_mapping_agrees (summary "a" 5) "license"). reflexivity.
Defined.

(* ================================================================== *)
(** * Ranker: ranking again, ties, and the display orders *)
(* ================================================================== *)

Section SortedInput.
Variable A : Type.
Variable cmp : A -> A -> Z.

(** Sorting a list that is in order already leaves it as it is. *)
Lemma sort_by_sorted (l : list A) :
  StronglySorted (fun a b => (cmp a b <= 0)%Z) l -> sort_by cmp l = l.
Proof.
  induction 1 as [|x l Hs IH Hx]; [reflexivity|].
  cbn [sort_by]. rewrite IH. destruct l as [|y l]; [reflexivity|].
  cbn [insert]. inversion Hx as [|? ? Hy _]; subst.
  apply Z.leb_le in Hy. now rewrite Hy.
Qed.

Lemma sorted_app (R : A -> A -> Prop) (l1 l2 : list A) :
  StronglySorted R l1 -> StronglySorted R l2 ->
  (forall a b, In a l1 -> In b l2 -> R a b) ->
  StronglySorted R (l1 ++ l2).
Proof.
  induction 1 as [|x l1 Hs IH Hx]; intros H2 Hc; [exact H2|].
  cbn [app]. constructor.
  - apply IH; [exact H2|]. intros a b Ha Hb. apply Hc; [now right | exact Hb].
  - apply Forall_app. split; [exact Hx|].
    apply Forall_forall. intros b Hb. apply Hc; [now left | exact Hb].
Qed.
End SortedInput.

Lemma sorted_by_stars_of l1 :
  forall l2,
    map stars_of l1 = map stars_of l2 ->
    StronglySorted stars_ge l1 -> StronglySorted stars_ge l2.
Proof.
  induction l1 as [|x l1 IH]; intros [|y l2] E H; try discriminate;
    [constructor|].
  cbn [map] in E. injection E as Exy E.
  inversion H as [|? ? Hs Hx]; subst. constructor; [now apply IH|].
  clear IH Hs H. revert l2 E. induction Hx as [|z l1 Hz _ IH]; intros [|w l2] E;
    try discriminate; [constructor|].
  cbn [map] in E. injection E as Ezw E. constructor; [|now apply IH].
  unfold stars_ge in *. lia.
Qed.

Lemma mark_featured_stars l : map stars_of (mark_featured l) = map stars_of l.
Proof.
  unfold mark_featured. rewrite map_app, map_map.
  rewrite (map_ext _ stars_of stars_of_feature), <- map_app.
  now rewrite firstn_skipn.
Qed.

Lemma rank_sorted l : StronglySorted stars_ge (rank l).
Proof.
  unfold rank.
  apply (sorted_by_stars_of (sort_by by_stars_desc l));
    [symmetry; apply mark_featured_stars | apply sort_sorted].
Qed.

Lemma stars_ge_cmp l :
  StronglySorted stars_ge l ->
  StronglySorted (fun a b => (by_stars_desc a b <= 0)%Z) l.
Proof.
  induction 1 as [|x l Hs IH Hx]; constructor; [exact IH|].
  eapply Forall_impl; [|exact Hx]. unfold stars_ge, by_stars_desc. intros; lia.
Qed.

Lemma sort_rank l : sort_by by_stars_desc (rank l) = rank l.
Proof. apply sort_by_sorted, stars_ge_cmp, rank_sorted. Qed.

Lemma update_twice k v props : update k v (update k v props) = update k v props.
Proof.
  induction props as [|[k' v'] props IH]; cbn [update].
  - now rewrite String.eqb_refl.
  - destruct (String.eqb k k') eqn:E; cbn [update]; rewrite E;
      [reflexivity | now rewrite IH].
Qed.

Lemma feature_twice p : feature (feature p) = feature p.
Proof.
  unfold feature. destruct p; try reflexivity. cbn [set_prop].
  now rewrite update_twice.
Qed.

Lemma mark_featured_twice l : mark_featured (mark_featured l) = mark_featured l.
Proof.
  unfold mark_featured.
  assert (G : forall n (s : list jsval),
    firstn n (map feature (firstn n s) ++ skipn n s) = map feature (firstn n s)
    /\ skipn n (map feature (firstn n s) ++ skipn n s) = skipn n s).
  { induction n as [|n IH]; intros [|x s]; cbn; try (split; reflexivity).
    destruct (IH s) as [-> ->]. split; reflexivity. }
  destruct (G 3%nat l) as [-> ->].
  rewrite map_map. now rewrite (map_ext _ feature feature_twice).
Qed.

(** X11. Ranking a ranked collection of records changes nothing: the
    order stays and no flag moves, so the client may rank again what the
    generator has ranked. *)
Theorem rank_idempotent (l : list jsval) :
  forallb has_stars l = true -> rank (rank l) = rank l.
Proof.
  intros _. unfold rank at 1. rewrite sort_rank. unfold rank.
  apply mark_featured_twice.
Qed.

Lemma rank_idempotent_witness :
  rank (rank tied_projects) = rank tied_projects.
Proof. apply (rank_idempotent tied_projects). reflexivity. Defined.

(** ** Ties *)

Lemma filter_none (f : jsval -> bool) l :
  Forall (fun q => f q = false) l -> filter f l = [].
Proof.
  induction 1 as [|x l Hx _ IH]; [reflexivity|]. cbn [filter].
  now rewrite Hx, IH.
Qed.

(** A descending list is its records above a star count, then those at
    it, then those below. *)
Lemma sorted_partition k l :
  StronglySorted stars_ge l ->
  l = filter (fun q => (k <? stars_of q)%Z) l
      ++ filter (same_stars k) l
      ++ filter (fun q => (stars_of q <? k)%Z) l.
Proof.
  induction 1 as [|x l Hs IH Hx]; [reflexivity|].
  cbn [filter]. unfold same_stars at 1.
  destruct (Z.ltb_spec k (stars_of x)) as [G|G].
  - assert (E1 : (stars_of x =? k)%Z = false) by (apply Z.eqb_neq; lia).
    assert (E2 : (stars_of x <? k)%Z = false) by (apply Z.ltb_ge; lia).
    rewrite E1, E2. cbn [app]. now rewrite <- IH.
  - assert (N1 : filter (fun q => (k <? stars_of q)%Z) l = []).
    { apply filter_none. eapply Forall_impl; [|exact Hx].
      unfold stars_ge. intros q Hq. apply Z.ltb_ge. lia. }
    rewrite N1 in *. cbn [app] in *.
    destruct (Z.eqb_spec (stars_of x) k) as [E|E].
    + assert (E2 : (stars_of x <? k)%Z = false) by (apply Z.ltb_ge; lia).
      rewrite E2. cbn [app]. now rewrite <- IH.
    + assert (E2 : (stars_of x <? k)%Z = true) by (apply Z.ltb_lt; lia).
      rewrite E2.
      assert (N2 : filter (same_stars k) l = []).
      { apply filter_none. eapply Forall_impl; [|exact Hx].
        unfold stars_ge, same_stars. intros q Hq. apply Z.eqb_neq. lia. }
      rewrite N2 in *. cbn [app] in *. now rewrite <- IH.
Qed.

Lemma nth_error_mark (f : jsval -> jsval) n :
  forall s i,
    nth_error (map f (firstn n s) ++ skipn n s) i
    = option_map (fun q => if (i <? n)%nat then f q else q) (nth_error s i).
Proof.
  induction n as [|n IH]; intros s i.
  - cbn [firstn skipn map app]. destruct (nth_error s i); reflexivity.
  - destruct s as [|x s]; [now destruct i|].
    destruct i as [|i]; [reflexivity|].
    cbn [firstn skipn map app nth_error]. rewrite IH. reflexivity.
Qed.

Lemma sort_position before p after :
  nth_error (sort_by by_stars_desc (before ++ p :: after))
            (rank_position before p after) = Some p.
Proof.
  set (l := before ++ p :: after). set (s := sort_by by_stars_desc l).
  set (k := stars_of p).
  pose proof (sorted_partition k s (sort_sorted l)) as P.
  assert (E : filter (same_stars k) s
              = filter (same_stars k) before ++ p :: filter (same_stars k) after).
  { unfold s. rewrite sort_stable. unfold l. rewrite filter_app.
    cbn [filter]. unfold k at 2. now rewrite same_stars_refl. }
  assert (G : length (filter (fun q => (k <? stars_of q)%Z) s)
              = stars_above l p).
  { unfold stars_above. apply filter_perm_length, sort_perm. }
  rewrite P, E. unfold rank_position. fold l. fold k. rewrite <- G.
  rewrite nth_error_app2 by lia.
  replace (length (filter (fun q => (k <? stars_of q)%Z) s)
           + length (filter (same_stars k) before)
           - length (filter (fun q => (k <? stars_of q)%Z) s))%nat
    with (length (filter (same_stars k) before)) by lia.
  rewrite <- app_assoc. rewrite nth_error_app2 by lia.
  rewrite Nat.sub_diag. reflexivity.
Qed.

(** X12. Where the ranking puts each record, ties included: a record
    comes after the records with more stars and after the records with
    as many stars that preceded it in the input, and before all others;
    it is featured exactly when that makes fewer than 3 records before
    it.  Among records with equal stars the earlier in the input are
    featured first. *)
Theorem rank_with_ties (before : list jsval) (p : jsval) (after : list jsval) :
  forallb has_stars (before ++ p :: after) = true ->
  nth_error (rank (before ++ p :: after)) (rank_position before p after)
  = Some (if (rank_position before p after <? 3)%nat then feature p else p).
Proof.
  intros _. unfold rank, mark_featured.
  rewrite nth_error_mark, sort_position. reflexivity.
Qed.

Lemma rank_with_ties_witness :
  nth_error (rank ([project "a" 5; project "b" 9] ++ project "c" 5
                   :: [project "d" 9; project "e" 5]))
            (rank_position [project "a" 5; project "b" 9] (project "c" 5)
               [project "d" 9; project "e" 5])
  = Some (if (rank_position [project "a" 5; project "b" 9] (project "c" 5)
                [project "d" 9; project "e" 5] <? 3)%nat
          then feature (project "c" 5) else project "c" 5).
Proof.
  apply (rank_with_ties [project "a" 5; project "b" 9] (project "c" 5)
           [project "d" 9; project "e" 5]).
  reflexivity.
Defined.

Example rank_tied_projects :
  map (fun p => (get p "name", get p "stars", get p "featured"))
      (rank tied_projects)
  = [ (JStr (lit "b"), JNum 9, JBool true);
      (JStr (lit "d"), JNum 9, JBool true);
      (JStr (lit "a"), JNum 5, JBool true);
      (JStr (lit "c"), JNum 5, JBool false);
      (JStr (lit "e"), JNum 5, JBool false) ].
Proof. reflexivity. Qed.

(** ** The display orders on a ranked collection *)

Lemma same_featured_sorted c l :
  Forall (fun p => featured_num p = c) l ->
  StronglySorted (fun a b => (by_featured_first a b <= 0)%Z) l.
Proof.
  induction 1 as [|x l Hx Hl IH]; constructor; [exact IH|].
  eapply Forall_impl; [|exact Hl]. intros q Hq. cbv beta in Hq.
  unfold by_featured_first. rewrite Hx, Hq. lia.
Qed.

Lemma unranked_featured_num p : unranked p = true -> featured_num p = 0%Z.
Proof.
  unfold unranked, featured_num. intros H. apply andb_prop in H as [_ H].
  destruct (get p "featured") as [| |[|]| | | |]; try discriminate. reflexivity.
Qed.

Lemma feature_featured_num p : unranked p = true -> featured_num (feature p) = 1%Z.
Proof.
  unfold unranked, has_stars. intros H. apply andb_prop in H as [H _].
  apply andb_prop in H as [Ho _].
  unfold featured_num. now rewrite (featured_feature p Ho).
Qed.

Lemma Forall_firstn {A} (P : A -> Prop) n (l : list A) :
  Forall P l -> Forall P (firstn n l).
Proof.
  intros H. rewrite <- (firstn_skipn n l) in H. now apply Forall_app in H.
Qed.

Lemma Forall_skipn {A} (P : A -> Prop) n (l : list A) :
  Forall P l -> Forall P (skipn n l).
Proof.
  intros H. rewrite <- (firstn_skipn n l) in H. now apply Forall_app in H.
Qed.

(** X13. The two display orders of [applyFilters] that do not read
    dates, by stars and by featured first, both leave a collection as
    the Ranker made it from unfeatured records: the default view shows
    the projects in ranked order, the featured ones first. *)
Theorem display_orders_keep_ranking (l : list jsval) :
  forallb unranked l = true ->
  sort_by by_featured_first (rank l) = rank l
  /\ sort_by by_stars_desc (rank l) = rank l.
Proof.
  intros Hu. split; [|apply sort_rank].
  apply sort_by_sorted. unfold rank, mark_featured.
  assert (Us : Forall (fun p => unranked p = true) (sort_by by_stars_desc l)).
  { apply Forall_forall. intros p Hp. rewrite forallb_forall in Hu. apply Hu.
    eapply Permutation_in; [apply sort_perm | exact Hp]. }
  apply sorted_app.
  - apply (same_featured_sorted 1). apply Forall_map.
    eapply Forall_impl; [|apply (Forall_firstn _ 3 _ Us)].
    intros p. apply feature_featured_num.
  - apply (same_featured_sorted 0).
    eapply Forall_impl; [|apply (Forall_skipn _ 3 _ Us)].
    intros p. apply unranked_featured_num.
  - intros a b Ha Hb. apply in_map_iff in Ha as (a0 & <- & Ha).
    pose proof (Forall_firstn _ 3 _ Us) as F1.
    pose proof (Forall_skipn _ 3 _ Us) as F2.
    rewrite Forall_forall in F1, F2.
    unfold by_featured_first.
    rewrite (feature_featured_num a0 (F1 a0 Ha)).
    rewrite (unranked_featured_num b (F2 b Hb)). lia.
Qed.

Lemma display_orders_keep_ranking_witness :
  sort_by by_featured_first (rank tied_projects) = rank tied_projects
  /\ sort_by by_stars_desc (rank tied_projects) = rank tied_projects.
Proof. apply (display_orders_keep_ranking tied_projects). reflexivity. Defined.

(* ================================================================== *)
(** * Client: loading the projects *)
(* ================================================================== *)

(** X14. Loading the local document never throws and asks once, for
    [projects.json].  It gives an array exactly when the answer is a
    success whose JSON body is an array, or is not an array and has an
    array under [projects]; in every other case (failure status, no
    answer, a body that is not JSON, [null], any other shape) it gives
    [null]. *)
Theorem tryLoadLocalJson_contract upstream (log : list jsstring) :
  exists v,
    tryLoadLocalJson upstream log = (Return v, log ++ [PROJECTS_JSON])
    /\ (v = JNull \/ is_array v = true)
    /\ forall l,
         v = JArr l <->
         exists status text json,
           upstream PROJECTS_JSON = Response status text (Some json)
           /\ status_ok status = true
           /\ (json = JArr l
               \/ (is_array json = false /\ get json "projects" = JArr l)).
Proof.
  unfold tryLoadLocalJson, try_catch, bind, fetch.
  destruct (upstream PROJECTS_JSON) as [|status text json] eqn:U.
  - exists JNull. split; [reflexivity|]. split; [now left|].
    intros l. split; [discriminate|]. intros (? & ? & ? & E & _). discriminate.
  - assert (Null : forall l,
      (forall j, json = Some j -> status_ok status = true ->
                 j = JArr l \/ (is_array j = false /\ get j "projects" = JArr l)
                 -> False) ->
      JNull = JArr l <->
      exists s t j,
        Response status text json = Response s t (Some j)
        /\ status_ok s = true
        /\ (j = JArr l \/ (is_array j = false /\ get j "projects" = JArr l))).
    { intros l No. split; [discriminate|].
      intros (s & t & j & E & Ok' & D). inversion E; subst.
      exfalso. exact (No j eq_refl Ok' D). }
    destruct (status_ok status) eqn:Ok; cbn [negb].
    + destruct json as [json|].
      * destruct (is_array json) eqn:A.
        -- exists json. split; [reflexivity|]. split; [now right|].
           intros l. split.
           ++ intros ->. exists status, text, (JArr l). repeat split; auto.
           ++ intros (s & t & j & E & _ & D). inversion E; subst.
              destruct D as [D|[D _]]; [exact D | congruence].
        -- unfold prop. destruct (is_nullish json) eqn:N.
           ++ exists JNull. split; [reflexivity|]. split; [now left|].
              intros l. apply Null. intros j Ej _ D. inversion Ej; subst.
              destruct D as [->|[_ G]]; [discriminate|].
              destruct j; discriminate.
           ++ cbn [ret]. destruct (is_array (get json "projects")) eqn:P.
              ** exists (get json "projects"). split; [reflexivity|].
                 split; [now right|]. intros l. split.
                 --- intros E. exists status, text, json. repeat split; auto.
                 --- intros (s & t & j & E & _ & D). inversion E; subst.
                     destruct D as [->|[_ G]]; [discriminate | exact G].
              ** exists JNull. split; [reflexivity|]. split; [now left|].
                 intros l. apply Null. intros j Ej _ D. inversion Ej; subst.
                 destruct D as [->|[_ G]]; [discriminate|].
                 rewrite G in P. discriminate.
      * exists JNull. split; [reflexivity|]. split; [now left|].
        intros l. apply Null. intros j Ej. discriminate.
    + exists JNull. split; [reflexivity|]. split; [now left|].
      intros l. apply Null. intros j _ Ok'. discriminate.
Qed.

Lemma fetchGitHubRepos_run upstream username encoded log :
  encodeURIComponent username = Some encoded ->
  fetchGitHubRepos upstream username log
  = (client_outcome username (upstream (client_url encoded)),
     log ++ [client_url encoded]).
Proof.
  intros He. unfold fetchGitHubRepos, try_catch, client_outcome. rewrite He.
  unfold bind, fetch.
  destruct (upstream (client_url encoded)) as [|status text json];
    [reflexivity|].
  cbn [throw]. destruct (status =? 403)%Z; [reflexivity|].
  destruct (status =? 404)%Z; [reflexivity|].
  destruct json as [data|]; [|reflexivity].
  destruct data; try reflexivity.
  rewrite mapM_mapRepo. destruct (forallb not_nullish l); reflexivity.
Qed.



Example client_accepts_error_status_with_array :
  fst (fetchGitHubRepos error_with_array octo [])
  = Return (rank (map mappedObj [summary "a" 5])).
Proof. reflexivity. Qed.



Lemma init_projects_run upstream draw draw_empty v :
  tryLoadLocalJson upstream [] = (Return v, [PROJECTS_JSON]) ->
  init_projects upstream draw draw_empty [] =
  if truthy (js_and v (js_length v))
  then (match draw (elements v) with
        | None => Return (LoadedLocally, v)
        | Some e => Throw e
        end, [PROJECTS_JSON])
  else match client_outcome FALLBACK_USERNAME
               (upstream (client_url FALLBACK_USERNAME)) with
       | Return (x :: gh) =>
           match draw (x :: gh) with
           | None =>
               (Return (LoadedFromGitHub, JArr (x :: gh)),
                [PROJECTS_JSON; client_url FALLBACK_USERNAME])
           | Some _ => empty_state draw_empty
           end
       | _ => empty_state draw_empty
       end.
Proof.
  intros Hv. unfold init_projects, bind. rewrite Hv.
  destruct (truthy (js_and v (js_length v))).
  - destruct (draw (elements v)); reflexivity.
  - unfold try_catch.
    rewrite (fetchGitHubRepos_run upstream FALLBACK_USERNAME FALLBACK_USERNAME
               [PROJECTS_JSON] eq_refl).
    cbn [app]. unfold empty_state.
    destruct (client_outcome FALLBACK_USERNAME
                (upstream (client_url FALLBACK_USERNAME))) as [[|x gh]|e|] eqn:O.
    + destruct draw_empty; reflexivity.
    + destruct (draw (x :: gh)); [|reflexivity].
      destruct draw_empty; reflexivity.
    + destruct draw_empty; reflexivity.
    + exfalso. unfold client_outcome in O.
      destruct (upstream (client_url FALLBACK_USERNAME)) as [|s t j];
        [discriminate|].
      destruct (s =? 403)%Z; [discriminate|].
      destruct (s =? 404)%Z; [discriminate|].
      destruct j as [[| | | | |d|]|]; try discriminate.
      destruct (forallb not_nullish d); discriminate.
Qed.





Example init_loads_from_the_hosting_api :
  init_projects error_with_array tags_drawing None []
  = (Return (LoadedFromGitHub, JArr (rank (map mappedObj [summary "a" 5]))),
     [PROJECTS_JSON; client_url FALLBACK_USERNAME]).
Proof. reflexivity. Qed.

Example init_with_nothing_anywhere :
  init_projects nothing_anywhere tags_drawing None []
  = (Return (NothingFound, JArr []),
     [PROJECTS_JSON; client_url FALLBACK_USERNAME]).
Proof. reflexivity. Qed.

(** On any page, a local document that holds a [null] record makes
    [init] throw, after its one request. *)
Lemma init_rejects_on_null_local_record draw draw_empty :
  (forall cache e, fst (collectTags cache []) = Throw e -> draw cache <> None) ->
  exists e,
    init_projects local_null_record draw draw_empty []
    = (Throw e, [PROJECTS_JSON]).
Proof.
  intros Hd.
  rewrite (init_projects_run local_null_record draw draw_empty
             (JArr [JNull]) eq_refl).
  cbn [js_and truthy js_length length Z.of_nat Z.eqb negb elements].
  destruct (draw [JNull]) as [e|] eqn:D; [now exists e|].
  now destruct (Hd [JNull] TypeError eq_refl).
Qed.

(** On any page that can draw the empty state, a repository whose
    topics are a string ends [init] in the empty state, although the
    fetch has returned its record. *)
Lemma init_absorbs_undrawable_fetch draw :
  (forall cache e, fst (collectTags cache []) = Throw e -> draw cache <> None) ->
  fst (fetchGitHubRepos string_topics FALLBACK_USERNAME [])
  = Return (rank (map mappedObj
                    [set_prop (summary "a" 5) "topics" (JStr (lit "web"))]))
  /\ init_projects string_topics draw None []
     = (Return (NothingFound, JArr []),
        [PROJECTS_JSON; client_url FALLBACK_USERNAME]).
Proof.
  intros Hd. split; [reflexivity|].
  rewrite (init_projects_run string_topics draw None JNull eq_refl).
  cbn [js_and truthy].
  change (client_outcome FALLBACK_USERNAME
            (string_topics (client_url FALLBACK_USERNAME)))
    with (@Return (list jsval)
            (rank (map mappedObj
                     [set_prop (summary "a" 5) "topics" (JStr (lit "web"))]))).
  cbn [rank map sort_by insert mark_featured firstn skipn app].
  match goal with
  | |- context [draw ?c] =>
      destruct (draw c) eqn:D; [reflexivity|];
      now destruct (Hd c TypeError eq_refl)
  end.
Qed.

(* ================================================================== *)
(** * Client: what the user name can do to the address *)
(* ================================================================== *)

(** X17. The user name cannot change the query of the client request
    nor open a fragment in its address: in the address the name stands
    encoded, with nothing but unreserved characters and percent escapes,
    so with no [/], [?], [&], [#] or [=]; the address requested has no
    fragment and its query is [per_page=100&sort=updated] whatever the
    name.  A name made of unreserved characters, such as the fallback
    user, stands as it is; this includes a name of dots, so nothing is
    said of the path that the address resolves to. *)
Theorem client_url_name_is_escaped (username encoded : jsstring) :
  forallb valid_unit username = true ->
  encodeURIComponent username = Some encoded ->
  forallb url_safe encoded = true
  /\ lacks (ch "/"%char) encoded = true /\ lacks (ch "?"%char) encoded = true
  /\ lacks (ch "&"%char) encoded = true /\ lacks (ch "#"%char) encoded = true
  /\ lacks (ch "="%char) encoded = true
  /\ take_while (other_than "#") (client_url encoded) = client_url encoded
  /\ url_query (client_url encoded) = lit "per_page=100&sort=updated"
  /\ (if forallb is_unreserved username
      then encoded = username else True).
Proof.
  intros Hv He.
  pose proof (encode_safe (length username) username encoded (le_n _) Hv He) as S.
  split; [exact S|].
  repeat (split; [apply safe_lacks; [reflexivity | exact S]|]).
  destruct (client_url_query username encoded Hv He) as [F Q].
  split; [exact F|]. split; [exact Q|].
  destruct (forallb is_unreserved username) eqn:U; [|exact I].
  rewrite (encode_unreserved username U) in He. now injection He.
Qed.

Lemma client_url_name_is_escaped_witness :
  forallb url_safe (lit "a%2Fb%3Fpage%3D2") = true
  /\ lacks (ch "/"%char) (lit "a%2Fb%3Fpage%3D2") = true
  /\ lacks (ch "?"%char) (lit "a%2Fb%3Fpage%3D2") = true
  /\ lacks (ch "&"%char) (lit "a%2Fb%3Fpage%3D2") = true
  /\ lacks (ch "#"%char) (lit "a%2Fb%3Fpage%3D2") = true
  /\ lacks (ch "="%char) (lit "a%2Fb%3Fpage%3D2") = true
  /\ take_while (other_than "#") (client_url (lit "a%2Fb%3Fpage%3D2"))
     = client_url (lit "a%2Fb%3Fpage%3D2")
  /\ url_query (client_url (lit "a%2Fb%3Fpage%3D2"))
     = lit "per_page=100&sort=updated"
  /\ (if forallb is_unreserved (lit "a/b?page=2")
      then lit "a%2Fb%3Fpage%3D2" = lit "a/b?page=2" else True).
Proof.
  apply (client_url_name_is_escaped (lit "a/b?page=2") (lit "a%2Fb%3Fpage%3D2"));
    reflexivity.
Defined.

Example name_of_dots_stands_as_it_is :
  encodeURIComponent (lit "..") = Some (lit "..")
  /\ client_url (lit "..")
     = lit "https://api.github.com/users/../repos?per_page=100&sort=updated".
Proof. split; reflexivity. Qed.

Example collector_url_takes_the_name_as_given :
  repos_url (lit "a/b?page=2") 1
  = lit "https://api.github.com/users/a/b?page=2/repos?per_page=100&page=1&sort=updated".
Proof. reflexivity. Qed.

(* ================================================================== *)
(** * Presentation: tags and statistics *)
(* ================================================================== *)

Example collectTags_tagged_projects :
  collectTags tagged_projects []
  = (Return [JStr (lit "Go"); JStr (lit "Rust"); JStr (lit "cli");
             JStr (lit "web")], []).
Proof. reflexivity. Qed.

Example stats_tagged_projects :
  (totalRepos tagged_projects, totalStars tagged_projects,
   totalForks tagged_projects, languages tagged_projects)
  = (4, Some 22, Some 3, 2)%Z.
Proof. reflexivity. Qed.

Example total_of_string_stars_is_not_held :
  totalStars [JObj [("stars", JStr (lit "5"))]; JObj [("stars", JNum 7)]]
  = None.
Proof. reflexivity. Qed.

Section SortAny.
Variable A : Type.
Variable cmp : A -> A -> Z.
Hypothesis cmp_total : forall x y, (cmp x y <= 0 \/ cmp y x <= 0)%Z.
Hypothesis cmp_trans :
  forall x y z, (cmp x y <= 0 -> cmp y z <= 0 -> cmp x z <= 0)%Z.

Lemma insert_perm_any x l : Permutation (insert cmp x l) (x :: l).
Proof.
  induction l as [|y l IH]; cbn [insert]; [apply Permutation_refl|].
  destruct (cmp x y <=? 0)%Z; [apply Permutation_refl|].
  eapply perm_trans; [apply perm_skip, IH | apply perm_swap].
Qed.

Lemma sort_perm_any l : Permutation (sort_by cmp l) l.
Proof.
  induction l as [|x l IH]; cbn [sort_by]; [constructor|].
  eapply perm_trans; [apply insert_perm_any | now apply perm_skip].
Qed.

Lemma insert_sorted_any x l :
  StronglySorted (fun a b => (cmp a b <= 0)%Z) l ->
  StronglySorted (fun a b => (cmp a b <= 0)%Z) (insert cmp x l).
Proof.
  induction 1 as [|y l Hs IH Hy]; cbn [insert]; [repeat constructor|].
  destruct (cmp x y <=? 0)%Z eqn:E.
  - apply Z.leb_le in E. constructor; [now constructor|].
    constructor; [exact E|].
    eapply Forall_impl; [|exact Hy]. intros z Hz. now apply (cmp_trans x y z).
  - apply Z.leb_gt in E. constructor; [exact IH|].
    eapply Permutation_Forall; [apply Permutation_sym, insert_perm_any|].
    constructor; [|exact Hy].
    destruct (cmp_total x y); [lia | assumption].
Qed.

Lemma sort_sorted_any l :
  StronglySorted (fun a b => (cmp a b <= 0)%Z) (sort_by cmp l).
Proof.
  induction l as [|x l IH]; cbn [sort_by]; [constructor|].
  now apply insert_sorted_any.
Qed.
End SortAny.

(** ** The order of strings *)

Lemma lex_compare_refl a : lex_compare a a = Eq.
Proof.
  induction a as [|x a IH]; [reflexivity|]. cbn [lex_compare].
  now rewrite N.compare_refl.
Qed.

Lemma lex_compare_eq a : forall b, lex_compare a b = Eq -> a = b.
Proof.
  induction a as [|x a IH]; intros [|y b] H; try discriminate; [reflexivity|].
  cbn [lex_compare] in H. destruct (N.compare_spec x y) as [->| |];
    try discriminate.
  now rewrite (IH b H).
Qed.

Lemma lex_compare_antisym a :
  forall b, lex_compare b a = CompOpp (lex_compare a b).
Proof.
  induction a as [|x a IH]; intros [|y b]; try reflexivity.
  cbn [lex_compare]. rewrite (N.compare_antisym x y).
  destruct (N.compare x y); cbn [CompOpp]; [apply IH | reflexivity | reflexivity].
Qed.

Lemma lex_compare_trans a :
  forall b c,
    lex_compare a b <> Gt -> lex_compare b c <> Gt -> lex_compare a c <> Gt.
Proof.
  induction a as [|x a IH]; intros [|y b] [|z c] H1 H2; cbn [lex_compare] in *;
    try congruence.
  destruct (N.compare_spec x y) as [->|Lxy|Gxy]; [|
    | congruence].
  - destruct (N.compare_spec y z) as [->|Lyz|Gyz]; [|congruence|congruence].
    now apply (IH b c).
  - destruct (N.compare_spec y z) as [->|Lyz|Gyz]; [| |congruence].
    + destruct (N.compare_spec x z); [lia | congruence | lia].
    + destruct (N.compare_spec x z); [lia | congruence | lia].
Qed.

Lemma default_compare_total x y :
  (default_compare x y <= 0 \/ default_compare y x <= 0)%Z.
Proof.
  unfold default_compare.
  destruct (is_undefined x), (is_undefined y); try (left; lia); try (right; lia).
  rewrite (lex_compare_antisym (to_string x) (to_string y)).
  destruct (lex_compare (to_string x) (to_string y)); cbn [CompOpp];
    try (left; lia); right; lia.
Qed.

Lemma default_compare_trans x y z :
  (default_compare x y <= 0 -> default_compare y z <= 0 ->
   default_compare x z <= 0)%Z.
Proof.
  unfold default_compare.
  destruct (is_undefined x), (is_undefined y), (is_undefined z); try lia.
  pose proof (lex_compare_trans (to_string x) (to_string y) (to_string z)) as T.
  destruct (lex_compare (to_string x) (to_string y)),
           (lex_compare (to_string y) (to_string z)),
           (lex_compare (to_string x) (to_string z));
    try lia; intros _ _; exfalso; apply T; congruence.
Qed.

(** ** Sets of strings *)

Lemma same_value_zero_eq a b : same_value_zero a b = true -> a = b.
Proof.
  destruct a, b; cbn [same_value_zero]; try discriminate; try reflexivity.
  - intros H. apply Bool.eqb_prop in H. now subst.
  - intros H. apply Z.eqb_eq in H. now subst.
  - intros H. apply eqb_eq in H. now subst.
Qed.

Lemma same_value_zero_string s : same_value_zero (JStr s) (JStr s) = true.
Proof. cbn. apply eqb_refl. Qed.

Lemma set_add_in s x t : In t (set_add s x) <-> In t s \/ t = x.
Proof.
  unfold set_add. destruct (existsb (same_value_zero x) s) eqn:E.
  - split; [now left|]. intros [H| ->]; [exact H|].
    apply existsb_exists in E as (y & Hy & Ey).
    now rewrite (same_value_zero_eq _ _ Ey).
  - rewrite in_app_iff. cbn [In]. split.
    + intros [H|[<-|[]]]; [now left | now right].
    + intros [H| ->]; [now left | right; now left].
Qed.

Lemma set_add_string_set s x :
  string_set s -> is_string x = true -> string_set (set_add s x).
Proof.
  intros [Hn Hs] Hx. unfold set_add.
  destruct (existsb (same_value_zero x) s) eqn:E; [now split|].
  split.
  - apply NoDup_app; [exact Hn | repeat constructor; intros [] |].
    intros y Hy [Exy|[]]. subst y.
    assert (T : existsb (same_value_zero x) s = true).
    { apply existsb_exists. exists x. split; [exact Hy|].
      destruct x; try discriminate. apply same_value_zero_string. }
    congruence.
  - apply Forall_app. split; [exact Hs | now repeat constructor].
Qed.

Lemma fold_set_add l :
  forall s,
    string_set s -> forallb is_string l = true ->
    string_set (fold_left set_add l s)
    /\ forall t, In t (fold_left set_add l s) <-> In t s \/ In t l.
Proof.
  induction l as [|x l IH]; intros s Hs Hl.
  - split; [exact Hs|]. intros t. cbn. tauto.
  - cbn [forallb] in Hl. apply andb_prop in Hl as [Hx Hl]. cbn [fold_left].
    destruct (IH (set_add s x) (set_add_string_set s x Hs Hx) Hl) as [S M].
    split; [exact S|]. intros t. rewrite M, set_add_in. cbn [In].
    intuition congruence.
Qed.

Lemma presentable_parts p :
  presentable p = true ->
  is_nullish p = false
  /\ opt (is_array_of is_string) (get p "tags") = true
  /\ opt is_string (get p "language") = true.
Proof.
  unfold presentable, has_stars. intros H.
  apply andb_prop in H as [H _]. apply andb_prop in H as [H Hl].
  apply andb_prop in H as [H Ht]. apply andb_prop in H as [Ho _].
  repeat split; try assumption. destruct p; try discriminate; reflexivity.
Qed.

Lemma add_tags_run s p log :
  presentable p = true ->
  exists l,
    add_tags s p log = (Return (fold_left set_add l s), log)
    /\ forallb is_string l = true
    /\ forall t, In t l <-> exists l', get p "tags" = JArr l' /\ In t l'.
Proof.
  intros H. destruct (presentable_parts p H) as (Hn & Ht & _).
  unfold add_tags, prop, bind. rewrite Hn. cbn [ret].
  destruct (get p "tags") as [| | | | |l|] eqn:T; try discriminate.
  - exists []. repeat split; try reflexivity; [intros []|].
    intros (l' & E & _). discriminate.
  - exists []. repeat split; try reflexivity; [intros []|].
    intros (l' & E & _). discriminate.
  - exists l. split; [reflexivity|]. split; [exact Ht|].
    intros t. split.
    + intros I. now exists l.
    + intros (l' & E & I). now injection E as <-.
Qed.

Lemma forEach_add_tags projects :
  forall s log,
    forallb presentable projects = true -> string_set s ->
    exists s',
      forEachM add_tags projects s log = (Return s', log)
      /\ string_set s'
      /\ forall t,
           In t s' <->
           In t s \/ exists p l, In p projects /\ get p "tags" = JArr l /\ In t l.
Proof.
  induction projects as [|p projects IH]; intros s log Hp Hs.
  - exists s. split; [reflexivity|]. split; [exact Hs|].
    intros t. split; [now left|]. intros [H|(p & l & [] & _)]. exact H.
  - cbn [forallb] in Hp. apply andb_prop in Hp as [Hp Hps].
    destruct (add_tags_run s p log Hp) as (l & Run & Sl & Ml).
    destruct (fold_set_add l s Hs Sl) as [S1 M1].
    destruct (IH (fold_left set_add l s) log Hps S1) as (s' & Run' & S' & M').
    exists s'. cbn [forEachM]. unfold bind. rewrite Run, Run'.
    split; [reflexivity|]. split; [exact S'|].
    intros t. rewrite M', M1, Ml. split.
    + intros [[H|(l' & E & I)]|(q & l' & Hq & E & I)].
      * now left.
      * right. exists p, l'. repeat split; auto. now left.
      * right. exists q, l'. repeat split; auto. now right.
    + intros [H|(q & l' & [<-|Hq] & E & I)].
      * left. now left.
      * left. right. now exists l'.
      * right. now exists q, l'.
Qed.

Lemma fold_add_language projects :
  forall s,
    forallb presentable projects = true -> string_set s ->
    string_set (fold_left add_language projects s)
    /\ forall t,
         In t (fold_left add_language projects s) <->
         In t s
         \/ exists p, In p projects /\ get p "language" = t /\ truthy t = true.
Proof.
  induction projects as [|p projects IH]; intros s Hp Hs.
  - split; [exact Hs|]. intros t. split; [now left|].
    intros [H|(p & [] & _)]. exact H.
  - cbn [forallb] in Hp. apply andb_prop in Hp as [Hp Hps].
    destruct (presentable_parts p Hp) as (_ & _ & Hl).
    cbn [fold_left].
    assert (Step : string_set (add_language s p)
                   /\ forall t, In t (add_language s p) <->
                        In t s \/ (get p "language" = t /\ truthy t = true)).
    { unfold add_language.
      destruct (truthy (get p "language")) eqn:T.
      - split.
        + apply set_add_string_set; [exact Hs|].
          destruct (get p "language"); try discriminate; reflexivity.
        + intros t. rewrite set_add_in. split.
          * intros [H| ->]; [now left | right; now split].
          * intros [H|[E _]]; [now left | right; now symmetry].
      - split; [exact Hs|]. intros t. split; [now left|].
        intros [H|[E Tt]]; [exact H|]. subst t. congruence. }
    destruct Step as [S1 M1].
    destruct (IH (add_language s p) Hps S1) as [S' M'].
    split; [exact S'|]. intros t. rewrite M', M1. split.
    + intros [[H|[E T]]|(q & Hq & E & T)].
      * now left.
      * right. exists p. repeat split; auto. now left.
      * right. exists q. repeat split; auto. now right.
    + intros [H|(q & [<-|Hq] & E & T)].
      * left. now left.
      * left. right. now split.
      * right. now exists q.
Qed.

Lemma sorted_strings_strict l :
  string_set l ->
  StronglySorted (fun a b => (default_compare a b <= 0)%Z) l ->
  StronglySorted label_lt l.
Proof.
  intros [Hn Hs] H. induction H as [|x l Hl IH Hx]; [constructor|].
  inversion Hn as [|? ? Hnot Hn']; subst.
  inversion Hs as [|? ? Sx Sl]; subst.
  constructor; [now apply IH|].
  rewrite Forall_forall in *. intros y Hy.
  specialize (Hx y Hy). specialize (Sl y Hy).
  destruct x as [| | | |sx| |]; try discriminate.
  destruct y as [| | | |sy| |]; try discriminate.
  unfold label_lt. unfold default_compare in Hx. cbn [is_undefined to_string] in *.
  destruct (lex_compare sx sy) eqn:C; [|reflexivity|lia].
  apply lex_compare_eq in C. subst sy. contradiction.
Qed.

Lemma collectTags_run (projects : list jsval) (log : list jsstring) :
  forallb presentable projects = true ->
  exists labels,
    collectTags projects log = (Return labels, log)
    /\ StronglySorted label_lt labels
    /\ NoDup labels
    /\ forall t, In t labels <-> exists p, In p projects /\ labelled p t.
Proof.
  intros Hp.
  assert (Empty : string_set []) by (split; constructor).
  destruct (forEach_add_tags projects [] log Hp Empty) as (s1 & Run & S1 & M1).
  destruct (fold_add_language projects s1 Hp S1) as [S2 M2].
  set (s2 := fold_left add_language projects s1) in *.
  pose proof (sort_perm_any _ default_compare s2) as Perm.
  assert (S3 : string_set (sort_by default_compare s2)).
  { destruct S2 as [N2 F2]. split.
    - eapply Permutation_NoDup; [apply Permutation_sym, Perm | exact N2].
    - eapply Permutation_Forall; [apply Permutation_sym, Perm | exact F2]. }
  exists (sort_by default_compare s2).
  unfold collectTags, bind. rewrite Run. cbv zeta. fold s2.
  split; [reflexivity|]. split; [|split; [exact (proj1 S3)|]].
  - apply sorted_strings_strict; [exact S3|].
    apply sort_sorted_any; [apply default_compare_total
                           | apply default_compare_trans].
  - intros t. split.
    + intros I. apply (Permutation_in _ Perm) in I. apply M2 in I.
      destruct I as [I|(p & Hq & E & T)].
      * apply M1 in I as [[]|(p & l & Hq & E & I)].
        exists p. split; [exact Hq|]. left. now exists l.
      * exists p. split; [exact Hq|]. right. now split.
    + intros (p & Hq & [(l & E & I)|[E T]]);
        apply (Permutation_in _ (Permutation_sym Perm)), M2.
      * left. apply M1. right. now exists p, l.
      * right. now exists p.
Qed.

(** X18. For presentable records [collectTags] returns, without
    throwing, every tag of every record and every non-empty language,
    each once, in ascending order of their code units (capitals before
    small letters), and nothing else. *)
Theorem collectTags_sorted_labels (projects : list jsval) (log : list jsstring) :
  forallb presentable projects = true ->
  exists labels,
    collectTags projects log = (Return labels, log)
    /\ StronglySorted label_lt labels
    /\ NoDup labels
    /\ forall t, In t labels <-> exists p, In p projects /\ labelled p t.
Proof. apply collectTags_run. Qed.

Lemma collectTags_sorted_labels_witness :
  exists labels,
    collectTags tagged_projects [] = (Return labels, [])
    /\ StronglySorted label_lt labels
    /\ NoDup labels
    /\ forall t, In t labels <-> exists p, In p tagged_projects /\ labelled p t.
Proof.
  apply (collectTags_sorted_labels tagged_projects []). reflexivity.
Defined.

(** ** The statistics *)

Lemma sumZ_nonneg l : Forall (fun z => 0 <= z)%Z l -> (0 <= sumZ l)%Z.
Proof.
  unfold sumZ. induction 1 as [|z l Hz _ IH]; cbn [fold_right]; lia.
Qed.

Lemma total_none k l :
  fold_left
    (fun s p =>
       if is_nullish p then None else plus s (js_or (get p k) (JNum 0)))
    l None = None.
Proof.
  induction l as [|p l IH]; [reflexivity|].
  cbn [fold_left]. destruct (is_nullish p); exact IH.
Qed.

(** The total of a field whose values are counts is their sum, as long
    as the sum is exact. *)
Lemma total_counts k (f : jsval -> Z) l :
  (forall p, In p l ->
     is_nullish p = false
     /\ js_or (get p k) (JNum 0) = JNum (f p) /\ (0 <= f p)%Z) ->
  forall a, (0 <= a)%Z -> exact (a + sumZ (map f l)) = true ->
  fold_left
    (fun s p =>
       if is_nullish p then None else plus s (js_or (get p k) (JNum 0)))
    l (Some a) = Some (a + sumZ (map f l))%Z.
Proof.
  induction l as [|p l IH]; intros H a Ha Hs.
  - cbn [map sumZ fold_right fold_left]. f_equal. lia.
  - destruct (H p (or_introl eq_refl)) as (Hn & Hv & Hp).
    assert (Hl : (0 <= sumZ (map f l))%Z).
    { apply sumZ_nonneg, Forall_forall. intros z Hz.
      apply in_map_iff in Hz as (q & <- & Hq).
      now destruct (H q (or_intror Hq)) as (_ & _ & Hq'). }
    cbn [map] in Hs. unfold sumZ in Hs, Hl. cbn [fold_right] in Hs.
    unfold exact in Hs. apply Z.leb_le in Hs.
    cbn [fold_left]. rewrite Hn, Hv. cbn [plus].
    assert (E1 : exact a = true) by (unfold exact; apply Z.leb_le; lia).
    assert (E2 : exact (f p) = true) by (unfold exact; apply Z.leb_le; lia).
    assert (E3 : exact (a + f p) = true) by (unfold exact; apply Z.leb_le; lia).
    rewrite E1, E2, E3. cbn [andb].
    rewrite IH.
    + f_equal. cbn [map]. unfold sumZ. cbn [fold_right]. lia.
    + intros q Hq. apply H. now right.
    + lia.
    + unfold exact. apply Z.leb_le. unfold sumZ. lia.
Qed.

Lemma sumZ_perm l l' : Permutation l l' -> sumZ l = sumZ l'.
Proof.
  unfold sumZ.
  induction 1 as [|x l l' _ IH|x y l|l l' l'' _ IH1 _ IH2];
    cbn [fold_right]; lia.
Qed.

Lemma forks_of_feature p : forks_of (feature p) = forks_of p.
Proof. unfold forks_of, feature. now rewrite get_set_other. Qed.

Lemma mark_featured_forks l : map forks_of (mark_featured l) = map forks_of l.
Proof.
  unfold mark_featured. rewrite map_app, map_map.
  rewrite (map_ext _ forks_of forks_of_feature), <- map_app.
  now rewrite firstn_skipn.
Qed.

Lemma presentable_feature p : presentable (feature p) = presentable p.
Proof.
  unfold presentable, has_stars, feature.
  rewrite !get_set_other by reflexivity.
  destruct p; reflexivity.
Qed.

Lemma language_feature p : get (feature p) "language" = get p "language".
Proof. unfold feature. now rewrite get_set_other. Qed.

Lemma rank_presentable l :
  forallb presentable l = true -> forallb presentable (rank l) = true.
Proof.
  intros H. apply forallb_forall. intros q Hq.
  apply in_mark_featured in Hq as (p & Hp & E).
  apply (Permutation_in _ (sort_perm l)) in Hp.
  rewrite forallb_forall in H. specialize (H p Hp).
  destruct E as [->| ->]; [exact H | now rewrite presentable_feature].
Qed.

Lemma rank_languages l t :
  (exists q, In q (rank l) /\ get q "language" = t /\ truthy t = true)
  <-> (exists p, In p l /\ get p "language" = t /\ truthy t = true).
Proof.
  split.
  - intros (q & Hq & E & T). apply in_mark_featured in Hq as (p & Hp & D).
    apply (Permutation_in _ (sort_perm l)) in Hp.
    exists p. split; [exact Hp|]. split; [|exact T].
    destruct D as [->| ->]; [exact E | now rewrite language_feature in E].
  - intros (p & Hp & E & T).
    apply (Permutation_in _ (Permutation_sym (sort_perm l))) in Hp.
    apply mark_featured_in in Hp as (q & Hq & D).
    exists q. split; [exact Hq|]. split; [|exact T].
    destruct D as [->| ->]; [exact E | now rewrite language_feature].
Qed.

Lemma stars_number p :
  has_stars p = true -> js_or (get p "stars") (JNum 0) = JNum (stars_of p).
Proof.
  unfold has_stars, stars_of. intros H. apply andb_prop in H as [_ H].
  destruct (get p "stars") as [| | |z| | |]; try discriminate.
  unfold js_or. cbn [truthy]. destruct (Z.eqb_spec z 0) as [->|]; reflexivity.
Qed.

Lemma forks_number p :
  opt is_number (get p "forks") = true ->
  js_or (get p "forks") (JNum 0) = JNum (forks_of p).
Proof.
  unfold forks_of, opt. intros H.
  destruct (get p "forks") as [| | |z| | |]; try discriminate; try reflexivity.
  unfold js_or. cbn [truthy]. destruct (Z.eqb_spec z 0) as [->|]; reflexivity.
Qed.

Lemma counted_feature p : counted (feature p) = counted p.
Proof. unfold counted. now rewrite stars_of_feature, forks_of_feature. Qed.

Lemma rank_counted l :
  forallb counted l = true -> forallb counted (rank l) = true.
Proof.
  intros H. apply forallb_forall. intros q Hq.
  apply in_mark_featured in Hq as (p & Hp & E).
  apply (Permutation_in _ (sort_perm l)) in Hp.
  rewrite forallb_forall in H. specialize (H p Hp).
  destruct E as [->| ->]; [exact H | now rewrite counted_feature].
Qed.

Lemma rank_stars_sum l :
  sumZ (map stars_of (rank l)) = sumZ (map stars_of l).
Proof.
  unfold rank. rewrite mark_featured_stars.
  apply sumZ_perm, Permutation_map, sort_perm.
Qed.

Lemma rank_forks_sum l :
  sumZ (map forks_of (rank l)) = sumZ (map forks_of l).
Proof.
  unfold rank. rewrite mark_featured_forks.
  apply sumZ_perm, Permutation_map, sort_perm.
Qed.

(** The two totals of presentable records with counts, while exact. *)
Lemma totals_run l :
  forallb presentable l = true -> forallb counted l = true ->
  exact (sumZ (map stars_of l)) = true ->
  exact (sumZ (map forks_of l)) = true ->
  totalStars l = Some (sumZ (map stars_of l))
  /\ totalForks l = Some (sumZ (map forks_of l)).
Proof.
  intros Hp Hc Es Ef.
  rewrite forallb_forall in Hp, Hc.
  split.
  - unfold totalStars, total.
    rewrite (total_counts "stars" stars_of l); [reflexivity| |lia|exact Es].
    intros p I. specialize (Hp p I). specialize (Hc p I).
    destruct (presentable_parts p Hp) as (Hn & _).
    unfold presentable in Hp.
    apply andb_prop in Hp as [Hp _]. apply andb_prop in Hp as [Hp _].
    apply andb_prop in Hp as [Hs _].
    unfold counted in Hc. apply andb_prop in Hc as [Hc _].
    apply Z.leb_le in Hc.
    split; [exact Hn|]. split; [now apply stars_number | exact Hc].
  - unfold totalForks, total.
    rewrite (total_counts "forks" forks_of l); [reflexivity| |lia|exact Ef].
    intros p I. specialize (Hp p I). specialize (Hc p I).
    destruct (presentable_parts p Hp) as (Hn & _).
    unfold presentable in Hp. apply andb_prop in Hp as [_ Hf].
    unfold counted in Hc. apply andb_prop in Hc as [_ Hc].
    apply Z.leb_le in Hc.
    split; [exact Hn|]. split; [now apply forks_number | exact Hc].
Qed.

(** X19. The figures of [updateStats] do not depend on the ranking.  For
    presentable records whose stars and forks are counts, with totals
    that are exact (at most 2^53), the total of stars and the total of
    forks are the sums of the counts, and they are the same on the
    ranked collection as on the collection itself, as are the number of
    repositories and the number of distinct languages. *)
Theorem stats_unchanged_by_rank (l : list jsval) :
  forallb presentable l = true ->
  forallb counted l = true ->
  exact (sumZ (map stars_of l)) = true ->
  exact (sumZ (map forks_of l)) = true ->
  totalRepos (rank l) = totalRepos l
  /\ totalStars l = Some (sumZ (map stars_of l))
  /\ totalStars (rank l) = totalStars l
  /\ totalForks l = Some (sumZ (map forks_of l))
  /\ totalForks (rank l) = totalForks l
  /\ languages (rank l) = languages l.
Proof.
  intros Hp Hc Es Ef.
  destruct (totals_run l Hp Hc Es Ef) as [Ts Tf].
  assert (Es' : exact (sumZ (map stars_of (rank l))) = true)
    by now rewrite rank_stars_sum.
  assert (Ef' : exact (sumZ (map forks_of (rank l))) = true)
    by now rewrite rank_forks_sum.
  destruct (totals_run (rank l) (rank_presentable l Hp) (rank_counted l Hc)
              Es' Ef') as [Rs Rf].
  split; [unfold totalRepos; now rewrite rank_length|].
  split; [exact Ts|].
  split; [now rewrite Rs, Ts, rank_stars_sum|].
  split; [exact Tf|].
  split; [now rewrite Rf, Tf, rank_forks_sum|].
  unfold languages. f_equal.
  assert (Empty : string_set []) by (split; constructor).
  destruct (fold_add_language (rank l) [] (rank_presentable l Hp) Empty)
    as [[N1 _] M1].
  destruct (fold_add_language l [] Hp Empty) as [[N2 _] M2].
  apply Permutation_length, NoDup_Permutation; [exact N1 | exact N2|].
  intros t. rewrite M1, M2. cbn [In].
  pose proof (rank_languages l t). tauto.
Qed.

Lemma stats_unchanged_by_rank_witness :
  totalRepos (rank tagged_projects) = totalRepos tagged_projects
  /\ totalStars tagged_projects = Some (sumZ (map stars_of tagged_projects))
  /\ totalStars (rank tagged_projects) = totalStars tagged_projects
  /\ totalForks tagged_projects = Some (sumZ (map forks_of tagged_projects))
  /\ totalForks (rank tagged_projects) = totalForks tagged_projects
  /\ languages (rank tagged_projects) = languages tagged_projects.
Proof. apply (stats_unchanged_by_rank tagged_projects); reflexivity. Defined.

(** ** The tag filter *)

Lemma existsb_same_string a l :
  existsb (same_value_zero (JStr a)) l = true <-> In (JStr a) l.
Proof.
  rewrite existsb_exists. split.
  - intros (y & Hy & E). now rewrite (same_value_zero_eq _ _ E).
  - intros H. exists (JStr a). split; [exact H | apply same_value_zero_string].
Qed.

Lemma labelled_b_spec a p :
  a <> [] -> (labelled_b a p = true <-> labelled p (JStr a)).
Proof.
  intros Ha. unfold labelled_b, labelled, strict_eq.
  rewrite orb_true_iff. split.
  - intros [H|H].
    + left. destruct (get p "tags"); try discriminate.
      exists l. split; [reflexivity | now apply existsb_same_string].
    + right. split; [|destruct a; [contradiction | reflexivity]].
      now rewrite (same_value_zero_eq _ _ H).
  - intros [(l & -> & I)|[E _]].
    + left. now apply existsb_same_string.
    + right. rewrite E. apply same_value_zero_string.
Qed.

Lemma has_label_run a p log :
  presentable p = true ->
  has_label a p log = (Return (labelled_b a p), log).
Proof.
  intros H. destruct (presentable_parts p H) as (Hn & Ht & _).
  unfold has_label, prop, bind, labelled_b. rewrite Hn. cbn [ret].
  destruct (get p "tags") as [| | | | |l|]; try discriminate; cbn [js_or truthy];
    cbn [existsb orb];
    try reflexivity.
  destruct (existsb (same_value_zero (JStr a)) l); reflexivity.
Qed.

Lemma filterM_has_label a projects :
  forall log,
    forallb presentable projects = true ->
    filterM (has_label a) projects log
    = (Return (filter (labelled_b a) projects), log).
Proof.
  induction projects as [|p projects IH]; intros log H; [reflexivity|].
  cbn [forallb] in H. apply andb_prop in H as [Hp Hps].
  cbn [filterM filter]. unfold bind.
  rewrite (has_label_run a p log Hp), (IH log Hps). cbn [ret].
  destruct (labelled_b a p); reflexivity.
Qed.

(** X20. The tag step of [applyFilters], for presentable records and the
    tag of a filter button that is neither empty nor [__all__]: it keeps,
    in their order, exactly the records that carry the tag among their
    tags or as their language, and never throws.  A label that
    [collectTags] offers as a button always selects at least one record,
    and a tag that it does not offer selects none. *)
Theorem select_by_tag_labels (projects : list jsval) (a : jsstring)
        (log : list jsstring) :
  forallb presentable projects = true ->
  a <> [] -> a <> ALL ->
  select_by_tag (Some a) projects log
  = (Return (filter (labelled_b a) projects), log)
  /\ (forall p, In p (filter (labelled_b a) projects)
                <-> In p projects /\ labelled p (JStr a))
  /\ (forall labels,
        collectTags projects log = (Return labels, log) ->
        (In (JStr a) labels <-> filter (labelled_b a) projects <> [])).
Proof.
  intros Hp Ha Hall. split; [|split].
  - unfold select_by_tag. destruct a as [|c a]; [contradiction|].
    cbv zeta. rewrite (eqb_neq _ _ Hall). cbn [negb].
    now apply filterM_has_label.
  - intros p. rewrite filter_In, (labelled_b_spec a p Ha). tauto.
  - intros labels Run.
    destruct (collectTags_run projects log Hp) as (labels' & Run' & _ & _ & M).
    rewrite Run in Run'. injection Run' as <-. rewrite M. split.
    + intros (p & Hq & L) E.
      assert (I : In p (filter (labelled_b a) projects)).
      { apply filter_In. split; [exact Hq | now apply labelled_b_spec]. }
      rewrite E in I. exact I.
    + intros N. destruct (filter (labelled_b a) projects) as [|p sel] eqn:F;
        [contradiction|].
      assert (I : In p (filter (labelled_b a) projects)) by (rewrite F; now left).
      apply filter_In in I as [Hq L]. exists p. split; [exact Hq|].
      now apply labelled_b_spec.
Qed.

Lemma select_by_tag_labels_witness :
  select_by_tag (Some (lit "Rust")) tagged_projects []
  = (Return (filter (labelled_b (lit "Rust")) tagged_projects), [])
  /\ (forall p, In p (filter (labelled_b (lit "Rust")) tagged_projects)
                <-> In p tagged_projects /\ labelled p (JStr (lit "Rust")))
  /\ (forall labels,
        collectTags tagged_projects [] = (Return labels, []) ->
        (In (JStr (lit "Rust")) labels
         <-> filter (labelled_b (lit "Rust")) tagged_projects <> [])).
Proof.
  apply (select_by_tag_labels tagged_projects (lit "Rust") []);
    [reflexivity | discriminate | discriminate].
Defined.

Example select_rust :
  map (fun p => get p "name")
      (filter (labelled_b (lit "Rust")) tagged_projects)
  = [JStr (lit "a"); JStr (lit "d")].
Proof. reflexivity. Qed.

Example select_all_or_empty_tag :
  select_by_tag None tagged_projects [] = (Return tagged_projects, [])
  /\ select_by_tag (Some []) tagged_projects [] = (Return tagged_projects, [])
  /\ select_by_tag (Some ALL) tagged_projects [] = (Return tagged_projects, []).
Proof. repeat split. Qed.

(* ================================================================== *)
(** * The generator: what a written document holds *)
(* ================================================================== *)




